(** * Hospital-Manager: slot calculator, OPD queue and announcement engine

    A shallow embedding of the core of the Hospital-Manager desktop
    application:

    - [models/appointment.py]  : [DoctorSchedule.get_available_slots]
    - [models/opd.py]          : [OPDVisit.mark_completed], [OPDQueue]
    - [utils/data_manager.py]  : [get_patient_by_id], [get_todays_opd_visits]
    - [utils/announcement.py]  : [AnnouncementSystem], [AnnouncementQueue]

    Python strings are [string], Python ints are [Z], Python lists are
    [list], the Python set of announced keys is a [gset string].  Calls that
    can raise return a [result]; sinks (display callback, text-to-speech
    engine) are functions from the message to a [result]. *)

From stdpp Require Import gmap strings list sorting pretty.
From Stdlib Require Import ZArith Lia.

Open Scope string_scope.
Open Scope list_scope.

(** ** Exceptions *)

(** A Python exception, carried with its [str(e)] text. *)
Inductive exn : Type := Exception (text : string).

Definition exn_text (e : exn) : string := match e with Exception t => t end.

Inductive result (A : Type) : Type :=
| Ok (a : A)
| Raise (e : exn).
Arguments Ok {A} a.
Arguments Raise {A} e.

(** Python's [x == y] on strings. *)
Definition str_eqb (a b : string) : bool := bool_decide (a = b).

(** Python's [x in l] on a list of strings. *)
Definition str_in (a : string) (l : list string) : bool := bool_decide (a ∈ l).

(** Python's [x or default] on a string that may be missing: [None] and the
    empty string are falsy. *)
Definition str_or (x : option string) (fallback : string) : string :=
  match x with
  | Some s => if str_eqb s "" then fallback else s
  | None => fallback
  end.

(** * models/appointment.py *)

Module AppointmentModel.

Record Appointment := mkAppointment {
  appointment_id : string;
  patient_id : string;
  doctor_name : string;
  department : string;
  appointment_date : string;
  appointment_time : string;
  status : string;
  notes : string;
  created_date : string
}.

(** One entry of [DoctorSchedule.DEFAULT_DOCTORS] (a dict with the keys
    ["name"], ["department"] and ["slots"]). *)
Record Doctor := mkDoctor {
  name : string;
  doctor_department : string;
  slots : list string
}.

Definition DEFAULT_DOCTORS : list Doctor :=
  [ mkDoctor "Dr. Smith" "General Medicine"
      ["09:00"; "10:00"; "11:00"; "14:00"; "15:00"; "16:00"];
    mkDoctor "Dr. Johnson" "Cardiology"
      ["09:30"; "10:30"; "11:30"; "14:30"; "15:30"];
    mkDoctor "Dr. Williams" "Pediatrics"
      ["08:00"; "09:00"; "10:00"; "11:00"; "14:00"; "15:00"];
    mkDoctor "Dr. Brown" "Orthopedics"
      ["10:00"; "11:00"; "14:00"; "15:00"; "16:00"];
    mkDoctor "Dr. Davis" "Dermatology"
      ["09:00"; "10:00"; "11:00"; "15:00"; "16:00"] ].

(** The first loop of [get_available_slots]: [doctor_slots] starts as [[]]
    and is overwritten, with [break], at the first doctor whose name
    matches. *)
Fixpoint find_doctor_slots (doctors : list Doctor) (dname : string) : list string :=
  match doctors with
  | [] => []
  | doctor :: rest =>
      if str_eqb (name doctor) dname then slots doctor
      else find_doctor_slots rest dname
  end.

(** The second loop: [booked_slots] collects, in order, the time of every
    appointment of that doctor on that date whose status is in
    [["Scheduled", "Completed"]]. *)
Fixpoint collect_booked_slots (dname date : string)
    (existing_appointments : list Appointment) : list string :=
  match existing_appointments with
  | [] => []
  | appointment :: rest =>
      if str_eqb (doctor_name appointment) dname
         && str_eqb (appointment_date appointment) date
         && str_in (status appointment) ["Scheduled"; "Completed"]
      then appointment_time appointment :: collect_booked_slots dname date rest
      else collect_booked_slots dname date rest
  end.

(** [get_available_slots] over an arbitrary table of doctors. *)
Definition get_available_slots_in (doctors : list Doctor)
    (dname date : string) (existing_appointments : list Appointment) : list string :=
  let doctor_slots := find_doctor_slots doctors dname in
  match doctor_slots with
  | [] => []
  | _ :: _ =>
      let booked_slots := collect_booked_slots dname date existing_appointments in
      List.filter (fun slot => negb (str_in slot booked_slots)) doctor_slots
  end.

(** [DoctorSchedule.get_available_slots]. *)
Definition get_available_slots : string -> string -> list Appointment -> list string :=
  get_available_slots_in DEFAULT_DOCTORS.

(** *** The slot calculator as the specification words it *)

(** "the doctor's fixed slot template": the slots of the known profile
    with that name, nothing when no profile has it. *)
Definition known_doctor (doctors : list Doctor) (dname : string) : Prop :=
  ∃ d, d ∈ doctors ∧ name d = dname.

(** An appointment blocks slot [s] of doctor [dname] on [date]. *)
Definition blocks (dname date s : string) (a : Appointment) : Prop :=
  doctor_name a = dname ∧ appointment_date a = date ∧
  (status a = "Scheduled" ∨ status a = "Completed") ∧
  appointment_time a = s.

Definition blocksb (dname date s : string) (a : Appointment) : bool :=
  str_eqb (doctor_name a) dname && str_eqb (appointment_date a) date
  && (str_eqb (status a) "Scheduled" || str_eqb (status a) "Completed")
  && str_eqb (appointment_time a) s.

(** "start from the template; remove every slot time for which an
    appointment exists with matching doctorName, matching date and status
    in {Scheduled, Completed}". *)
Definition availableSlots (doctors : list Doctor) (dname date : string)
    (existing : list Appointment) : list string :=
  List.filter (fun s => negb (existsb (blocksb dname date s) existing))
              (find_doctor_slots doctors dname).

(** ** [Appointment]: dictionaries, time left *)

(** A dict as [to_dict] writes it and [from_dict] reads it: for each key
    the value, or [None] when the key is missing. *)
Record AppointmentDict := mkAppointmentDict {
  d_appointment_id : option string;
  d_patient_id : option string;
  d_doctor_name : option string;
  d_department : option string;
  d_appointment_date : option string;
  d_appointment_time : option string;
  d_status : option string;
  d_notes : option string;
  d_created_date : option string
}.

Definition to_dict (self : Appointment) : AppointmentDict :=
  mkAppointmentDict (Some (appointment_id self)) (Some (patient_id self))
    (Some (doctor_name self)) (Some (department self)) (Some (appointment_date self))
    (Some (appointment_time self)) (Some (status self)) (Some (notes self))
    (Some (created_date self)).

(** [generate_appointment_id]; [stamp] is
    [datetime.now().strftime("%Y%m%d%H%M%S")]. *)
Definition generate_appointment_id (stamp : string) : string := "A" +:+ stamp.

(** [Appointment.from_dict], with [__init__] inlined: the constructor sets
    [created_date] to the current time, [from_dict] then overwrites it with
    [data.get('created_date', appointment.created_date)]. *)
Definition from_dict (stamp now_text : string) (data : AppointmentDict) : Appointment :=
  mkAppointment (str_or (d_appointment_id data) (generate_appointment_id stamp))
    (default "" (d_patient_id data))
    (default "" (d_doctor_name data))
    (default "" (d_department data))
    (default "" (d_appointment_date data))
    (default "" (d_appointment_time data))
    (default "Scheduled" (d_status data))
    (default "" (d_notes data))
    (default now_text (d_created_date data)).

Section TimeLeft.

(** [datetime.strptime(text, "%Y-%m-%d %H:%M")] as the number of seconds
    from some fixed instant, or the [ValueError]. *)
Variable strptime_minute : string -> result Z.

Definition get_datetime (self : Appointment) : result Z :=
  strptime_minute (appointment_date self +:+ " " +:+ appointment_time self).

(** [time_until_appointment].  [now_us] is [datetime.now()] in
    microseconds from the same instant.  The difference of two datetimes
    is a [timedelta], normalised to [days], [seconds] in [0, 86400) and
    microseconds. *)
Definition time_until_appointment (now_us : Z) (self : Appointment) : result string :=
  match get_datetime self with
  | Raise e => Raise e
  | Ok appointment_datetime =>
      let appointment_us := (appointment_datetime * 1000000)%Z in
      if (appointment_us <? now_us)%Z then Ok "Past"
      else
        let diff := (appointment_us - now_us)%Z in
        let days := (diff / 86400000000)%Z in
        let seconds := ((diff mod 86400000000) / 1000000)%Z in
        let hours := (seconds / 3600)%Z in
        let minutes := ((seconds mod 3600) / 60)%Z in
        if (days >? 0)%Z then Ok (pretty days +:+ " day(s)")
        else if (hours >? 0)%Z then Ok (pretty hours +:+ " hour(s)")
        else Ok (pretty minutes +:+ " minute(s)")
  end.

(** [is_upcoming]. *)
Definition is_upcoming (now_us : Z) (self : Appointment) : result bool :=
  match get_datetime self with
  | Raise e => Raise e
  | Ok appointment_datetime => Ok (now_us <? appointment_datetime * 1000000)%Z
  end.

End TimeLeft.

(** ** ui/appointment_scheduling.py: the callers of the slot calculator *)

(** The conflict loop of [save_appointment]: [True] stands for the error
    box and the [return] at the first stored appointment of another id
    with the same doctor, date and time and a status in
    [['Scheduled', 'Completed']]. *)
Fixpoint has_conflict (existing_appointments : list Appointment)
    (appointment : Appointment) : bool :=
  match existing_appointments with
  | [] => false
  | existing :: rest =>
      if negb (str_eqb (appointment_id existing) (appointment_id appointment))
         && str_eqb (doctor_name existing) (doctor_name appointment)
         && str_eqb (appointment_date existing) (appointment_date appointment)
         && str_eqb (appointment_time existing) (appointment_time appointment)
         && str_in (status existing) ["Scheduled"; "Completed"]
      then true
      else has_conflict rest appointment
  end.

(** [DataManager.get_appointments_by_date] on the appointments read. *)
Definition get_appointments_by_date (appointments : list Appointment) (date : string)
    : list Appointment :=
  List.filter (fun appt => str_eqb (appointment_date appt) date) appointments.

(** [DataManager.get_appointments_by_doctor] on the appointments read. *)
Definition get_appointments_by_doctor (appointments : list Appointment) (dname : string)
    : list Appointment :=
  List.filter (fun appt => str_eqb (doctor_name appt) dname) appointments.



(** The [next((appt for appt in existing_appointments if ...), None)] that
    looks for the appointment to show beside a booked slot. *)
Fixpoint slot_appointment (existing_appointments : list Appointment)
    (dname slot : string) : option Appointment :=
  match existing_appointments with
  | [] => None
  | appt :: rest =>
      if str_eqb (doctor_name appt) dname && str_eqb (appointment_time appt) slot
      then Some appt
      else slot_appointment rest dname slot
  end.

End AppointmentModel.

(** * models/opd.py *)

Module OPD.

Record OPDVisit := mkOPDVisit {
  visit_id : string;
  patient_id : string;
  doctor_name : string;
  visit_date : string;
  symptoms : string;
  diagnosis : string;
  prescription : string;
  lab_tests : string;
  follow_up_date : string;
  notes : string;
  status : string;
  vital_signs : gmap string string
}.

(** [OPDVisit.mark_completed].  [now_text] is the value of
    [datetime.now().strftime("%Y-%m-%d %H:%M:%S")] at the call;
    [not self.visit_date] holds exactly for the empty string. *)
Definition mark_completed (now_text : string) (self : OPDVisit) : OPDVisit :=
  let self1 :=
    {| visit_id := visit_id self; patient_id := patient_id self;
       doctor_name := doctor_name self; visit_date := visit_date self;
       symptoms := symptoms self; diagnosis := diagnosis self;
       prescription := prescription self; lab_tests := lab_tests self;
       follow_up_date := follow_up_date self; notes := notes self;
       status := "Completed"; vital_signs := vital_signs self |} in
  if str_eqb (visit_date self1) "" then
    {| visit_id := visit_id self1; patient_id := patient_id self1;
       doctor_name := doctor_name self1; visit_date := now_text;
       symptoms := symptoms self1; diagnosis := diagnosis self1;
       prescription := prescription self1; lab_tests := lab_tests self1;
       follow_up_date := follow_up_date self1; notes := notes self1;
       status := status self1; vital_signs := vital_signs self1 |}
  else self1.

(** One dict of [OPDQueue.completed_today]. *)
Record Completion := mkCompletion {
  name : string;
  completed_at : string;
  announced : bool
}.

Record OPDQueue := mkOPDQueue {
  queue : list string;
  completed_today : list Completion
}.

(** [OPDQueue.__init__]. *)
Definition new_queue : OPDQueue := mkOPDQueue [] [].

(** Python's [list.remove(x)] on a list that holds [x]: the first
    occurrence goes. *)
Fixpoint list_remove (x : string) (l : list string) : list string :=
  match l with
  | [] => []
  | y :: rest => if str_eqb y x then rest else y :: list_remove x rest
  end.

(** Python's [list.index(x)]; [None] stands for the [ValueError]. *)
Fixpoint list_index (x : string) (l : list string) : option nat :=
  match l with
  | [] => None
  | y :: rest => if str_eqb y x then Some 0%nat else S <$> list_index x rest
  end.

Definition add_patient (p : string) (self : OPDQueue) : OPDQueue :=
  if negb (str_in p (queue self))
  then mkOPDQueue (queue self ++ [p]) (completed_today self)
  else self.

Definition remove_patient (p : string) (self : OPDQueue) : OPDQueue :=
  if str_in p (queue self)
  then mkOPDQueue (list_remove p (queue self)) (completed_today self)
  else self.

Definition get_next_patient (self : OPDQueue) : option string :=
  match queue self with
  | [] => None
  | p :: _ => Some p
  end.

Definition get_queue_position (p : string) (self : OPDQueue) : Z :=
  match list_index p (queue self) with
  | Some i => Z.of_nat i + 1
  | None => -1
  end.

(** [now_time] is [datetime.now().strftime("%H:%M:%S")] at the call. *)
Definition mark_patient_completed (patient_name now_time : string)
    (self : OPDQueue) : OPDQueue :=
  mkOPDQueue (queue self)
             (completed_today self ++ [mkCompletion patient_name now_time false]).

Definition get_pending_announcements (self : OPDQueue) : list Completion :=
  List.filter (fun patient => negb (announced patient)) (completed_today self).

(** The loop of [OPDQueue.mark_announced]: the first record with that name
    and [announced] false is flagged, then [break]. *)
Fixpoint mark_first_announced (patient_name : string) (l : list Completion)
    : list Completion :=
  match l with
  | [] => []
  | patient :: rest =>
      if str_eqb (name patient) patient_name && negb (announced patient)
      then mkCompletion (name patient) (completed_at patient) true :: rest
      else patient :: mark_first_announced patient_name rest
  end.

Definition mark_announced (patient_name : string) (self : OPDQueue) : OPDQueue :=
  mkOPDQueue (queue self) (mark_first_announced patient_name (completed_today self)).

Definition clear_completed_today (self : OPDQueue) : OPDQueue :=
  mkOPDQueue [] [].

Record QueueSummary := mkQueueSummary {
  total_in_queue : nat;
  completed_today_count : nat;
  pending_announcements_count : nat
}.

Definition get_queue_summary (self : OPDQueue) : QueueSummary :=
  mkQueueSummary (length (queue self)) (length (completed_today self))
                 (length (get_pending_announcements self)).

(** A call on the queue, to speak about histories of calls. *)
Inductive call :=
| AddPatient (p : string)
| RemovePatient (p : string)
| MarkPatientCompleted (patient_name now_time : string)
| MarkAnnounced (patient_name : string)
| ClearCompletedToday.

Definition do_call (c : call) (self : OPDQueue) : OPDQueue :=
  match c with
  | AddPatient p => add_patient p self
  | RemovePatient p => remove_patient p self
  | MarkPatientCompleted n t => mark_patient_completed n t self
  | MarkAnnounced n => mark_announced n self
  | ClearCompletedToday => clear_completed_today self
  end.

(** The calls of a history, oldest first. *)
Definition do_calls (cs : list call) (self : OPDQueue) : OPDQueue :=
  fold_left (fun q c => do_call c q) cs self.

(** How often [p] stands in the waiting list. *)
Definition occurrences (p : string) (l : list string) : nat :=
  length (List.filter (fun y => str_eqb y p) l).

(** The visit with only its status set to ["Completed"]. *)
Definition completed_copy (self : OPDVisit) : OPDVisit :=
  mkOPDVisit (visit_id self) (patient_id self) (doctor_name self) (visit_date self)
    (symptoms self) (diagnosis self) (prescription self) (lab_tests self)
    (follow_up_date self) (notes self) "Completed" (vital_signs self).

(** A record that [mark_announced] would flag. *)
Definition flaggable (patient_name : string) (c : Completion) : Prop :=
  name c = patient_name ∧ announced c = false.

(** The reading of "position(p) stays stable until another patient is
    enqueued ahead of p or p is dequeued" on this queue: after any history
    that ends with two [add_patient p], a further call that neither removes
    [p] nor resets the queue leaves [get_queue_position p] as it is.
    ([add_patient] only appends, so no call enqueues ahead of [p].) *)
Definition position_stable_until_dequeued : Prop :=
  ∀ (history : list call) (p : string) (c : call),
    c ≠ RemovePatient p → c ≠ ClearCompletedToday →
    let q := do_calls (history ++ [AddPatient p; AddPatient p]) new_queue in
    get_queue_position p (do_call c q) = get_queue_position p q.

(** ** [OPDVisit]: dictionaries, follow-up *)

(** A dict as [to_dict] writes it and [from_dict] reads it: for each key
    the value, or [None] when the key is missing. *)
Record VisitDict := mkVisitDict {
  d_visit_id : option string;
  d_patient_id : option string;
  d_doctor_name : option string;
  d_visit_date : option string;
  d_symptoms : option string;
  d_diagnosis : option string;
  d_prescription : option string;
  d_lab_tests : option string;
  d_follow_up_date : option string;
  d_notes : option string;
  d_status : option string;
  d_vital_signs : option (gmap string string)
}.

Definition to_dict (self : OPDVisit) : VisitDict :=
  mkVisitDict (Some (visit_id self)) (Some (patient_id self)) (Some (doctor_name self))
    (Some (visit_date self)) (Some (symptoms self)) (Some (diagnosis self))
    (Some (prescription self)) (Some (lab_tests self)) (Some (follow_up_date self))
    (Some (notes self)) (Some (status self)) (Some (vital_signs self)).

(** [generate_visit_id]; [stamp] is
    [datetime.now().strftime("%Y%m%d%H%M%S")]. *)
Definition generate_visit_id (stamp : string) : string := "V" +:+ stamp.

(** [OPDVisit.from_dict], with [__init__] inlined: [visit_id or
    generate_visit_id()], [visit_date or now], the [data.get(key, default)]
    of the other keys. *)
Definition from_dict (stamp now_text : string) (data : VisitDict) : OPDVisit :=
  mkOPDVisit (str_or (d_visit_id data) (generate_visit_id stamp))
    (default "" (d_patient_id data))
    (default "" (d_doctor_name data))
    (str_or (d_visit_date data) now_text)
    (default "" (d_symptoms data))
    (default "" (d_diagnosis data))
    (default "" (d_prescription data))
    (default "" (d_lab_tests data))
    (default "" (d_follow_up_date data))
    (default "" (d_notes data))
    (default "In Progress" (d_status data))
    (default ∅ (d_vital_signs data)).

Section FollowUp.

(** [str.strip()]. *)
Variable strip : string -> string.

(** [datetime.strptime(text, "%Y-%m-%d").date()] as a day number, or the
    [ValueError]. *)
Variable strptime_day : string -> result Z.

Definition needs_follow_up (self : OPDVisit) : bool :=
  negb (str_eqb (strip (follow_up_date self)) "")
  || str_eqb (status self) "Follow-up Required".

(** [today] is [datetime.now().date()]. *)
Definition is_follow_up_due (today : Z) (self : OPDVisit) : bool :=
  if str_eqb (strip (follow_up_date self)) "" then false
  else match strptime_day (follow_up_date self) with
       | Ok d => bool_decide (d <= today)%Z
       | Raise _ => false
       end.

End FollowUp.

(** How many records wait for their announcement. *)
Definition pending_count (self : OPDQueue) : nat :=
  length (get_pending_announcements self).

End OPD.

(** * models/patient.py and utils/data_manager.py *)

Module Store.

Record Patient := mkPatient {
  patient_id : string;
  name : string;
  age : Z;
  gender : string;
  contact : string;
  address : string;
  phone : string;
  registration_date : string;
  appointments : list string;
  opd_visits : list string;
  medical_history : list (gmap string string)
}.

(** What the data manager reads back from [patients.json] and
    [opd_visits.json], in file order. *)
Record DataManager := mkDataManager {
  stored_patients : list Patient;
  stored_visits : list OPD.OPDVisit
}.

Definition get_patients (dm : DataManager) : list Patient := stored_patients dm.

(** The loop of [DataManager.get_patient_by_id]: the first patient with
    that id, [None] when the loop runs out. *)
Fixpoint first_patient_with_id (patients : list Patient) (pid : string)
    : option Patient :=
  match patients with
  | [] => None
  | patient :: rest =>
      if str_eqb (patient_id patient) pid then Some patient
      else first_patient_with_id rest pid
  end.

Definition get_patient_by_id (dm : DataManager) (pid : string) : option Patient :=
  first_patient_with_id (get_patients dm) pid.

Definition get_opd_visits (dm : DataManager) : list OPD.OPDVisit := stored_visits dm.

Section Clock.

(** [datetime.strptime(text, "%Y-%m-%d %H:%M:%S").date()] as a day number,
    or the [ValueError] it raises on a text that does not parse. *)
Variable strptime_date : string -> result Z.

(** [OPDVisit.is_today]; [today] is [datetime.now().date()]. *)
Definition is_today (today : Z) (visit : OPD.OPDVisit) : result bool :=
  match strptime_date (OPD.visit_date visit) with
  | Ok d => Ok (bool_decide (d = today))
  | Raise e => Raise e
  end.

(** The comprehension [[visit for visit in visits if visit.is_today()]]:
    the first [is_today] that raises ends it. *)
Fixpoint keep_todays (today : Z) (visits : list OPD.OPDVisit)
    : result (list OPD.OPDVisit) :=
  match visits with
  | [] => Ok []
  | visit :: rest =>
      match is_today today visit with
      | Raise e => Raise e
      | Ok b =>
          match keep_todays today rest with
          | Raise e => Raise e
          | Ok kept => Ok (if b then visit :: kept else kept)
          end
      end
  end.

Definition get_todays_opd_visits (today : Z) (dm : DataManager)
    : result (list OPD.OPDVisit) :=
  keep_todays today (get_opd_visits dm).

End Clock.

(** ** [Patient]: dictionaries *)

(** A dict as [Patient.to_dict] writes it and [Patient.from_dict] reads it:
    for each key the value, or [None] when the key is missing. *)
Record PatientDict := mkPatientDict {
  d_patient_id : option string;
  d_name : option string;
  d_age : option Z;
  d_gender : option string;
  d_contact : option string;
  d_address : option string;
  d_phone : option string;
  d_registration_date : option string;
  d_appointments : option (list string);
  d_opd_visits : option (list string);
  d_medical_history : option (list (gmap string string))
}.

Definition to_dict (self : Patient) : PatientDict :=
  mkPatientDict (Some (patient_id self)) (Some (name self)) (Some (age self))
    (Some (gender self)) (Some (contact self)) (Some (address self)) (Some (phone self))
    (Some (registration_date self)) (Some (appointments self)) (Some (opd_visits self))
    (Some (medical_history self)).

(** [generate_patient_id]; [stamp] is
    [datetime.now().strftime("%Y%m%d%H%M%S")]. *)
Definition generate_patient_id (stamp : string) : string := "P" +:+ stamp.

(** [Patient.from_dict], with [__init__] inlined: [patient_id or
    generate_patient_id()], [registration_date or now]. *)
Definition from_dict (stamp now_text : string) (data : PatientDict) : Patient :=
  mkPatient (str_or (d_patient_id data) (generate_patient_id stamp))
    (default "" (d_name data))
    (default 0%Z (d_age data))
    (default "" (d_gender data))
    (default "" (d_contact data))
    (default "" (d_address data))
    (default "" (d_phone data))
    (str_or (d_registration_date data) now_text)
    (default [] (d_appointments data))
    (default [] (d_opd_visits data))
    (default [] (d_medical_history data)).

(** [get_latest_visit]: the last entry of the medical history. *)
Definition get_latest_visit (self : Patient) : option (gmap string string) :=
  last (medical_history self).

(** [add_medical_history]: the entry gets the key ['date'] and goes to the
    end. *)
Definition add_medical_history (now_text : string) (entry : gmap string string)
    (self : Patient) : Patient :=
  mkPatient (patient_id self) (name self) (age self) (gender self) (contact self)
    (address self) (phone self) (registration_date self) (appointments self)
    (opd_visits self) (medical_history self ++ [<["date" := now_text]> entry]).

End Store.

(** * utils/data_manager.py on its files *)

Module Disk.

(** The three JSON files, each a list of dicts. *)
Record Files := mkFiles {
  patients_file : list Store.PatientDict;
  appointments_file : list AppointmentModel.AppointmentDict;
  opd_visits_file : list OPD.VisitDict
}.

(** How a write ends: the data is in the file, or an exception was caught
    and the file holds [left_on_disk]. *)
Inductive write (A : Type) : Type :=
| Written
| NotWritten (left_on_disk : A).
Arguments Written {A}.
Arguments NotWritten {A} left_on_disk.

(** [_save_json_file]: [True] and the data on disk, or [False]. *)
Definition _save_json_file {A} (w : write A) (data : A) : bool * A :=
  match w with
  | Written => (true, data)
  | NotWritten left_on_disk => (false, left_on_disk)
  end.

Section Clock.

(** The clock at the time the files are read: [stamp] is
    [datetime.now().strftime("%Y%m%d%H%M%S")], [now_text] is
    [datetime.now().strftime("%Y-%m-%d %H:%M:%S")]. *)
Variables stamp now_text : string.

Definition get_patients (files : Files) : list Store.Patient :=
  map (Store.from_dict stamp now_text) (patients_file files).

Definition get_opd_visits (files : Files) : list OPD.OPDVisit :=
  map (OPD.from_dict stamp now_text) (opd_visits_file files).

Definition get_appointments (files : Files) : list AppointmentModel.Appointment :=
  map (AppointmentModel.from_dict stamp now_text) (appointments_file files).

(** What the data manager reads back. *)
Definition read_back (files : Files) : Store.DataManager :=
  Store.mkDataManager (get_patients files) (get_opd_visits files).

Definition get_patient_by_id (files : Files) (pid : string) : option Store.Patient :=
  Store.get_patient_by_id (read_back files) pid.

(** The loop of [save_patient]: the first dict whose ['patient_id'] is the
    patient's id is replaced, then [break]; [None] when no dict has it. *)
Fixpoint replace_patient (patients_data : list Store.PatientDict)
    (patient : Store.Patient) : option (list Store.PatientDict) :=
  match patients_data with
  | [] => None
  | existing_patient :: rest =>
      if bool_decide (Store.d_patient_id existing_patient = Some (Store.patient_id patient))
      then Some (Store.to_dict patient :: rest)
      else (existing_patient ::.) <$> replace_patient rest patient
  end.

Definition save_patient (w : write (list Store.PatientDict)) (patient : Store.Patient)
    (files : Files) : bool * Files :=
  let patients_data :=
    match replace_patient (patients_file files) patient with
    | Some replaced => replaced
    | None => patients_file files ++ [Store.to_dict patient]
    end in
  let '(ok, on_disk) := _save_json_file w patients_data in
  (ok, mkFiles on_disk (appointments_file files) (opd_visits_file files)).

Definition delete_patient (w : write (list Store.PatientDict)) (pid : string)
    (files : Files) : bool * Files :=
  let patients_data :=
    List.filter (fun p => negb (bool_decide (Store.d_patient_id p = Some pid)))
                (patients_file files) in
  let '(ok, on_disk) := _save_json_file w patients_data in
  (ok, mkFiles on_disk (appointments_file files) (opd_visits_file files)).

(** The loop of [save_opd_visit] over the visit dicts. *)
Fixpoint replace_visit (visits_data : list OPD.VisitDict) (visit : OPD.OPDVisit)
    : option (list OPD.VisitDict) :=
  match visits_data with
  | [] => None
  | existing_visit :: rest =>
      if bool_decide (OPD.d_visit_id existing_visit = Some (OPD.visit_id visit))
      then Some (OPD.to_dict visit :: rest)
      else (existing_visit ::.) <$> replace_visit rest visit
  end.

(** The patient with one more visit id. *)
Definition with_visit (vid : string) (patient : Store.Patient) : Store.Patient :=
  Store.mkPatient (Store.patient_id patient) (Store.name patient) (Store.age patient)
    (Store.gender patient) (Store.contact patient) (Store.address patient)
    (Store.phone patient) (Store.registration_date patient)
    (Store.appointments patient) (Store.opd_visits patient ++ [vid])
    (Store.medical_history patient).

(** [save_opd_visit]: the visits are read and updated in memory, the
    patient's list of visit ids is extended and saved (its outcome is not
    looked at), then the visits are written. *)
Definition save_opd_visit (w_patients : write (list Store.PatientDict))
    (w_visits : write (list OPD.VisitDict)) (visit : OPD.OPDVisit) (files : Files)
    : bool * Files :=
  let visits_data :=
    match replace_visit (opd_visits_file files) visit with
    | Some replaced => replaced
    | None => opd_visits_file files ++ [OPD.to_dict visit]
    end in
  let files1 :=
    match get_patient_by_id files (OPD.patient_id visit) with
    | Some patient =>
        if negb (str_in (OPD.visit_id visit) (Store.opd_visits patient))
        then (save_patient w_patients (with_visit (OPD.visit_id visit) patient) files).2
        else files
    | None => files
    end in
  let '(ok, on_disk) := _save_json_file w_visits visits_data in
  (ok, mkFiles (patients_file files1) (appointments_file files1) on_disk).

(** The loop of [get_opd_visit_by_id]. *)
Fixpoint first_visit_with_id (visits : list OPD.OPDVisit) (vid : string)
    : option OPD.OPDVisit :=
  match visits with
  | [] => None
  | visit :: rest =>
      if str_eqb (OPD.visit_id visit) vid then Some visit
      else first_visit_with_id rest vid
  end.

Definition get_opd_visit_by_id (files : Files) (vid : string) : option OPD.OPDVisit :=
  first_visit_with_id (get_opd_visits files) vid.

Definition get_patient_opd_history (files : Files) (pid : string) : list OPD.OPDVisit :=
  List.filter (fun visit => str_eqb (OPD.patient_id visit) pid) (get_opd_visits files).

End Clock.

(** Every stored patient dict has a non-empty ['patient_id']. *)
Definition patients_have_ids (files : Files) : Prop :=
  Forall (fun d => ∃ pid, Store.d_patient_id d = Some pid ∧ pid ≠ "") (patients_file files).

(** Every stored visit dict has a non-empty ['visit_id']. *)
Definition visits_have_ids (files : Files) : Prop :=
  Forall (fun d => ∃ vid, OPD.d_visit_id d = Some vid ∧ vid ≠ "") (opd_visits_file files).

End Disk.

(** * utils/announcement.py *)

Module Announcement.

(** What a call leaves behind outside the engine. *)
Inductive event :=
| Displayed (message : string)   (* [announcement_callback(message)] returned *)
| Spoken (message : string)      (* [say] and [runAndWait] returned *)
| Printed (line : string).       (* a [print] *)

(** A sink takes the message and returns or raises. *)
Definition sink := string -> result unit.

Record AnnouncementSystem := mkAnnouncementSystem {
  announcement_callback : sink;
  is_running : bool;
  pending_announcements : list string;
  announced_patients : gset string;
  announcement_interval : Z;
  tts_available : bool;
  tts_engine : option sink
}.

(** [AnnouncementSystem.__init__], with the outcome of the [pyttsx3]
    import: an engine, or [None] after the [ImportError]. *)
Definition new_system (callback : sink) (engine : option sink) : AnnouncementSystem :=
  mkAnnouncementSystem callback false [] ∅ 30
    (match engine with Some _ => true | None => false end) engine.

Definition with_announced (keys : gset string) (self : AnnouncementSystem)
    : AnnouncementSystem :=
  mkAnnouncementSystem (announcement_callback self) (is_running self)
    (pending_announcements self) keys (announcement_interval self)
    (tts_available self) (tts_engine self).

(** The block every announcing method ends with:
    [if self.tts_available and self.tts_engine: try: say; runAndWait
     except Exception as e: print(f"TTS error: {e}")]. *)
Definition speak_guarded (self : AnnouncementSystem) (message : string) : list event :=
  if tts_available self then
    match tts_engine self with
    | Some engine =>
        match engine message with
        | Ok _ => [Spoken message]
        | Raise e => [Printed ("TTS error: " +:+ exn_text e)]
        end
    | None => []
    end
  else [].

(** The unguarded [self.announcement_callback(message)] followed by the
    guarded speech block. *)
Definition announce (self : AnnouncementSystem) (message : string)
    : result unit * list event :=
  match announcement_callback self message with
  | Raise e => (Raise e, [])
  | Ok _ => (Ok (), Displayed message :: speak_guarded self message)
  end.

Definition completion_message (patient_name doctor_name : string) : string :=
  "Patient " +:+ patient_name +:+ " consultation with " +:+ doctor_name
  +:+ " is complete. Please collect your prescription from the front desk.".

Definition _announce_patient_completion (self : AnnouncementSystem)
    (patient_name doctor_name : string) : result unit * list event :=
  announce self (completion_message patient_name doctor_name).

(** [custom_message or f"Patient {patient_name}, please proceed ..."]:
    [None] and the empty string both give the default text. *)
Definition manual_message (patient_name : string) (custom_message : option string)
    : string :=
  match custom_message with
  | Some m => if str_eqb m "" then
                "Patient " +:+ patient_name +:+ ", please proceed to the front desk."
              else m
  | None => "Patient " +:+ patient_name +:+ ", please proceed to the front desk."
  end.

(** [add_manual_announcement]: the method has no [return] statement, a
    normal return gives [None] (here [Ok ()]). *)
Definition add_manual_announcement (self : AnnouncementSystem)
    (patient_name : string) (custom_message : option string)
    : result unit * list event :=
  announce self (manual_message patient_name custom_message).

Definition announce_patient_call (self : AnnouncementSystem)
    (patient_name : string) (room_number : option string)
    : result unit * list event :=
  let message :=
    match room_number with
    | Some r =>
        if str_eqb r "" then
          "Patient " +:+ patient_name
          +:+ ", please report to the consultation room for your appointment."
        else "Patient " +:+ patient_name +:+ ", please report to room " +:+ r
             +:+ " for your appointment."
    | None => "Patient " +:+ patient_name
              +:+ ", please report to the consultation room for your appointment."
    end in
  announce self message.

(** [test_announcement], the one announcing method that reports a speech
    failure: it returns [False] from the [except] branch. *)
Definition test_announcement (self : AnnouncementSystem) (test_message : option string)
    : result bool * list event :=
  let message :=
    match test_message with
    | Some m => if str_eqb m "" then
        "This is a test announcement. The announcement system is working properly."
        else m
    | None =>
        "This is a test announcement. The announcement system is working properly."
    end in
  match announcement_callback self ("TEST: " +:+ message) with
  | Raise e => (Raise e, [])
  | Ok _ =>
      if tts_available self then
        match tts_engine self with
        | Some engine =>
            match engine message with
            | Ok _ => (Ok true, [Displayed ("TEST: " +:+ message); Spoken message])
            | Raise e => (Ok false, [Displayed ("TEST: " +:+ message);
                                     Printed ("TTS test failed: " +:+ exn_text e)])
            end
        | None => (Ok true, [Displayed ("TEST: " +:+ message)])
        end
      else (Ok true, [Displayed ("TEST: " +:+ message)])
  end.

(** [max(10, interval_seconds)]. *)
Definition set_announcement_interval (interval_seconds : Z)
    (self : AnnouncementSystem) : AnnouncementSystem :=
  mkAnnouncementSystem (announcement_callback self) (is_running self)
    (pending_announcements self) (announced_patients self)
    (Z.max 10 interval_seconds) (tts_available self) (tts_engine self).

Definition clear_announced_patients (self : AnnouncementSystem)
    : AnnouncementSystem * list event :=
  (with_announced ∅ self, [Printed "Announced patients list cleared"]).

Record Status := mkStatus {
  status_is_running : bool;
  status_tts_available : bool;
  status_announcement_interval : Z;
  status_announced_today : nat;
  status_pending_announcements : nat
}.

Definition get_announcement_status (self : AnnouncementSystem) : Status :=
  mkStatus (is_running self) (tts_available self) (announcement_interval self)
           (size (announced_patients self)) (length (pending_announcements self)).

(** [f"{visit.patient_id}_{visit.visit_id}"]. *)
Definition announcement_key (visit : OPD.OPDVisit) : string :=
  OPD.patient_id visit +:+ "_" +:+ OPD.visit_id visit.

(** An event of the background loop, with the visit (patient id, visit id)
    in whose turn of the [for] loop it happened; [None] for what the loop
    itself prints. *)
Record entry := mkEntry {
  origin : option (string * string);
  what : event
}.

Definition in_turn_of (visit : OPD.OPDVisit) (evs : list event) : list entry :=
  map (mkEntry (Some (OPD.patient_id visit, OPD.visit_id visit))) evs.

(** The [for visit in completed_visits] loop of
    [_check_and_announce_completed_patients].  An exception leaves the loop
    with the set as it is at that moment. *)
Fixpoint announce_visits (dm : Store.DataManager) (completed_visits : list OPD.OPDVisit)
    (self : AnnouncementSystem) : result unit * AnnouncementSystem * list entry :=
  match completed_visits with
  | [] => (Ok (), self, [])
  | visit :: rest =>
      let key := announcement_key visit in
      if bool_decide (key ∉ announced_patients self) then
        match Store.get_patient_by_id dm (OPD.patient_id visit) with
        | Some patient =>
            match _announce_patient_completion self (Store.name patient)
                    (OPD.doctor_name visit) with
            | (Raise e, evs) => (Raise e, self, in_turn_of visit evs)
            | (Ok _, evs) =>
                let self' := with_announced ({[key]} ∪ announced_patients self) self in
                let '(r, self'', log) := announce_visits dm rest self' in
                (r, self'', in_turn_of visit evs ++ log)
            end
        | None => announce_visits dm rest self
        end
      else announce_visits dm rest self
  end.

Section Clock.

Variable strptime_date : string -> result Z.

Definition _check_and_announce_completed_patients (today : Z)
    (dm : Store.DataManager) (self : AnnouncementSystem)
    : result unit * AnnouncementSystem * list entry :=
  match Store.get_todays_opd_visits strptime_date today dm with
  | Raise e => (Raise e, self, [])
  | Ok today_visits =>
      let completed_visits :=
        List.filter (fun visit => str_eqb (OPD.status visit) "Completed") today_visits in
      announce_visits dm completed_visits self
  end.

(** One turn of the [while self.is_running] loop of [_announcement_loop]:
    the cycle inside [try], the [except Exception] that prints and goes
    on.  The sleeps are not modelled. *)
Definition loop_turn (today : Z) (dm : Store.DataManager) (self : AnnouncementSystem)
    : AnnouncementSystem * list entry :=
  match _check_and_announce_completed_patients today dm self with
  | (Ok _, self', log) => (self', log)
  | (Raise e, self', log) =>
      (self', log ++ [mkEntry None (Printed ("Error in announcement loop: " +:+ exn_text e))])
  end.

(** [_announcement_loop] over the wakes it gets: each wake finds a date and
    a state of the record store. *)
Fixpoint _announcement_loop (wakes : list (Z * Store.DataManager))
    (self : AnnouncementSystem) : AnnouncementSystem * list entry :=
  match wakes with
  | [] => (self, [])
  | (today, dm) :: later =>
      if is_running self then
        let '(self', log) := loop_turn today dm self in
        let '(self'', log') := _announcement_loop later self' in
        (self'', log ++ log')
      else (self, [])
  end.

End Clock.

(** [start_announcement_service], as far as the state goes. *)
Definition start_announcement_service (self : AnnouncementSystem) : AnnouncementSystem :=
  mkAnnouncementSystem (announcement_callback self) true
    (pending_announcements self) (announced_patients self)
    (announcement_interval self) (tts_available self) (tts_engine self).

(** A message shown by the display sink in the turn of visit
    [(pid, vid)]. *)
Definition is_delivery_for (pid vid : string) (en : entry) : bool :=
  match origin en, what en with
  | Some (p, v), Displayed _ => str_eqb p pid && str_eqb v vid
  | _, _ => false
  end.

Definition deliveries_for (pid vid : string) (log : list entry) : nat :=
  length (List.filter (is_delivery_for pid vid) log).

(** Anything at all that happened in the turn of visit [(pid, vid)]. *)
Definition in_turn (pid vid : string) (en : entry) : Prop :=
  origin en = Some (pid, vid).

(** The speech sink is in use and raises on [message]. *)
Definition speech_fails (self : AnnouncementSystem) (message : string) (e : exn) : Prop :=
  tts_available self = true ∧
  ∃ engine, tts_engine self = Some engine ∧ engine message = Raise e.

(** The speech sink is not in use, or returns on [message]. *)
Definition speech_fine (self : AnnouncementSystem) (message : string) : Prop :=
  ∀ e, ¬ speech_fails self message e.

(** Delivery of [message] to one of the two sinks fails. *)
Definition delivery_fails (self : AnnouncementSystem) (message : string) : Prop :=
  (∃ e, announcement_callback self message = Raise e) ∨ (∃ e, speech_fails self message e).

(** "Every manual announcement that fails to deliver surfaces a failure
    indication to its caller": the method returns nothing but [None], so
    the one thing its caller can tell apart from a delivered announcement
    is a raised error. *)
Definition manual_failure_surfaces : Prop :=
  ∀ (self : AnnouncementSystem) (patient_name : string) (custom_message : option string),
    delivery_fails self (manual_message patient_name custom_message) →
    (add_manual_announcement self patient_name custom_message).1 ≠ Ok ().

(** The key of the pair [(pid, vid)], as [announcement_key] builds it. *)
Definition pair_key (pid vid : string) : string := pid +:+ "_" +:+ vid.

(** [visit] is the visit [vid] of patient [pid]. *)
Definition has_pair (pid vid : string) (visit : OPD.OPDVisit) : Prop :=
  OPD.patient_id visit = pid ∧ OPD.visit_id visit = vid.

(** Among [visits] the key of [(pid, vid)] belongs to no other pair. *)
Definition key_unambiguous (pid vid : string) (visits : list OPD.OPDVisit) : Prop :=
  ∀ u, u ∈ visits → announcement_key u = pair_key pid vid → has_pair pid vid u.

(** A wake at which the visit [(pid, vid)] can be announced: the fetch of
    today's visits succeeds, a completed visit [(pid, vid)] is among them,
    its key is unambiguous among them, and its patient is on record. *)
Definition announceable (strptime_date : string → result Z) (pid vid : string)
    (wake : Z * Store.DataManager) : Prop :=
  ∃ today_visits,
    Store.get_todays_opd_visits strptime_date wake.1 wake.2 = Ok today_visits
    ∧ (∃ u, u ∈ today_visits ∧ OPD.status u = "Completed" ∧ has_pair pid vid u)
    ∧ key_unambiguous pid vid today_visits
    ∧ is_Some (Store.get_patient_by_id wake.2 pid).

(** The first claim about the poll cycle, as worded, with sinks that never
    fail: whenever a completed visit of today with a patient on record is
    in the store, any number (at least one) of poll cycles over that store
    deliver exactly one message for it. *)
Definition every_completed_visit_announced_once : Prop :=
  ∀ (strptime_date : string → result Z) (self : AnnouncementSystem)
    (today : Z) (dm : Store.DataManager) (visit : OPD.OPDVisit) (cycles : nat),
    is_running self = true →
    announced_patients self = ∅ →
    (∀ m, announcement_callback self m = Ok ()) →
    (∀ m, speech_fine self m) →
    (∃ today_visits,
       Store.get_todays_opd_visits strptime_date today dm = Ok today_visits
       ∧ visit ∈ today_visits) →
    OPD.status visit = "Completed" →
    is_Some (Store.get_patient_by_id dm (OPD.patient_id visit)) →
    (0 < cycles)%nat →
    deliveries_for (OPD.patient_id visit) (OPD.visit_id visit)
      (_announcement_loop strptime_date (replicate cycles (today, dm)) self).2 = 1%nat.

(** The claim about sink failures, as worded: when the poll cycle reaches
    a completed visit whose key is not announced and whose patient is on
    record, and a sink fails on its message, the key is announced after
    the cycle all the same. *)
Definition sink_failure_still_marks : Prop :=
  ∀ (dm : Store.DataManager) (self : AnnouncementSystem)
    (visit : OPD.OPDVisit) (rest : list OPD.OPDVisit) (patient : Store.Patient),
    announcement_key visit ∉ announced_patients self →
    Store.get_patient_by_id dm (OPD.patient_id visit) = Some patient →
    delivery_fails self
      (completion_message (Store.name patient) (OPD.doctor_name visit)) →
    announcement_key visit
      ∈ announced_patients (announce_visits dm (visit :: rest) self).1.2.

(** The announced set is [keys], all else is as in [self]. *)
Definition same_but_announced (self self' : AnnouncementSystem) : Prop :=
  self' = with_announced (announced_patients self') self
  ∧ announced_patients self ⊆ announced_patients self'.

(** No entry of the log stems from the turn of visit [(pid, vid)]. *)
Definition silent_about (pid vid : string) (log : list entry) : Prop :=
  Forall (fun en => origin en ≠ Some (pid, vid)) log.

(** A wake at which the poll cycle looks up the patient of the visit
    [(pid, vid)] and finds nothing: the fetch of today's visits succeeds, a
    completed visit [(pid, vid)] is among them, and no patient is on record
    under [pid]. *)
Definition unresolved (strptime_date : string → result Z) (pid vid : string)
    (wake : Z * Store.DataManager) : Prop :=
  ∃ today_visits,
    Store.get_todays_opd_visits strptime_date wake.1 wake.2 = Ok today_visits
    ∧ (∃ u, u ∈ today_visits ∧ OPD.status u = "Completed" ∧ has_pair pid vid u)
    ∧ Store.get_patient_by_id wake.2 pid = None.

(** Among the visits fetched at the wake the key of [(pid, vid)] belongs
    to no other pair. *)
Definition key_unambiguous_at (strptime_date : string → result Z) (pid vid : string)
    (wake : Z * Store.DataManager) : Prop :=
  ∀ today_visits,
    Store.get_todays_opd_visits strptime_date wake.1 wake.2 = Ok today_visits →
    key_unambiguous pid vid today_visits.

(** The claim about a failed patient lookup, as worded, with sinks that
    never fail: when a poll cycle over the store [dm] finds no patient for a
    completed visit of today, the cycle shows nothing in the visit's turn
    and leaves its key out of the announced set, so that later cycles over
    a store [dm'] that has the patient on record announce the visit. *)
Definition unresolved_visit_announced_later : Prop :=
  ∀ (strptime_date : string → result Z) (self : AnnouncementSystem)
    (today : Z) (dm dm' : Store.DataManager) (visit : OPD.OPDVisit) (cycles : nat),
    is_running self = true →
    announced_patients self = ∅ →
    (∀ m, announcement_callback self m = Ok ()) →
    (∀ m, speech_fine self m) →
    (∃ today_visits,
       Store.get_todays_opd_visits strptime_date today dm = Ok today_visits
       ∧ visit ∈ today_visits) →
    (∃ today_visits,
       Store.get_todays_opd_visits strptime_date today dm' = Ok today_visits
       ∧ visit ∈ today_visits) →
    OPD.status visit = "Completed" →
    Store.get_patient_by_id dm (OPD.patient_id visit) = None →
    is_Some (Store.get_patient_by_id dm' (OPD.patient_id visit)) →
    (0 < cycles)%nat →
    let missed := loop_turn strptime_date today dm self in
    silent_about (OPD.patient_id visit) (OPD.visit_id visit) missed.2
    ∧ (announcement_key visit ∉ announced_patients missed.1)
    ∧ (1 <= deliveries_for (OPD.patient_id visit) (OPD.visit_id visit)
              (_announcement_loop strptime_date (replicate cycles (today, dm'))
                 missed.1).2)%nat.

(** [stop_announcement_service], as far as the state goes. *)
Definition stop_announcement_service (self : AnnouncementSystem) : AnnouncementSystem :=
  mkAnnouncementSystem (announcement_callback self) false
    (pending_announcements self) (announced_patients self)
    (announcement_interval self) (tts_available self) (tts_engine self).

(** An entry of the log that is a message shown by the display sink. *)
Definition is_shown (en : entry) : bool :=
  match what en with
  | Displayed _ => true
  | _ => false
  end.

(** How many messages the display sink has shown. *)
Definition shown (log : list entry) : nat := length (List.filter is_shown log).

(** [announce_queue_update]; [pretty position] is what [f"{position}"]
    writes for an int. *)
Definition announce_queue_update (self : AnnouncementSystem)
    (patient_name : string) (position : Z) : result unit * list event :=
  let message :=
    if bool_decide (position = 1%Z)
    then "Patient " +:+ patient_name +:+ ", you are next in line."
    else "Patient " +:+ patient_name +:+ ", you are number " +:+ pretty position
         +:+ " in the queue." in
  announce self message.

(** A call of one of the four methods that announce through both sinks. *)
Inductive announcing_call :=
| CompletionCall (patient_name doctor_name : string)
| ManualCall (patient_name : string) (custom_message : option string)
| PatientCall (patient_name : string) (room_number : option string)
| QueueUpdateCall (patient_name : string) (position : Z).

Definition do_announcing_call (self : AnnouncementSystem) (c : announcing_call)
    : result unit * list event :=
  match c with
  | CompletionCall n d => _announce_patient_completion self n d
  | ManualCall n m => add_manual_announcement self n m
  | PatientCall n r => announce_patient_call self n r
  | QueueUpdateCall n p => announce_queue_update self n p
  end.

End Announcement.

(** ** [AnnouncementQueue] *)

Module AnnouncementQueue.

(** One dict of [AnnouncementQueue.queue].  [added_at] and [announced_at]
    are readings of [datetime.now()]; the key ['announced_at'] is absent
    until the item is marked. *)
Record Item := mkItem {
  patient_name : string;
  patient_id : string;
  priority : Z;
  added_at : Z;
  announced : bool;
  announced_at : option Z
}.

Record Queue := mkQueue {
  queue : list Item;
  current_position : Z
}.

(** [AnnouncementQueue.__init__]. *)
Definition new_queue : Queue := mkQueue [] 0.

(** The [for i, item in enumerate(self.queue)] loop of [add_to_queue] with
    its [insert(i, ...)] and [break], and the [append] when nothing was
    inserted. *)
Fixpoint insert_by_priority (announcement_item : Item) (l : list Item) : list Item :=
  match l with
  | [] => [announcement_item]
  | item :: rest =>
      if (priority announcement_item >? priority item)%Z
      then announcement_item :: item :: rest
      else item :: insert_by_priority announcement_item rest
  end.

Definition add_to_queue (name pid : string) (prio now : Z) (self : Queue) : Queue :=
  let announcement_item := mkItem name pid prio now false None in
  mkQueue (insert_by_priority announcement_item (queue self)) (current_position self).

(** [get_next_announcement]: the first item with [announced] false. *)
Fixpoint first_pending (l : list Item) : option Item :=
  match l with
  | [] => None
  | item :: rest => if negb (announced item) then Some item else first_pending rest
  end.

Definition get_next_announcement (self : Queue) : option Item :=
  first_pending (queue self).

Fixpoint mark_first (pid : string) (now : Z) (l : list Item) : list Item :=
  match l with
  | [] => []
  | item :: rest =>
      if str_eqb (patient_id item) pid && negb (announced item)
      then mkItem (patient_name item) (patient_id item) (priority item)
                  (added_at item) true (Some now) :: rest
      else item :: mark_first pid now rest
  end.

Definition mark_announced (pid : string) (now : Z) (self : Queue) : Queue :=
  mkQueue (mark_first pid now (queue self)) (current_position self).

Definition remove_from_queue (pid : string) (self : Queue) : Queue :=
  mkQueue (List.filter (fun item => negb (str_eqb (patient_id item) pid)) (queue self))
          (current_position self).

Definition clear_queue (self : Queue) : Queue := mkQueue [] 0.

(** A call on the queue. *)
Inductive call :=
| AddToQueue (name pid : string) (prio : Z)
| MarkAnnounced (pid : string)
| RemoveFromQueue (pid : string).

(** The call made when the clock reads [now]. *)
Definition do_call (c : call) (now : Z) (self : Queue) : Queue :=
  match c with
  | AddToQueue n p prio => add_to_queue n p prio now self
  | MarkAnnounced p => mark_announced p now self
  | RemoveFromQueue p => remove_from_queue p self
  end.

(** A history of calls from the clock reading [now] on.  The calls
    come one after the other, so the clock, which moves on between two
    calls, tells the order of the [add_to_queue] calls. *)
Fixpoint do_calls (cs : list call) (now : Z) (self : Queue) : Queue :=
  match cs with
  | [] => self
  | c :: later => do_calls later (now + 1) (do_call c now self)
  end.

(** [a] may stand before [b]: [b] has no higher priority, and with equal
    priority [a] was added first. *)
Definition before (a b : Item) : Prop :=
  (priority b <= priority a)%Z ∧
  (priority a = priority b → (added_at a < added_at b)%Z).

(** Two items of the same rank: same priority, added at the same time. *)
Definition same_rank (a b : Item) : Prop :=
  priority a = priority b ∧ added_at a = added_at b.

(** The dict of [get_queue_status]. *)
Record QueueStatus := mkQueueStatus {
  total_in_queue : nat;
  announced_count : nat;
  pending : Z;
  queue_items : list Item
}.

(** [get_queue_status]: [pending = total - announced]. *)
Definition get_queue_status (self : Queue) : QueueStatus :=
  let total := length (queue self) in
  let told := length (List.filter announced (queue self)) in
  mkQueueStatus total told (Z.of_nat total - Z.of_nat told) (queue self).

(** The item as [mark_announced] leaves it. *)
Definition marked (now : Z) (item : Item) : Item :=
  mkItem (patient_name item) (patient_id item) (priority item) (added_at item)
         true (Some now).

End AnnouncementQueue.

(** * models/report.py *)

Module Report.

(** [counts[key] += 1] on a [defaultdict(int)]. *)
Definition bump (key : string) (counts : gmap string nat) : gmap string nat :=
  <[key := S (default 0%nat (counts !! key))]> counts.

(** A counting loop [for x in l: counts[key(x)] += 1] from the empty
    [defaultdict]. *)
Definition count_by {A} (key : A -> string) (l : list A) : gmap string nat :=
  fold_left (fun counts x => bump (key x) counts) l ∅.

(** The sum of the counts of a breakdown. *)
Definition total (counts : gmap string nat) : nat :=
  map_fold (fun _ n acc => (n + acc)%nat) 0%nat counts.

(** The dict [generate_daily_summary_report] returns when the date
    parses. *)
Record DailySummary := mkDailySummary {
  report_type : string;
  date : string;
  new_patients : nat;
  total_appointments : nat;
  total_consultations : nat;
  appointment_status : gmap string nat;
  consultation_status : gmap string nat;
  doctor_consultations : gmap string nat;
  new_patient_details : list Store.PatientDict;
  appointments : list AppointmentModel.AppointmentDict;
  consultations : list OPD.VisitDict;
  generated_at : string
}.

Section Parsers.

(** [datetime.strptime(text, "%Y-%m-%d").date()] as a day number, or the
    [ValueError]. *)
Variable strptime_day : string -> result Z.

(** [datetime.strptime(text, "%Y-%m-%d %H:%M:%S").date()] as a day number,
    or the [ValueError]. *)
Variable strptime_date : string -> result Z.

(** The body of the two filtering loops: [try] to parse, keep when the day
    is the report's day, [continue] on [ValueError]. *)
Definition dated_on (report_date : Z) (text : string) : bool :=
  match strptime_date text with
  | Ok d => bool_decide (d = report_date)
  | Raise _ => false
  end.

(** [generate_daily_summary_report] on what the data manager returns;
    [inl] is the dict [{"error": ...}]. *)
Definition generate_daily_summary_report (now_text date : string)
    (appointments : list AppointmentModel.Appointment)
    (opd_visits : list OPD.OPDVisit) (patients : list Store.Patient)
    : string + DailySummary :=
  match strptime_day date with
  | Raise _ => inl "Invalid date format. Use YYYY-MM-DD"
  | Ok report_date =>
      let daily_appointments :=
        List.filter (fun appt => str_eqb (AppointmentModel.appointment_date appt) date)
                    appointments in
      let daily_visits :=
        List.filter (fun visit => dated_on report_date (OPD.visit_date visit)) opd_visits in
      let new_patients :=
        List.filter (fun patient => dated_on report_date (Store.registration_date patient))
                    patients in
      inr (mkDailySummary "Daily Summary Report" date
             (length new_patients) (length daily_appointments) (length daily_visits)
             (count_by AppointmentModel.status daily_appointments)
             (count_by OPD.status daily_visits)
             (count_by OPD.doctor_name daily_visits)
             (map Store.to_dict new_patients)
             (map AppointmentModel.to_dict daily_appointments)
             (map OPD.to_dict daily_visits)
             now_text)
  end.

End Parsers.

(** How many elements of [l] have the key [k]. *)
Definition occurrences_of {A} (key : A -> string) (k : string) (l : list A) : nat :=
  length (List.filter (fun x => str_eqb (key x) k) l).

End Report.

(** * Scenarios

    Concrete stores and engines on which the statements below are run. *)

Module Scenario.

(** A clock reading for the two timestamps the scenarios use. *)
Definition sd0 (text : string) : result Z :=
  if str_eqb text "2025-01-06 09:15:00" then Ok 20094%Z
  else if str_eqb text "2025-01-05 17:40:00" then Ok 20093%Z
  else Raise (Exception ("time data '" +:+ text
                         +:+ "' does not match format '%Y-%m-%d %H:%M:%S'")).

Definition today0 : Z := 20094.

Definition patient_of (pid name : string) : Store.Patient :=
  Store.mkPatient pid name 41 "F" "" "" "555-0100" "2025-01-02 08:00:00" [] [] [].

Definition visit_of (vid pid doctor date status : string) : OPD.OPDVisit :=
  OPD.mkOPDVisit vid pid doctor date "cough" "" "" "" "" "" status ∅.

(** One patient with one completed visit of today, and an older visit. *)
Definition dm0 : Store.DataManager :=
  Store.mkDataManager
    [patient_of "P20250102080000" "Asha"]
    [visit_of "V20250105174000" "P20250102080000" "Dr. Brown" "2025-01-05 17:40:00" "Completed";
     visit_of "V20250106091500" "P20250102080000" "Dr. Smith" "2025-01-06 09:15:00" "Completed"].

(** The same store before the patient record was written. *)
Definition dm0_no_patient : Store.DataManager :=
  Store.mkDataManager [] (Store.stored_visits dm0).

(** Two completed visits of today whose joined keys are both ["a_b_c"]. *)
Definition dm_joined : Store.DataManager :=
  Store.mkDataManager
    [patient_of "a_b" "Ann"; patient_of "a" "Bob"]
    [visit_of "c" "a_b" "Dr. Smith" "2025-01-06 09:15:00" "Completed";
     visit_of "b_c" "a" "Dr. Davis" "2025-01-06 09:15:00" "Completed"].

(** The two visits with the joined key ["a_b_c"], the visit of patient
    ["a"] first, while patient ["a"] is not on record yet. *)
Definition dm_joined_missing : Store.DataManager :=
  Store.mkDataManager
    [patient_of "a_b" "Ann"]
    [visit_of "b_c" "a" "Dr. Davis" "2025-01-06 09:15:00" "Completed";
     visit_of "c" "a_b" "Dr. Smith" "2025-01-06 09:15:00" "Completed"].

(** The same store once the record of patient ["a"] is written. *)
Definition dm_joined_found : Store.DataManager :=
  Store.mkDataManager
    [patient_of "a_b" "Ann"; patient_of "a" "Bob"]
    (Store.stored_visits dm_joined_missing).

Definition quiet : Announcement.sink := fun _ => Ok ().
Definition broken : Announcement.sink := fun _ => Raise (Exception "sink down").

(** A running engine with both sinks working. *)
Definition engine0 : Announcement.AnnouncementSystem :=
  Announcement.start_announcement_service (Announcement.new_system quiet (Some quiet)).

(** A running engine without speech. *)
Definition engine_mute : Announcement.AnnouncementSystem :=
  Announcement.start_announcement_service (Announcement.new_system quiet None).

(** A running engine whose speech engine raises. *)
Definition engine_hoarse : Announcement.AnnouncementSystem :=
  Announcement.start_announcement_service (Announcement.new_system quiet (Some broken)).

(** A running engine whose display callback raises. *)
Definition engine_blind : Announcement.AnnouncementSystem :=
  Announcement.start_announcement_service (Announcement.new_system broken (Some quiet)).

End Scenario.

(** * Facts shared by the proofs *)

Lemma str_eqb_true (a b : string) : str_eqb a b = true ↔ a = b.
Proof. unfold str_eqb. apply bool_decide_eq_true. Qed.

Lemma str_eqb_false (a b : string) : str_eqb a b = false ↔ a ≠ b.
Proof. unfold str_eqb. apply bool_decide_eq_false. Qed.

Lemma str_eqb_refl (a : string) : str_eqb a a = true.
Proof. by apply str_eqb_true. Qed.

Lemma str_in_true (a : string) (l : list string) : str_in a l = true ↔ a ∈ l.
Proof. unfold str_in. apply bool_decide_eq_true. Qed.

Lemma str_in_false (a : string) (l : list string) : str_in a l = false ↔ a ∉ l.
Proof. unfold str_in. apply bool_decide_eq_false. Qed.

Lemma elem_of_List_filter {A} (f : A → bool) (l : list A) (x : A) :
  x ∈ List.filter f l ↔ x ∈ l ∧ f x = true.
Proof. rewrite !list_elem_of_In. apply filter_In. Qed.

Lemma List_filter_sublist {A} (f : A → bool) (l : list A) :
  sublist (List.filter f l) l.
Proof.
  induction l as [|x l IH]; simpl.
  - constructor.
  - destruct (f x); by constructor.
Qed.

Lemma List_filter_ext_elem {A} (f g : A → bool) (l : list A) :
  (∀ x, x ∈ l → f x = g x) → List.filter f l = List.filter g l.
Proof.
  induction l as [|x l IH]; intros H; simpl; [done|].
  rewrite (H x) by apply list_elem_of_here.
  rewrite IH; [done|]. intros y Hy. apply H. by apply list_elem_of_further.
Qed.

(** * The slot calculator *)

Section SlotCalculator.
Import AppointmentModel.

Lemma blocksb_spec dname date s a : blocksb dname date s a = true ↔ blocks dname date s a.
Proof.
  unfold blocksb, blocks.
  rewrite !andb_true_iff, orb_true_iff, !str_eqb_true. tauto.
Qed.

Lemma status_in_booking_statuses (st : string) :
  str_in st ["Scheduled"; "Completed"] = true ↔ st = "Scheduled" ∨ st = "Completed".
Proof.
  rewrite str_in_true, !elem_of_cons, elem_of_nil. tauto.
Qed.

Lemma elem_of_collect_booked_slots dname date existing s :
  s ∈ collect_booked_slots dname date existing
  ↔ ∃ a, a ∈ existing ∧ blocks dname date s a.
Proof.
  induction existing as [|a rest IH]; simpl.
  - rewrite elem_of_nil. split; [done|]. intros (a & Ha & _). by apply elem_of_nil in Ha.
  - destruct (str_eqb (doctor_name a) dname && str_eqb (appointment_date a) date
              && str_in (status a) ["Scheduled"; "Completed"]) eqn:E.
    + rewrite !andb_true_iff, !str_eqb_true, status_in_booking_statuses in E.
      destruct E as [[E1 E2] E3].
      rewrite elem_of_cons, IH. split.
      * intros [->|(b & Hb & Hbl)].
        -- exists a. split; [apply list_elem_of_here|]. by unfold blocks.
        -- exists b. split; [by apply list_elem_of_further|done].
      * intros (b & Hb & Hbl). apply elem_of_cons in Hb as [->|Hb].
        -- left. symmetry. apply Hbl.
        -- right. by exists b.
    + rewrite IH. split.
      * intros (b & Hb & Hbl). exists b. split; [by apply list_elem_of_further|done].
      * intros (b & Hb & Hbl). apply elem_of_cons in Hb as [->|Hb]; [|by exists b].
        exfalso. destruct Hbl as (H1 & H2 & H3 & _).
        apply not_true_iff_false in E. apply E.
        rewrite !andb_true_iff, !str_eqb_true, status_in_booking_statuses. done.
Qed.

Lemma str_in_collect_booked_slots dname date existing s :
  str_in s (collect_booked_slots dname date existing)
  = existsb (blocksb dname date s) existing.
Proof.
  apply eq_true_iff_eq.
  rewrite str_in_true, elem_of_collect_booked_slots, existsb_exists.
  split; intros (a & Ha & Hb); exists a.
  - by rewrite <- list_elem_of_In, blocksb_spec.
  - by rewrite list_elem_of_In, <- blocksb_spec.
Qed.

Lemma get_available_slots_in_eq doctors dname date existing :
  get_available_slots_in doctors dname date existing
  = availableSlots doctors dname date existing.
Proof.
  unfold get_available_slots_in, availableSlots.
  destruct (find_doctor_slots doctors dname) as [|s0 tpl] eqn:E; [done|].
  apply List_filter_ext_elem. intros s _.
  by rewrite str_in_collect_booked_slots.
Qed.

Lemma find_doctor_slots_unknown doctors dname :
  (∀ d, d ∈ doctors → name d ≠ dname) → find_doctor_slots doctors dname = [].
Proof.
  induction doctors as [|d rest IH]; intros H; simpl; [done|].
  destruct (str_eqb (name d) dname) eqn:E.
  - apply str_eqb_true in E. exfalso. by apply (H d); [apply list_elem_of_here|].
  - apply IH. intros d' Hd'. apply H. by apply list_elem_of_further.
Qed.

Lemma find_doctor_slots_default d :
  d ∈ DEFAULT_DOCTORS → find_doctor_slots DEFAULT_DOCTORS (name d) = slots d.
Proof.
  unfold DEFAULT_DOCTORS. rewrite !elem_of_cons, elem_of_nil.
  intros [->|[->|[->|[->|[->|[]]]]]]; reflexivity.
Qed.

(** C2.  [get_available_slots] returns the doctor's slot template (the
    [slots] of the profile with that name) filtered, in template order, to
    the slots that no appointment of that doctor on that date with status
    Scheduled or Completed occupies: it is the specification's
    [availableSlots], a subsequence of the template, holds exactly the
    unblocked template slots, is unchanged by an appointment with any other
    status (Cancelled, No-Show), and is empty for a name that no profile
    has. *)
Theorem get_available_slots_correct (dname date : string) (existing : list Appointment) :
  let template := find_doctor_slots DEFAULT_DOCTORS dname in
  let available := get_available_slots dname date existing in
  (∀ d, d ∈ DEFAULT_DOCTORS → name d = dname → template = slots d) ∧
  available = availableSlots DEFAULT_DOCTORS dname date existing ∧
  sublist available template ∧
  (∀ s, s ∈ available ↔
        s ∈ template ∧ ∀ a, a ∈ existing → ¬ blocks dname date s a) ∧
  (∀ a, status a ≠ "Scheduled" → status a ≠ "Completed" →
        get_available_slots dname date (a :: existing) = available) ∧
  ((∀ d, d ∈ DEFAULT_DOCTORS → name d ≠ dname) → available = []).
Proof.
  intros template available. subst template available.
  unfold get_available_slots. rewrite !get_available_slots_in_eq.
  split; [|split; [|split; [|split; [|split]]]].
  - intros d Hd <-. by apply find_doctor_slots_default.
  - done.
  - apply List_filter_sublist.
  - intros s. unfold availableSlots. rewrite elem_of_List_filter.
    rewrite negb_true_iff, <- not_true_iff_false, existsb_exists.
    split; intros [Hs Hn]; (split; [done|]).
    + intros a Ha Hb. apply Hn. exists a.
      by rewrite <- list_elem_of_In, blocksb_spec.
    + intros (a & Ha & Hb). apply (Hn a); [by apply list_elem_of_In|].
      by apply blocksb_spec.
  - intros a H1 H2. rewrite get_available_slots_in_eq. unfold availableSlots.
    apply List_filter_ext_elem. intros s _. simpl.
    replace (blocksb dname date s a) with false; [done|].
    symmetry. apply not_true_iff_false. rewrite blocksb_spec.
    intros (_ & _ & [?|?] & _); done.
  - intros H. unfold availableSlots.
    by rewrite find_doctor_slots_unknown.
Qed.

(** The specification's own example, on a three-slot template. *)
Example slot_example_scheduled :
  get_available_slots_in [mkDoctor "D" "Dep" ["09:00"; "10:00"; "11:00"]] "D" "2025-01-06"
    [mkAppointment "A1" "P1" "D" "Dep" "2025-01-06" "10:00" "Scheduled" "" ""]
  = ["09:00"; "11:00"].
Proof. reflexivity. Qed.

Example slot_example_cancelled :
  get_available_slots_in [mkDoctor "D" "Dep" ["09:00"; "10:00"; "11:00"]] "D" "2025-01-06"
    [mkAppointment "A1" "P1" "D" "Dep" "2025-01-06" "10:00" "Cancelled" "" ""]
  = ["09:00"; "10:00"; "11:00"].
Proof. reflexivity. Qed.

Example slot_example_default_table :
  get_available_slots "Dr. Brown" "2025-01-06"
    [mkAppointment "A1" "P1" "Dr. Brown" "Orthopedics" "2025-01-06" "14:00" "Completed" "" "";
     mkAppointment "A2" "P2" "Dr. Brown" "Orthopedics" "2025-01-06" "10:00" "No-Show" "" "";
     mkAppointment "A3" "P3" "Dr. Smith" "General Medicine" "2025-01-06" "11:00" "Scheduled" "" "";
     mkAppointment "A4" "P4" "Dr. Brown" "Orthopedics" "2025-01-07" "16:00" "Scheduled" "" ""]
  = ["10:00"; "11:00"; "15:00"; "16:00"]
  ∧ get_available_slots "Dr. Who" "2025-01-06" [] = [].
Proof. split; reflexivity. Qed.

End SlotCalculator.

(** * The OPD visit and the OPD queue *)

Section OPDFacts.
Import OPD.

(** C10.  On a visit with a non-empty [visit_date], [mark_completed] gives
    the same visit with [status] set to ["Completed"] and every other field
    ([visit_id], [patient_id], [doctor_name], [visit_date], [symptoms],
    [diagnosis], [prescription], [lab_tests], [follow_up_date], [notes],
    [vital_signs]) as it was; on a visit with an empty [visit_date] it also
    sets [visit_date], to the current time, and nothing else. *)
Theorem mark_completed_frame (now_text : string) (self : OPDVisit) :
  (visit_date self ≠ "" →
     mark_completed now_text self = completed_copy self) ∧
  (visit_date self = "" →
     mark_completed now_text self =
       mkOPDVisit (visit_id self) (patient_id self) (doctor_name self) now_text
         (symptoms self) (diagnosis self) (prescription self) (lab_tests self)
         (follow_up_date self) (notes self) "Completed" (vital_signs self)).
Proof.
  unfold mark_completed, completed_copy. simpl. split; intros H.
  - apply str_eqb_false in H. by rewrite H.
  - rewrite H. by rewrite str_eqb_refl.
Qed.

Lemma mark_completed_frame_witness :
  mark_completed "2025-01-06 10:00:00"
    (mkOPDVisit "V1" "P1" "Dr. Smith" "2025-01-06 09:00:00" "cough" "" "" "" "" ""
       "In Progress" ∅)
  = mkOPDVisit "V1" "P1" "Dr. Smith" "2025-01-06 09:00:00" "cough" "" "" "" "" ""
       "Completed" ∅.
Proof.
  apply (proj1 (mark_completed_frame "2025-01-06 10:00:00"
    (mkOPDVisit "V1" "P1" "Dr. Smith" "2025-01-06 09:00:00" "cough" "" "" "" "" ""
       "In Progress" ∅))).
  simpl. discriminate.
Defined.

Lemma flaggable_test patient_name c :
  str_eqb (name c) patient_name && negb (announced c) = true ↔ flaggable patient_name c.
Proof.
  unfold flaggable. rewrite andb_true_iff, str_eqb_true, negb_true_iff. done.
Qed.

Lemma mark_first_announced_split patient_name (l : list Completion) :
  (Forall (fun c => ¬ flaggable patient_name c) l
   ∧ mark_first_announced patient_name l = l)
  ∨ (∃ before c after,
       l = before ++ c :: after
       ∧ Forall (fun c' => ¬ flaggable patient_name c') before
       ∧ flaggable patient_name c
       ∧ mark_first_announced patient_name l
         = before ++ mkCompletion (name c) (completed_at c) true :: after).
Proof.
  induction l as [|c l IH]; simpl.
  - left. by split.
  - destruct (str_eqb (name c) patient_name && negb (announced c)) eqn:E.
    + right. exists [], c, l. apply flaggable_test in E.
      split; [done|]. split; [constructor|]. by split.
    + assert (¬ flaggable patient_name c) as Hc.
      { rewrite <- flaggable_test. by rewrite E. }
      destruct IH as [[Hall Heq]|(before & c' & after & -> & Hall & Hfl & Heq)].
      * left. split; [by constructor|]. by rewrite Heq.
      * right. exists (c :: before), c', after. rewrite Heq.
        split; [done|]. split; [by constructor|]. by split.
Qed.

(** C7.  [mark_announced] touches nothing but the list of completions, and
    there either no record has the given name with [announced] false and
    the list stays as it is, or the list is [before ++ c :: after] with [c]
    the first such record, and the result is the same list with [c]'s
    [announced] set to true: name and time of [c], all of [before] and all
    of [after] (later records of the same name among them) are unchanged. *)
Theorem mark_announced_first_match (patient_name : string) (self : OPDQueue) :
  queue (mark_announced patient_name self) = queue self ∧
  ((Forall (fun c => ¬ flaggable patient_name c) (completed_today self)
    ∧ mark_announced patient_name self = self)
   ∨ (∃ before c after,
        completed_today self = before ++ c :: after
        ∧ Forall (fun c' => ¬ flaggable patient_name c') before
        ∧ flaggable patient_name c
        ∧ completed_today (mark_announced patient_name self)
          = before ++ mkCompletion (name c) (completed_at c) true :: after)).
Proof.
  split; [done|].
  destruct (mark_first_announced_split patient_name (completed_today self))
    as [[Hall Heq]|(before & c & after & Hl & Hall & Hfl & Heq)].
  - left. split; [done|]. unfold mark_announced. rewrite Heq. by destruct self.
  - right. exists before, c, after.
    split; [exact Hl|]. split; [exact Hall|]. split; [exact Hfl|]. exact Heq.
Qed.

Example mark_announced_duplicate_names :
  completed_today (mark_announced "Ann"
    (mkOPDQueue [] [mkCompletion "Ann" "09:00:00" true; mkCompletion "Bob" "09:10:00" false;
                    mkCompletion "Ann" "09:20:00" false; mkCompletion "Ann" "09:30:00" false]))
  = [mkCompletion "Ann" "09:00:00" true; mkCompletion "Bob" "09:10:00" false;
     mkCompletion "Ann" "09:20:00" true; mkCompletion "Ann" "09:30:00" false].
Proof. reflexivity. Qed.

End OPDFacts.

Section OPDQueueFacts.
Import OPD.

Lemma list_index_None p l : list_index p l = None ↔ p ∉ l.
Proof.
  induction l as [|y l IH]; simpl.
  - split; [intros _; apply not_elem_of_nil|done].
  - rewrite not_elem_of_cons. destruct (str_eqb y p) eqn:E.
    + apply str_eqb_true in E. split; [done|]. intros [H _]. by subst.
    + apply str_eqb_false in E. rewrite fmap_None, IH. split; [|tauto].
      intros H. split; [congruence|done].
Qed.

Lemma list_index_is_Some p l : p ∈ l → is_Some (list_index p l).
Proof.
  intros H. destruct (list_index p l) eqn:E; [by eexists|].
  by apply list_index_None in E.
Qed.

Lemma list_index_app_l p l l' : p ∈ l → list_index p (l ++ l') = list_index p l.
Proof.
  induction l as [|y l IH]; simpl; intros H.
  - by apply elem_of_nil in H.
  - destruct (str_eqb y p) eqn:E; [done|].
    apply str_eqb_false in E. apply elem_of_cons in H as [->|H]; [done|].
    by rewrite IH.
Qed.

Lemma list_remove_subseteq r l x : x ∈ list_remove r l → x ∈ l.
Proof.
  induction l as [|y l IH]; simpl; [done|].
  destruct (str_eqb y r).
  - apply list_elem_of_further.
  - rewrite !elem_of_cons. intros [->|H]; [by left|right; by apply IH].
Qed.

Lemma list_remove_NoDup r l : NoDup l → NoDup (list_remove r l).
Proof.
  induction 1 as [|y l Hy Hl IH]; simpl; [constructor|].
  destruct (str_eqb y r); [done|].
  constructor; [|done]. intros H. apply Hy. by apply list_remove_subseteq in H.
Qed.

Lemma list_remove_self_gone p l : NoDup l → p ∉ list_remove p l.
Proof.
  induction 1 as [|y l Hy Hl IH]; simpl; [apply not_elem_of_nil|].
  destruct (str_eqb y p) eqn:E.
  - apply str_eqb_true in E. by subst.
  - apply str_eqb_false in E. rewrite not_elem_of_cons. split; [congruence|done].
Qed.

Lemma list_index_remove_before r p l i j :
  list_index r l = Some i → list_index p l = Some j → (i < j)%nat →
  list_index p (list_remove r l) = Some (j - 1)%nat.
Proof.
  revert i j. induction l as [|y l IH]; intros i j; simpl; [done|].
  destruct (str_eqb y r) eqn:Er, (str_eqb y p) eqn:Ep.
  - intros [= <-] [= <-]. lia.
  - intros [= <-]. destruct (list_index p l) as [j'|]; simpl; [|done].
    intros [= <-] _. f_equal. lia.
  - intros _ [= <-]. lia.
  - destruct (list_index r l) as [i'|]; simpl; [|done].
    destruct (list_index p l) as [j'|] eqn:Ej; simpl; [|done].
    intros [= <-] [= <-] Hlt. rewrite Ep.
    rewrite (IH i' j' eq_refl eq_refl) by lia. simpl. f_equal. lia.
Qed.

Lemma list_index_remove_not_before r p l j :
  r ≠ p → list_index p l = Some j →
  (∀ i, list_index r l = Some i → (j < i)%nat) →
  list_index p (list_remove r l) = Some j.
Proof.
  intros Hne. revert j. induction l as [|y l IH]; intros j; simpl; [done|].
  destruct (str_eqb y r) eqn:Er, (str_eqb y p) eqn:Ep.
  - apply str_eqb_true in Er, Ep. congruence.
  - intros _ H. specialize (H 0%nat eq_refl). lia.
  - intros [= <-] _. simpl. by rewrite Ep.
  - destruct (list_index p l) as [j'|] eqn:Ej; simpl; [|done].
    intros [= <-] H. rewrite Ep.
    rewrite (IH j' eq_refl); [done|].
    intros i Hi. rewrite Hi in H. specialize (H (S i) eq_refl). lia.
Qed.

Lemma occurrences_absent p l : p ∉ l → occurrences p l = 0%nat.
Proof.
  unfold occurrences. induction l as [|y l IH]; simpl; [done|].
  rewrite not_elem_of_cons. intros [H1 H2].
  assert (str_eqb y p = false) as -> by (apply str_eqb_false; congruence).
  by apply IH.
Qed.

Lemma occurrences_NoDup p l : NoDup l → p ∈ l → occurrences p l = 1%nat.
Proof.
  induction 1 as [|y l Hy Hl IH]; intros Hp.
  - by apply elem_of_nil in Hp.
  - unfold occurrences in *. simpl. destruct (str_eqb y p) eqn:E.
    + apply str_eqb_true in E. subst. simpl. f_equal.
      by apply (occurrences_absent p l).
    + apply str_eqb_false in E. apply elem_of_cons in Hp as [->|Hp]; [done|].
      by apply IH.
Qed.

(** The waiting list never holds an id twice. *)
Lemma do_call_NoDup c q : NoDup (queue q) → NoDup (queue (do_call c q)).
Proof.
  intros H. destruct c; simpl; try done.
  - unfold add_patient. destruct (str_in p (queue q)) eqn:E; simpl; [done|].
    apply str_in_false in E. apply NoDup_app. split; [done|].
    split; [|apply NoDup_singleton].
    intros x Hx Hx'. apply list_elem_of_singleton in Hx'. by subst.
  - unfold remove_patient. destruct (str_in p (queue q)); simpl; [|done].
    by apply list_remove_NoDup.
  - constructor.
Qed.

Lemma do_calls_NoDup history q :
  NoDup (queue q) → NoDup (queue (do_calls history q)).
Proof.
  unfold do_calls. revert q. induction history as [|c cs IH]; intros q H; simpl; [done|].
  apply IH. by apply do_call_NoDup.
Qed.

Lemma add_patient_elem p q : p ∈ queue (add_patient p q).
Proof.
  unfold add_patient. destruct (str_in p (queue q)) eqn:E; simpl.
  - by apply str_in_true.
  - apply elem_of_app. right. apply list_elem_of_here.
Qed.

Lemma add_patient_present p q : p ∈ queue q → add_patient p q = q.
Proof.
  intros H. unfold add_patient. apply str_in_true in H. by rewrite H.
Qed.

End OPDQueueFacts.

Section OPDQueueClaims.
Import OPD.

Lemma position_of_index p q i :
  list_index p (queue q) = Some i → get_queue_position p q = (Z.of_nat i + 1)%Z.
Proof. unfold get_queue_position. by intros ->. Qed.

Lemma position_absent p q : p ∉ queue q → get_queue_position p q = (-1)%Z.
Proof.
  intros H. apply list_index_None in H. unfold get_queue_position. by rewrite H.
Qed.

Lemma position_positive_index r q :
  (0 < get_queue_position r q)%Z →
  ∃ i, list_index r (queue q) = Some i ∧ get_queue_position r q = (Z.of_nat i + 1)%Z.
Proof.
  unfold get_queue_position. destruct (list_index r (queue q)) as [i|]; [|lia].
  intros _. by exists i.
Qed.

(** C6, in the form the code satisfies.  After any history of calls on a new queue, two
    [add_patient p] leave the same queue as one, with [p] in the waiting
    list exactly once at a position of at least 1.  From there
    [get_queue_position p] is unchanged by a further [add_patient] of any
    id (patients are only appended, never put ahead of [p]), by
    [remove_patient] of an id that is absent (then the whole queue is
    unchanged) or stands behind [p]; it drops by one when a patient ahead
    of [p] is removed, and becomes -1 when [p] itself is removed. *)
Theorem add_patient_idempotent (history : list call) (p : string) :
  let q1 := add_patient p (do_calls history new_queue) in
  let q2 := add_patient p q1 in
  q2 = q1 ∧
  occurrences p (queue q2) = 1%nat ∧
  get_queue_position p q2 = get_queue_position p q1 ∧
  (1 <= get_queue_position p q1)%Z ∧
  (∀ r, get_queue_position p (add_patient r q1) = get_queue_position p q1) ∧
  (∀ r, r ∉ queue q1 → remove_patient r q1 = q1) ∧
  (∀ r, r ≠ p →
        ¬ (0 < get_queue_position r q1 < get_queue_position p q1)%Z →
        get_queue_position p (remove_patient r q1) = get_queue_position p q1) ∧
  (∀ r, (0 < get_queue_position r q1 < get_queue_position p q1)%Z →
        get_queue_position p (remove_patient r q1)
        = (get_queue_position p q1 - 1)%Z) ∧
  get_queue_position p (remove_patient p q1) = (-1)%Z.
Proof.
  intros q1 q2.
  assert (NoDup (queue q1)) as Hnd.
  { replace q1 with (do_calls (history ++ [AddPatient p]) new_queue).
    - apply do_calls_NoDup. constructor.
    - unfold q1, do_calls. by rewrite fold_left_app. }
  assert (p ∈ queue q1) as Hp by apply add_patient_elem.
  destruct (list_index_is_Some p (queue q1) Hp) as [j Hj].
  pose proof (position_of_index p q1 j Hj) as Hpos.
  assert (q2 = q1) as Hq2 by (by apply add_patient_present).
  split; [done|]. rewrite Hq2.
  split; [by apply occurrences_NoDup|].
  split; [done|]. split; [lia|].
  split; [|split; [|split; [|split]]].
  - intros r. unfold add_patient. destruct (str_in r (queue q1)) eqn:E; [done|].
    unfold get_queue_position. simpl. by rewrite list_index_app_l.
  - intros r Hr. unfold remove_patient. apply str_in_false in Hr. by rewrite Hr.
  - intros r Hne Hnot. unfold remove_patient.
    destruct (str_in r (queue q1)) eqn:E; [|done].
    unfold get_queue_position at 1. simpl.
    rewrite (list_index_remove_not_before r p (queue q1) j Hne Hj).
    + by rewrite Hpos.
    + intros i Hi. pose proof (position_of_index r q1 i Hi) as Hr.
      assert (i ≠ j); [|lia].
      intros ->. apply Hne.
      clear -Hi Hj. revert j Hi Hj. induction (queue q1) as [|y l IH]; intros j; simpl; [done|].
      destruct (str_eqb y r) eqn:Er, (str_eqb y p) eqn:Ep.
      * apply str_eqb_true in Er, Ep. congruence.
      * intros [= <-]. by destruct (list_index p l).
      * intros H [= <-]. by destruct (list_index r l).
      * destruct (list_index r l) as [a|], (list_index p l) as [b|]; simpl; try done.
        intros [= <-] [= ->]. by apply (IH a).
  - intros r [Hr1 Hr2].
    destruct (position_positive_index r q1 Hr1) as (i & Hi & Hri).
    unfold remove_patient.
    assert (str_in r (queue q1) = true) as ->.
    { apply str_in_true. destruct (decide (r ∈ queue q1)) as [|Hn]; [done|].
      apply list_index_None in Hn. congruence. }
    unfold get_queue_position at 1. simpl.
    rewrite (list_index_remove_before r p (queue q1) i j Hi Hj) by lia.
    rewrite Hpos. lia.
  - unfold remove_patient. apply str_in_true in Hp as Hp'. rewrite Hp'.
    apply position_absent. simpl. by apply list_remove_self_gone.
Qed.

(** C6, the claim as worded fails: with ["a"] ahead of ["p"], removing ["a"]
    moves ["p"] from position 2 to position 1, although nobody was enqueued
    ahead of ["p"] and ["p"] was not dequeued. *)
Lemma position_changes_when_patient_ahead_leaves :
  ¬ position_stable_until_dequeued.
Proof.
  intros H.
  specialize (H [AddPatient "a"] "p" (RemovePatient "a")).
  assert (RemovePatient "a" ≠ RemovePatient "p") as H1 by discriminate.
  assert (RemovePatient "a" ≠ ClearCompletedToday) as H2 by discriminate.
  specialize (H H1 H2). vm_compute in H. discriminate.
Qed.

Example queue_positions :
  let q := do_calls [AddPatient "a"; AddPatient "p"; AddPatient "p"; AddPatient "b"] new_queue in
  queue q = ["a"; "p"; "b"] ∧ get_queue_position "p" q = 2%Z
  ∧ get_queue_position "p" (remove_patient "b" q) = 2%Z
  ∧ get_queue_position "p" (remove_patient "zz" q) = 2%Z
  ∧ get_queue_position "p" (remove_patient "a" q) = 1%Z
  ∧ get_queue_position "p" (remove_patient "p" q) = (-1)%Z.
Proof. vm_compute. repeat split. Qed.

End OPDQueueClaims.

(** * The announcement engine: configuration and manual announcements *)

Section EngineSettings.
Import Announcement.

(** C5.  For every integer [s], after [set_announcement_interval s] the
    interval reported by [get_announcement_status] is [max 10 s]: 10 when
    [s] is below 10, [s] itself otherwise; the rest of the status is as
    before. *)
Theorem set_announcement_interval_clamps (s : Z) (self : AnnouncementSystem) :
  let status := get_announcement_status (set_announcement_interval s self) in
  status_announcement_interval status = Z.max 10 s ∧
  status_announcement_interval status = (if (s <? 10)%Z then 10%Z else s) ∧
  status_is_running status = status_is_running (get_announcement_status self) ∧
  status_tts_available status = status_tts_available (get_announcement_status self) ∧
  status_announced_today status = status_announced_today (get_announcement_status self) ∧
  status_pending_announcements status
  = status_pending_announcements (get_announcement_status self).
Proof.
  simpl. repeat split. destruct (Z.ltb_spec s 10); lia.
Qed.

Example interval_5_and_45 (self : AnnouncementSystem) :
  status_announcement_interval
    (get_announcement_status (set_announcement_interval 5 self)) = 10%Z
  ∧ status_announcement_interval
      (get_announcement_status (set_announcement_interval 45 self)) = 45%Z
  ∧ status_announcement_interval
      (get_announcement_status (set_announcement_interval (-3) self)) = 10%Z
  ∧ status_announcement_interval
      (get_announcement_status (new_system (fun _ => Ok ()) None)) = 30%Z.
Proof. repeat split. Qed.

Lemma speak_guarded_fails self message e :
  speech_fails self message e →
  speak_guarded self message = [Printed ("TTS error: " +:+ exn_text e)].
Proof.
  intros (Ha & engine & He & Hr). unfold speak_guarded. by rewrite Ha, He, Hr.
Qed.

Lemma speak_guarded_cases self message :
  speak_guarded self message = [] ∨ speak_guarded self message = [Spoken message]
  ∨ ∃ e, speech_fails self message e.
Proof.
  unfold speak_guarded, speech_fails.
  destruct (tts_available self); [|by left].
  destruct (tts_engine self) as [engine|] eqn:E; [|by left].
  destruct (engine message) as [u|e] eqn:Em.
  - right. by left.
  - right. right. exists e. split; [done|]. by exists engine.
Qed.

(** C8, in the form the code satisfies.  A manual announcement whose display callback raises
    ends with that very exception, before anything is shown or spoken: this
    failure reaches the caller.  When the callback returns, the call
    returns normally whatever the speech sink does; a speech failure is
    caught inside the call and leaves only the printed line
    ["TTS error: ..."] behind. *)
Theorem manual_announcement_outcome (self : AnnouncementSystem)
    (patient_name : string) (custom_message : option string) :
  let message := manual_message patient_name custom_message in
  let outcome := add_manual_announcement self patient_name custom_message in
  (∀ e, announcement_callback self message = Raise e → outcome = (Raise e, [])) ∧
  (∀ u, announcement_callback self message = Ok u →
        outcome.1 = Ok () ∧
        outcome.2 = Displayed message :: speak_guarded self message ∧
        ∀ e, speech_fails self message e →
             outcome = (Ok (), [Displayed message; Printed ("TTS error: " +:+ exn_text e)])).
Proof.
  simpl. unfold add_manual_announcement, announce. split.
  - intros e ->. done.
  - intros u ->. simpl. repeat split.
    intros e He. by rewrite (speak_guarded_fails _ _ e He).
Qed.

Lemma manual_announcement_outcome_witness :
  add_manual_announcement
    (new_system (fun _ => Ok ()) (Some (fun _ => Raise (Exception "no audio device"))))
    "Jane" None
  = (Ok (), [Displayed "Patient Jane, please proceed to the front desk.";
             Printed "TTS error: no audio device"]).
Proof.
  apply (proj2 (proj2 (proj2 (manual_announcement_outcome
    (new_system (fun _ => Ok ()) (Some (fun _ => Raise (Exception "no audio device"))))
    "Jane" None) () eq_refl)) (Exception "no audio device")).
  split; [reflexivity|]. eexists. split; reflexivity.
Defined.

(** C8, the claim as worded fails: with a speech engine that raises, the
    call returns normally, exactly as after a delivered announcement. *)
Lemma manual_speech_failure_is_swallowed : ¬ manual_failure_surfaces.
Proof.
  intros H.
  apply (H (new_system (fun _ => Ok ())
                       (Some (fun _ => Raise (Exception "no audio device"))))
           "Jane" None); [|reflexivity].
  right. exists (Exception "no audio device").
  split; [reflexivity|]. eexists. split; reflexivity.
Qed.

(** [test_announcement], next to it, does tell its caller: it returns
    [False] when the speech engine raises. *)
Example test_announcement_reports_speech_failure :
  (test_announcement
     (new_system (fun _ => Ok ()) (Some (fun _ => Raise (Exception "no audio device"))))
     None).1 = Ok false
  ∧ (test_announcement (new_system (fun _ => Ok ()) (Some (fun _ => Ok ()))) None).1 = Ok true.
Proof. split; reflexivity. Qed.

(** The manual path does not look at the set of announced keys: whatever
    the set holds, the call does the same, so the same call twice shows the
    message twice. *)
Lemma manual_announcement_ignores_announced (self : AnnouncementSystem)
    (keys : gset string) (patient_name : string) (custom_message : option string) :
  add_manual_announcement (with_announced keys self) patient_name custom_message
  = add_manual_announcement self patient_name custom_message.
Proof. done. Qed.

Example manual_bypass :
  let self := with_announced {["P1_V1"]} Scenario.engine_mute in
  (add_manual_announcement self "Jane" None).2
  ++ (add_manual_announcement self "Jane" None).2
  = [Displayed "Patient Jane, please proceed to the front desk.";
     Displayed "Patient Jane, please proceed to the front desk."].
Proof. reflexivity. Qed.

End EngineSettings.

(** * The announcement queue *)

Section QueueOrder.
Import AnnouncementQueue.

Lemma StronglySorted_lookup {A} (R : A → A → Prop) (l : list A) i j a b :
  StronglySorted R l → l !! i = Some a → l !! j = Some b → (i < j)%nat → R a b.
Proof.
  intros Hs. revert i j. induction Hs as [|x l Hs IH Hall]; intros i j Hi Hj Hlt.
  - by rewrite lookup_nil in Hi.
  - destruct j as [|j]; [lia|]. destruct i as [|i]; simpl in *.
    + injection Hi as <-. rewrite Forall_forall in Hall. apply Hall.
      by eapply list_elem_of_lookup_2.
    + apply (IH i j); [done|done|lia].
Qed.

Lemma elem_of_insert_by_priority item l x :
  x ∈ insert_by_priority item l ↔ x = item ∨ x ∈ l.
Proof.
  induction l as [|y l IH]; simpl.
  - rewrite list_elem_of_singleton, elem_of_nil. tauto.
  - destruct (priority item >? priority y)%Z.
    + by rewrite elem_of_cons.
    + rewrite !elem_of_cons, IH. tauto.
Qed.

(** Where [add_to_queue] puts the item: behind every item of the same or a
    higher priority, ahead of every item of a lower one. *)
Lemma insert_by_priority_place item l :
  StronglySorted before l →
  ∃ ahead behind,
    l = ahead ++ behind ∧ insert_by_priority item l = ahead ++ item :: behind
    ∧ Forall (fun x => (priority item <= priority x)%Z) ahead
    ∧ Forall (fun x => (priority x < priority item)%Z) behind.
Proof.
  induction 1 as [|y l Hs IH Hall]; simpl.
  - exists [], []. repeat split; constructor.
  - destruct (Z.gtb_spec (priority item) (priority y)) as [Hgt|Hle].
    + exists [], (y :: l). split; [done|]. split; [done|]. split; [constructor|].
      constructor; [lia|]. eapply Forall_impl; [exact Hall|].
      intros x [Hx _]. simpl in Hx. lia.
    + destruct IH as (ahead & behind & -> & Heq & Ha & Hb).
      exists (y :: ahead), behind. rewrite Heq.
      split; [done|]. split; [done|]. split; [by constructor|done].
Qed.

Lemma insert_by_priority_sorted item l :
  StronglySorted before l →
  Forall (fun x => (added_at x < added_at item)%Z) l →
  StronglySorted before (insert_by_priority item l).
Proof.
  induction 1 as [|y l Hs IH Hall]; intros Hold; simpl.
  - repeat constructor.
  - apply Forall_cons in Hold as [Hy Hold].
    destruct (Z.gtb_spec (priority item) (priority y)) as [Hgt|Hle].
    + constructor; [by constructor|].
      constructor; [split; lia|].
      eapply Forall_impl; [exact Hall|].
      intros x [Hx _]. simpl in Hx. split; lia.
    + constructor; [by apply IH|].
      apply Forall_forall. intros x Hx.
      apply elem_of_insert_by_priority in Hx as [->|Hx].
      * split; [lia|]. intros _. lia.
      * rewrite Forall_forall in Hall. by apply Hall.
Qed.

Lemma mark_first_Forall (P : Item → Prop) pid now l :
  (∀ x y, same_rank x y → P x → P y) →
  Forall P l → Forall P (mark_first pid now l).
Proof.
  intros HP. induction 1 as [|x l Hx Hl IH]; simpl; [constructor|].
  destruct (str_eqb (patient_id x) pid && negb (announced x)).
  - constructor; [|done]. by apply (HP x).
  - by constructor.
Qed.

Lemma mark_first_sorted pid now l :
  StronglySorted before l → StronglySorted before (mark_first pid now l).
Proof.
  induction 1 as [|x l Hs IH Hall]; simpl; [constructor|].
  destruct (str_eqb (patient_id x) pid && negb (announced x)).
  - by constructor.
  - constructor; [done|]. apply mark_first_Forall; [|done].
    intros a b [Hp Ht] [H1 H2]. split; rewrite <- ?Hp, <- ?Ht; done.
Qed.

Lemma List_filter_Forall {A} (P : A → Prop) (f : A → bool) (l : list A) :
  Forall P l → Forall P (List.filter f l).
Proof.
  induction 1 as [|x l Hx Hl IH]; simpl; [constructor|].
  destruct (f x); [by constructor|done].
Qed.

Lemma List_filter_sorted (f : Item → bool) l :
  StronglySorted before l → StronglySorted before (List.filter f l).
Proof.
  induction 1 as [|x l Hs IH Hall]; simpl; [constructor|].
  destruct (f x); [|done]. constructor; [done|]. by apply List_filter_Forall.
Qed.

(** What every history keeps: the order, and that every item was added
    before the clock's present reading. *)
Lemma do_call_keeps_order c now q :
  StronglySorted before (queue q) →
  Forall (fun x => (added_at x < now)%Z) (queue q) →
  StronglySorted before (queue (do_call c now q))
  ∧ Forall (fun x => (added_at x < now + 1)%Z) (queue (do_call c now q)).
Proof.
  intros Hs Hold. destruct c as [n p prio|p|p]; simpl.
  - split; [by apply insert_by_priority_sorted|].
    apply Forall_forall. intros x Hx.
    apply elem_of_insert_by_priority in Hx as [->|Hx]; simpl; [lia|].
    rewrite Forall_forall in Hold. apply Hold in Hx. lia.
  - split; [by apply mark_first_sorted|].
    apply mark_first_Forall.
    + intros a b [_ Ht]. rewrite Ht. done.
    + eapply Forall_impl; [exact Hold|]. intros x Hx. simpl in Hx. lia.
  - split; [by apply List_filter_sorted|].
    apply List_filter_Forall. eapply Forall_impl; [exact Hold|].
    intros x Hx. simpl in Hx. lia.
Qed.

Lemma do_calls_keep_order history now q :
  StronglySorted before (queue q) →
  Forall (fun x => (added_at x < now)%Z) (queue q) →
  StronglySorted before (queue (do_calls history now q)).
Proof.
  revert now q. induction history as [|c cs IH]; intros now q Hs Hold; simpl; [done|].
  destruct (do_call_keeps_order c now q Hs Hold) as [Hs' Hold'].
  by apply IH.
Qed.

Lemma first_pending_split (l : list Item) :
  (first_pending l = None ∧ Forall (fun x => announced x = true) l)
  ∨ (∃ told item rest,
       l = told ++ item :: rest
       ∧ Forall (fun x => announced x = true) told
       ∧ announced item = false
       ∧ first_pending l = Some item).
Proof.
  induction l as [|x l IH]; simpl.
  - left. split; [done|constructor].
  - destruct (announced x) eqn:E; simpl.
    + destruct IH as [[Hn Hall]|(told & item & rest & -> & Hall & Hi & Hf)].
      * left. split; [done|]. by constructor.
      * right. exists (x :: told), item, rest.
        split; [done|]. split; [by constructor|]. by split.
    + right. exists [], x, l. split; [done|]. split; [constructor|]. by split.
Qed.

(** C9.  After any history of [add_to_queue], [mark_announced] and
    [remove_from_queue] calls on a new queue, the queue is ordered: of two
    items, the one with the higher priority stands first, and with equal
    priorities the one added first stands first; a further [add_to_queue]
    puts its item behind all items of the same or a higher priority and
    ahead of all items of a lower one.  [get_next_announcement] returns the
    first item with [announced] false, and [None] exactly when every item
    (if any) is announced. *)
Theorem announcement_queue_order (history : list call) (now : Z) :
  let q := do_calls history now new_queue in
  StronglySorted before (queue q) ∧
  (∀ i j a b, queue q !! i = Some a → queue q !! j = Some b →
     (priority b < priority a)%Z → (i < j)%nat) ∧
  (∀ i j a b, queue q !! i = Some a → queue q !! j = Some b →
     priority a = priority b → (added_at a < added_at b)%Z → (i < j)%nat) ∧
  (∀ name pid prio t, ∃ ahead behind,
     queue q = ahead ++ behind
     ∧ queue (add_to_queue name pid prio t q)
       = ahead ++ mkItem name pid prio t false None :: behind
     ∧ Forall (fun x => (prio <= priority x)%Z) ahead
     ∧ Forall (fun x => (priority x < prio)%Z) behind) ∧
  ((get_next_announcement q = None
    ∧ Forall (fun x => announced x = true) (queue q))
   ∨ (∃ told item rest,
        queue q = told ++ item :: rest
        ∧ Forall (fun x => announced x = true) told
        ∧ announced item = false
        ∧ get_next_announcement q = Some item)).
Proof.
  intros q.
  assert (StronglySorted before (queue q)) as Hs.
  { apply do_calls_keep_order; constructor. }
  split; [done|]. split; [|split; [|split]].
  - intros i j a b Hi Hj Hlt.
    destruct (Nat.lt_trichotomy i j) as [H|[->|H]]; [done| |].
    + rewrite Hi in Hj. injection Hj as ->. lia.
    + destruct (StronglySorted_lookup before (queue q) j i b a Hs Hj Hi H) as [Hp _]. lia.
  - intros i j a b Hi Hj Heq Hlt.
    destruct (Nat.lt_trichotomy i j) as [H|[->|H]]; [done| |].
    + rewrite Hi in Hj. injection Hj as ->. lia.
    + destruct (StronglySorted_lookup before (queue q) j i b a Hs Hj Hi H) as [_ Ht].
      specialize (Ht (eq_sym Heq)). lia.
  - intros name pid prio t.
    apply (insert_by_priority_place (mkItem name pid prio t false None) (queue q) Hs).
  - apply first_pending_split.
Qed.

Example announcement_queue_run :
  let q := do_calls [AddToQueue "Ann" "P1" 0; AddToQueue "Bob" "P2" 5;
                     AddToQueue "Cy" "P3" 0; AddToQueue "Di" "P4" 5;
                     MarkAnnounced "P2"; RemoveFromQueue "P1"] 100 new_queue in
  map patient_name (queue q) = ["Bob"; "Di"; "Cy"]
  ∧ (patient_name <$> get_next_announcement q) = Some "Di".
Proof. split; reflexivity. Qed.

End QueueOrder.

(** * The poll cycle *)

Section PollCycle.
Import Announcement.

Implicit Types (dm : Store.DataManager) (self : AnnouncementSystem)
  (visit u : OPD.OPDVisit) (log : list entry) (pid vid : string).

Lemma has_pair_key pid vid u : has_pair pid vid u → announcement_key u = pair_key pid vid.
Proof. intros [<- <-]. done. Qed.

Lemma same_but_announced_refl self : same_but_announced self self.
Proof. split; [by destruct self|done]. Qed.

Lemma same_but_announced_trans self1 self2 self3 :
  same_but_announced self1 self2 → same_but_announced self2 self3 →
  same_but_announced self1 self3.
Proof.
  intros [E1 S1] [E2 S2]. split; [|set_solver].
  rewrite E2 at 1. rewrite E1 at 1. done.
Qed.

Lemma same_but_announced_callback self self' :
  same_but_announced self self' → announcement_callback self' = announcement_callback self.
Proof. intros [-> _]. done. Qed.

Lemma same_but_announced_running self self' :
  same_but_announced self self' → is_running self' = is_running self.
Proof. intros [-> _]. done. Qed.

Lemma same_but_announced_speech self self' message :
  same_but_announced self self' → speak_guarded self' message = speak_guarded self message.
Proof. intros [-> _]. done. Qed.

(** ** One turn of the [for] loop, case by case *)

Lemma announce_visits_announced dm visit rest self :
  announcement_key visit ∈ announced_patients self →
  announce_visits dm (visit :: rest) self = announce_visits dm rest self.
Proof.
  intros H. simpl. rewrite bool_decide_eq_false_2; [done|]. by intros Hn.
Qed.

Lemma announce_visits_unresolved dm visit rest self :
  Store.get_patient_by_id dm (OPD.patient_id visit) = None →
  announce_visits dm (visit :: rest) self = announce_visits dm rest self.
Proof.
  intros H. simpl. rewrite H. by destruct (bool_decide _).
Qed.

Lemma announce_visits_raise dm visit rest self patient e :
  announcement_key visit ∉ announced_patients self →
  Store.get_patient_by_id dm (OPD.patient_id visit) = Some patient →
  announcement_callback self
    (completion_message (Store.name patient) (OPD.doctor_name visit)) = Raise e →
  announce_visits dm (visit :: rest) self = (Raise e, self, []).
Proof.
  intros Hk Hp Hc. simpl. rewrite bool_decide_eq_true_2 by done. rewrite Hp.
  unfold _announce_patient_completion, announce. by rewrite Hc.
Qed.

Lemma announce_visits_deliver dm visit rest self patient (r0 : unit) :
  announcement_key visit ∉ announced_patients self →
  Store.get_patient_by_id dm (OPD.patient_id visit) = Some patient →
  let message := completion_message (Store.name patient) (OPD.doctor_name visit) in
  announcement_callback self message = Ok r0 →
  let next :=
    announce_visits dm rest
      (with_announced ({[announcement_key visit]} ∪ announced_patients self) self) in
  announce_visits dm (visit :: rest) self
  = (next.1.1, next.1.2,
     in_turn_of visit (Displayed message :: speak_guarded self message) ++ next.2).
Proof.
  intros Hk Hp message Hc next. simpl. rewrite bool_decide_eq_true_2 by done.
  rewrite Hp. unfold _announce_patient_completion, announce. fold message. rewrite Hc.
  subst next. by destruct (announce_visits dm rest _) as [[r s] log].
Qed.

(** The three ways a turn can go. *)
Lemma turn_cases dm visit self :
  (announcement_key visit ∈ announced_patients self
   ∨ Store.get_patient_by_id dm (OPD.patient_id visit) = None)
  ∨ (∃ patient,
       (announcement_key visit ∉ announced_patients self)
       ∧ Store.get_patient_by_id dm (OPD.patient_id visit) = Some patient
       ∧ ((∃ e, announcement_callback self
                  (completion_message (Store.name patient) (OPD.doctor_name visit))
                = Raise e)
          ∨ (∃ r0 : unit, announcement_callback self
                  (completion_message (Store.name patient) (OPD.doctor_name visit))
                = Ok r0))).
Proof.
  destruct (decide (announcement_key visit ∈ announced_patients self)) as [Hk|Hk].
  { left. by left. }
  destruct (Store.get_patient_by_id dm (OPD.patient_id visit)) as [patient|] eqn:Hp.
  2:{ left. by right. }
  right. exists patient. split; [done|]. split; [done|].
  destruct (announcement_callback self _) as [r0|e]; [right|left]; by eexists.
Qed.

Lemma announce_visits_skip dm visit rest self :
  announcement_key visit ∈ announced_patients self
  ∨ Store.get_patient_by_id dm (OPD.patient_id visit) = None →
  announce_visits dm (visit :: rest) self = announce_visits dm rest self.
Proof.
  intros [H|H]; [by apply announce_visits_announced|by apply announce_visits_unresolved].
Qed.

(** A cycle changes nothing of the engine but the announced set, and that
    only grows. *)
Lemma announce_visits_frame dm visits self :
  same_but_announced self (announce_visits dm visits self).1.2.
Proof.
  revert self. induction visits as [|visit rest IH]; intros self.
  - apply same_but_announced_refl.
  - destruct (turn_cases dm visit self)
      as [Hs|(p & Hk & Hp & [[e Hc]|[r0 Hc]])].
    + rewrite announce_visits_skip by done. apply IH.
    + rewrite (announce_visits_raise dm visit rest self p e) by done.
      apply same_but_announced_refl.
    + rewrite (announce_visits_deliver dm visit rest self p r0) by done. simpl.
      eapply same_but_announced_trans; [|apply IH].
      split; [done|]. simpl. set_solver.
Qed.

(** The loop over [ahead ++ rest] is the loop over [ahead], then, unless
    that raised, the loop over [rest]. *)
Lemma announce_visits_app dm ahead rest self :
  announce_visits dm (ahead ++ rest) self
  = match announce_visits dm ahead self with
    | (Ok _, self', log) =>
        let next := announce_visits dm rest self' in
        (next.1.1, next.1.2, log ++ next.2)
    | (Raise e, self', log) => (Raise e, self', log)
    end.
Proof.
  revert self. induction ahead as [|visit ahead IH]; intros self.
  - simpl. by destruct (announce_visits dm rest self) as [[r s] log].
  - rewrite <- app_comm_cons.
    destruct (turn_cases dm visit self)
      as [Hs|(p & Hk & Hp & [[e Hc]|[r0 Hc]])].
    + rewrite !announce_visits_skip by done. apply IH.
    + by rewrite !(announce_visits_raise dm visit _ self p e).
    + rewrite !(announce_visits_deliver dm visit _ self p r0) by done.
      rewrite IH.
      destruct (announce_visits dm ahead (with_announced _ self))
        as [[[r1|e1] s1] log1]; simpl; [|done].
      by rewrite app_assoc.
Qed.

(** ** What a log tells *)

Lemma deliveries_for_app pid vid log log' :
  deliveries_for pid vid (log ++ log')
  = (deliveries_for pid vid log + deliveries_for pid vid log')%nat.
Proof. unfold deliveries_for. by rewrite List.filter_app, length_app. Qed.

Lemma silent_about_app pid vid log log' :
  silent_about pid vid (log ++ log') ↔ silent_about pid vid log ∧ silent_about pid vid log'.
Proof. apply Forall_app. Qed.

Lemma is_delivery_for_origin pid vid en :
  is_delivery_for pid vid en = true → origin en = Some (pid, vid).
Proof.
  unfold is_delivery_for. destruct (origin en) as [[p v]|]; [|done].
  destruct (what en); try done.
  rewrite andb_true_iff, !str_eqb_true. by intros [-> ->].
Qed.

Lemma silent_no_delivery pid vid log :
  silent_about pid vid log → deliveries_for pid vid log = 0%nat.
Proof.
  unfold deliveries_for. induction 1 as [|en log Hen Hlog IH]; simpl; [done|].
  destruct (is_delivery_for pid vid en) eqn:E; [|done].
  by apply is_delivery_for_origin in E.
Qed.

Lemma in_turn_of_origin visit evs en :
  en ∈ in_turn_of visit evs → origin en = Some (OPD.patient_id visit, OPD.visit_id visit).
Proof.
  unfold in_turn_of. rewrite list_elem_of_fmap. by intros (ev & -> & _).
Qed.

Lemma silent_about_other_turn pid vid visit evs :
  ¬ has_pair pid vid visit → silent_about pid vid (in_turn_of visit evs).
Proof.
  intros Hn. apply Forall_forall. intros en Hen.
  rewrite (in_turn_of_origin visit evs en Hen). intros [= <- <-]. by apply Hn.
Qed.

Lemma deliveries_in_own_turn pid vid visit self message :
  has_pair pid vid visit →
  deliveries_for pid vid
    (in_turn_of visit (Displayed message :: speak_guarded self message)) = 1%nat.
Proof.
  intros [<- <-]. unfold deliveries_for, in_turn_of. simpl.
  unfold is_delivery_for at 1. simpl. rewrite !str_eqb_refl. simpl. f_equal.
  destruct (speak_guarded_cases self message) as [->|[->|[e He]]]; try done.
  by rewrite (speak_guarded_fails self message e He).
Qed.

(** Every entry of a cycle's log stems from the turn of a visit of the
    list whose key was not announced when the cycle began and whose patient
    is on record. *)
Lemma log_origin dm visits self en :
  en ∈ (announce_visits dm visits self).2 →
  ∃ u, u ∈ visits
       ∧ origin en = Some (OPD.patient_id u, OPD.visit_id u)
       ∧ (announcement_key u ∉ announced_patients self)
       ∧ is_Some (Store.get_patient_by_id dm (OPD.patient_id u)).
Proof.
  revert self. induction visits as [|visit rest IH]; intros self.
  - simpl. by rewrite elem_of_nil.
  - destruct (turn_cases dm visit self)
      as [Hs|(p & Hk & Hp & [[e Hc]|[r0 Hc]])].
    + rewrite announce_visits_skip by done. intros Hen.
      destruct (IH self Hen) as (u & Hu & Ho & Hku & Hpu).
      exists u. split; [by apply list_elem_of_further|done].
    + rewrite (announce_visits_raise dm visit rest self p e) by done. simpl.
      by rewrite elem_of_nil.
    + rewrite (announce_visits_deliver dm visit rest self p r0) by done.
      cbn [snd]. rewrite elem_of_app. intros [Hen|Hen].
      * exists visit. split; [apply list_elem_of_here|].
        split; [by apply in_turn_of_origin in Hen|]. split; [done|].
        rewrite Hp. by eexists.
      * destruct (IH _ Hen) as (u & Hu & Ho & Hku & Hpu).
        exists u. split; [by apply list_elem_of_further|].
        split; [done|]. split; [|done].
        simpl in Hku. set_solver.
Qed.

Lemma silent_when_announced dm visits self pid vid :
  pair_key pid vid ∈ announced_patients self →
  silent_about pid vid (announce_visits dm visits self).2.
Proof.
  intros Hk. apply Forall_forall. intros en Hen.
  destruct (log_origin dm visits self en Hen) as (u & _ & Ho & Hku & _).
  rewrite Ho. intros [= <- <-]. by apply Hku.
Qed.

Lemma silent_when_unresolved dm visits self pid vid :
  Store.get_patient_by_id dm pid = None →
  silent_about pid vid (announce_visits dm visits self).2.
Proof.
  intros Hp. apply Forall_forall. intros en Hen.
  destruct (log_origin dm visits self en Hen) as (u & _ & Ho & _ & [p Hpu]).
  rewrite Ho. intros [= H1 H2]. congruence.
Qed.

(** With a display callback that never raises the loop runs to its end. *)
Lemma announce_visits_returns dm visits self :
  (∀ m, announcement_callback self m = Ok ()) →
  (announce_visits dm visits self).1.1 = Ok ().
Proof.
  revert self. induction visits as [|visit rest IH]; intros self Hcb; [done|].
  destruct (turn_cases dm visit self)
    as [Hs|(p & Hk & Hp & [[e Hc]|[r0 Hc]])].
  - rewrite announce_visits_skip by done. by apply IH.
  - rewrite Hcb in Hc. done.
  - rewrite (announce_visits_deliver dm visit rest self p r0) by done.
    cbn [fst]. by apply IH.
Qed.

(** The heart of the dedup: a cycle that meets the visit [(pid, vid)] with
    its key not yet announced shows its message once and announces the
    key. *)
Lemma announce_visits_once dm visits self pid vid :
  (∀ m, announcement_callback self m = Ok ()) →
  pair_key pid vid ∉ announced_patients self →
  key_unambiguous pid vid visits →
  (∃ u, u ∈ visits ∧ has_pair pid vid u) →
  is_Some (Store.get_patient_by_id dm pid) →
  pair_key pid vid ∈ announced_patients (announce_visits dm visits self).1.2
  ∧ deliveries_for pid vid (announce_visits dm visits self).2 = 1%nat.
Proof.
  revert self. induction visits as [|visit rest IH]; intros self Hcb Hk Hun Hex Hres.
  { destruct Hex as (u & Hu & _). by apply elem_of_nil in Hu. }
  destruct (decide (announcement_key visit = pair_key pid vid)) as [Heq|Hne].
  - (* this is the visit, or one with its pair *)
    assert (has_pair pid vid visit) as Hpair.
    { apply Hun; [apply list_elem_of_here|done]. }
    destruct Hres as [p Hp]. destruct Hpair as [Hpid Hvid].
    assert (Store.get_patient_by_id dm (OPD.patient_id visit) = Some p) as Hp'
      by (by rewrite Hpid).
    rewrite (announce_visits_deliver dm visit rest self p ()); [|by rewrite Heq|done|done].
    cbn [fst snd]. split.
    + pose proof (announce_visits_frame dm rest
        (with_announced ({[announcement_key visit]} ∪ announced_patients self) self))
        as [_ Hsub].
      simpl in Hsub. rewrite <- Heq.
      by apply Hsub, elem_of_union_l, elem_of_singleton.
    + rewrite deliveries_for_app, deliveries_in_own_turn by done.
      rewrite silent_no_delivery; [done|].
      apply silent_when_announced. simpl. rewrite <- Heq.
      by apply elem_of_union_l, elem_of_singleton.
  - (* another visit: whatever its turn does, the key stays out *)
    assert (¬ has_pair pid vid visit) as Hnp.
    { intros Hp. by apply has_pair_key in Hp. }
    assert (key_unambiguous pid vid rest) as Hun'.
    { intros u Hu. apply Hun. by apply list_elem_of_further. }
    assert (∃ u, u ∈ rest ∧ has_pair pid vid u) as Hex'.
    { destruct Hex as (u & Hu & Hpu). exists u. split; [|done].
      apply elem_of_cons in Hu as [->|Hu]; [done|done]. }
    destruct (turn_cases dm visit self)
      as [Hs|(p & Hkv & Hp & [[e Hc]|[r0 Hc]])].
    + rewrite announce_visits_skip by done. by apply IH.
    + rewrite Hcb in Hc. done.
    + rewrite (announce_visits_deliver dm visit rest self p r0) by done.
      cbn [fst snd].
      destruct (IH (with_announced ({[announcement_key visit]} ∪ announced_patients self) self))
        as [Hin Hone]; try done.
      { simpl. rewrite not_elem_of_union, not_elem_of_singleton.
        split; [|done]. intros E. apply Hne. by rewrite E. }
      split; [done|].
      rewrite deliveries_for_app, Hone.
      rewrite silent_no_delivery; [done|]. by apply silent_about_other_turn.
Qed.

(** A key is announced after the loop only if it was before, or if the
    list holds a visit with that key whose patient is on record. *)
Lemma announced_origin dm visits self (key : string) :
  key ∈ announced_patients (announce_visits dm visits self).1.2 →
  key ∈ announced_patients self
  ∨ ∃ u, u ∈ visits ∧ announcement_key u = key
         ∧ is_Some (Store.get_patient_by_id dm (OPD.patient_id u)).
Proof.
  revert self. induction visits as [|visit rest IH]; intros self; [by left|].
  destruct (turn_cases dm visit self)
    as [Hs|(p & Hk & Hp & [[e Hc]|[r0 Hc]])].
  - rewrite announce_visits_skip by done. intros H.
    destruct (IH self H) as [?|(u & Hu & Hku & Hpu)]; [by left|].
    right. exists u. split; [by apply list_elem_of_further|done].
  - rewrite (announce_visits_raise dm visit rest self p e) by done. by left.
  - rewrite (announce_visits_deliver dm visit rest self p r0) by done. cbn [fst snd].
    intros H. destruct (IH _ H) as [Hin|(u & Hu & Hku & Hpu)].
    + simpl in Hin. apply elem_of_union in Hin as [Hin|Hin]; [|by left].
      apply elem_of_singleton in Hin. right. exists visit.
      split; [apply list_elem_of_here|]. split; [done|]. rewrite Hp. by eexists.
    + right. exists u. split; [by apply list_elem_of_further|done].
Qed.

(** ** Whole cycles and the loop *)

Lemma cycle_frame sd today dm self :
  same_but_announced self (_check_and_announce_completed_patients sd today dm self).1.2.
Proof.
  unfold _check_and_announce_completed_patients.
  destruct (Store.get_todays_opd_visits sd today dm) as [vs|e].
  - apply announce_visits_frame.
  - apply same_but_announced_refl.
Qed.

Lemma loop_turn_frame sd today dm self :
  same_but_announced self (loop_turn sd today dm self).1.
Proof.
  unfold loop_turn. pose proof (cycle_frame sd today dm self) as H.
  by destruct (_check_and_announce_completed_patients sd today dm self) as [[[r|e] s] log].
Qed.

Lemma announcement_loop_frame sd wakes self :
  same_but_announced self (_announcement_loop sd wakes self).1.
Proof.
  revert self. induction wakes as [|[today dm] later IH]; intros self; simpl.
  - apply same_but_announced_refl.
  - destruct (is_running self); [|apply same_but_announced_refl].
    pose proof (loop_turn_frame sd today dm self) as H1.
    destruct (loop_turn sd today dm self) as [s1 log1].
    pose proof (IH s1) as H2.
    destruct (_announcement_loop sd later s1) as [s2 log2].
    by eapply same_but_announced_trans.
Qed.

Lemma cycle_silent_when_announced sd today dm self pid vid :
  pair_key pid vid ∈ announced_patients self →
  silent_about pid vid (_check_and_announce_completed_patients sd today dm self).2.
Proof.
  intros Hk. unfold _check_and_announce_completed_patients.
  destruct (Store.get_todays_opd_visits sd today dm) as [vs|e].
  - by apply silent_when_announced.
  - constructor.
Qed.

Lemma loop_turn_silent_when_announced sd today dm self pid vid :
  pair_key pid vid ∈ announced_patients self →
  silent_about pid vid (loop_turn sd today dm self).2.
Proof.
  intros Hk. unfold loop_turn.
  pose proof (cycle_silent_when_announced sd today dm self pid vid Hk) as H.
  destruct (_check_and_announce_completed_patients sd today dm self) as [[[r|e] s] log];
    [done|].
  apply silent_about_app. split; [done|]. by repeat constructor.
Qed.

(** Once the key is announced, no later cycle has a turn for the visit,
    whatever the store holds and whatever the sinks do. *)
Lemma announcement_loop_silent_when_announced sd wakes self pid vid :
  pair_key pid vid ∈ announced_patients self →
  silent_about pid vid (_announcement_loop sd wakes self).2.
Proof.
  revert self. induction wakes as [|[today dm] later IH]; intros self Hk; simpl.
  - constructor.
  - destruct (is_running self); [|constructor].
    pose proof (loop_turn_silent_when_announced sd today dm self pid vid Hk) as H1.
    pose proof (loop_turn_frame sd today dm self) as [_ Hsub].
    destruct (loop_turn sd today dm self) as [s1 log1].
    assert (pair_key pid vid ∈ announced_patients s1) as Hk1 by (by apply Hsub).
    pose proof (IH s1 Hk1) as H2.
    destruct (_announcement_loop sd later s1) as [s2 log2].
    apply silent_about_app. by split.
Qed.

Lemma loop_turn_once sd wake self pid vid :
  (∀ m, announcement_callback self m = Ok ()) →
  pair_key pid vid ∉ announced_patients self →
  announceable sd pid vid wake →
  pair_key pid vid ∈ announced_patients (loop_turn sd wake.1 wake.2 self).1
  ∧ deliveries_for pid vid (loop_turn sd wake.1 wake.2 self).2 = 1%nat.
Proof.
  intros Hcb Hk (vs & Hfetch & (u & Hu & Hst & Hpair) & Hun & Hres).
  unfold loop_turn, _check_and_announce_completed_patients. rewrite Hfetch.
  set (completed := List.filter (fun visit => str_eqb (OPD.status visit) "Completed") vs).
  pose proof (announce_visits_returns wake.2 completed self Hcb) as Hret.
  destruct (announce_visits_once wake.2 completed self pid vid) as [Hin Hone]; try done.
  - intros w Hw. apply Hun. by apply elem_of_List_filter in Hw as [Hw _].
  - exists u. split; [|done]. apply elem_of_List_filter. split; [done|].
    by apply str_eqb_true.
  - destruct (announce_visits wake.2 completed self) as [[r s] log].
    simpl in Hret. by rewrite Hret.
Qed.

Lemma announcement_loop_once sd wake later self pid vid :
  is_running self = true →
  (∀ m, announcement_callback self m = Ok ()) →
  pair_key pid vid ∉ announced_patients self →
  announceable sd pid vid wake →
  pair_key pid vid ∈ announced_patients (_announcement_loop sd (wake :: later) self).1
  ∧ deliveries_for pid vid (_announcement_loop sd (wake :: later) self).2 = 1%nat
  ∧ _announcement_loop sd (wake :: later) self
    = ((_announcement_loop sd later (loop_turn sd wake.1 wake.2 self).1).1,
       (loop_turn sd wake.1 wake.2 self).2
       ++ (_announcement_loop sd later (loop_turn sd wake.1 wake.2 self).1).2).
Proof.
  intros Hrun Hcb Hk Hw. destruct wake as [today dm]. simpl. rewrite Hrun.
  destruct (loop_turn_once sd (today, dm) self pid vid Hcb Hk Hw) as [Hin Hone].
  simpl in Hin, Hone.
  destruct (loop_turn sd today dm self) as [s1 log1]. simpl in *.
  pose proof (announcement_loop_frame sd later s1) as [_ Hsub].
  pose proof (announcement_loop_silent_when_announced sd later s1 pid vid Hin) as Hsil.
  destruct (_announcement_loop sd later s1) as [s2 log2]. simpl in *.
  split; [by apply Hsub|]. split; [|done].
  by rewrite deliveries_for_app, Hone, silent_no_delivery.
Qed.

End PollCycle.

(** * The claims about the poll cycle *)

Section PollCycleClaims.
Import Announcement.

(** C1, in the form the code satisfies.  Take a running engine whose display callback never
    raises, and a visit [(pid, vid)] whose key is not announced.  Let the
    loop wake any number of times, at each wake the fetch of today's visits
    succeeding, a completed visit [(pid, vid)] being among them with its
    patient on record, and no other fetched pair having the same joined
    key.  Then the first cycle shows exactly one message in the turn of
    [(pid, vid)], the later cycles have no turn for it, and the whole run
    shows exactly one; after [clear_announced_patients] the set is empty
    and the same holds again: the next cycle shows one message, the ones
    after it none. *)
Theorem poll_cycles_announce_once (sd : string → result Z) (self : AnnouncementSystem)
    (pid vid : string) (wake : Z * Store.DataManager) (later : list (Z * Store.DataManager))
    (wake' : Z * Store.DataManager) (later' : list (Z * Store.DataManager)) :
  is_running self = true →
  (∀ m, announcement_callback self m = Ok ()) →
  pair_key pid vid ∉ announced_patients self →
  announceable sd pid vid wake →
  announceable sd pid vid wake' →
  let first := loop_turn sd wake.1 wake.2 self in
  let run := _announcement_loop sd later first.1 in
  let cleared := (clear_announced_patients run.1).1 in
  let first' := loop_turn sd wake'.1 wake'.2 cleared in
  let run' := _announcement_loop sd later' first'.1 in
  deliveries_for pid vid first.2 = 1%nat ∧
  silent_about pid vid run.2 ∧
  deliveries_for pid vid (_announcement_loop sd (wake :: later) self).2 = 1%nat ∧
  announced_patients cleared = ∅ ∧
  deliveries_for pid vid first'.2 = 1%nat ∧
  silent_about pid vid run'.2 ∧
  deliveries_for pid vid (_announcement_loop sd (wake' :: later') cleared).2 = 1%nat.
Proof.
  intros Hrun Hcb Hk Hw Hw' first run cleared first' run'.
  destruct (loop_turn_once sd wake self pid vid Hcb Hk Hw) as [Hin Hone].
  destruct (announcement_loop_once sd wake later self pid vid Hrun Hcb Hk Hw)
    as (_ & Hall & _).
  pose proof (loop_turn_frame sd wake.1 wake.2 self) as Hf1.
  pose proof (announcement_loop_frame sd later first.1) as Hf2.
  pose proof (same_but_announced_trans _ _ _ Hf1 Hf2) as Hf.
  assert (is_running cleared = true) as Hrun'.
  { subst cleared. simpl. by rewrite (same_but_announced_running self run.1 Hf). }
  assert (∀ m, announcement_callback cleared m = Ok ()) as Hcb'.
  { intros m. subst cleared. simpl.
    by rewrite (same_but_announced_callback self run.1 Hf). }
  assert (pair_key pid vid ∉ announced_patients cleared) as Hk'.
  { subst cleared. simpl. apply not_elem_of_empty. }
  destruct (loop_turn_once sd wake' cleared pid vid Hcb' Hk' Hw') as [Hin' Hone'].
  destruct (announcement_loop_once sd wake' later' cleared pid vid Hrun' Hcb' Hk' Hw')
    as (_ & Hall' & _).
  split; [done|].
  split; [by apply announcement_loop_silent_when_announced|].
  split; [done|]. split; [done|]. split; [done|].
  split; [by apply announcement_loop_silent_when_announced|done].
Qed.


Lemma poll_cycles_announce_once_witness :
  deliveries_for "P20250102080000" "V20250106091500"
    (_announcement_loop Scenario.sd0
       [(Scenario.today0, Scenario.dm0); (Scenario.today0, Scenario.dm0);
        (Scenario.today0, Scenario.dm0)] Scenario.engine0).2 = 1%nat.
Proof.
  assert (announceable Scenario.sd0 "P20250102080000" "V20250106091500"
            (Scenario.today0, Scenario.dm0)) as Hw.
  { eexists. split; [reflexivity|]. split; [|split].
    - eexists. split; [apply list_elem_of_here|]. repeat split.
    - intros u Hu _. apply list_elem_of_singleton in Hu. subst u. split; reflexivity.
    - eexists. reflexivity. }
  apply (poll_cycles_announce_once Scenario.sd0 Scenario.engine0
           "P20250102080000" "V20250106091500"
           (Scenario.today0, Scenario.dm0)
           [(Scenario.today0, Scenario.dm0); (Scenario.today0, Scenario.dm0)]
           (Scenario.today0, Scenario.dm0) []).
  - reflexivity.
  - intros m. reflexivity.
  - apply not_elem_of_empty.
  - exact Hw.
  - exact Hw.
Defined.

(** C1, the claim as worded fails even with sinks that never fail: the
    visit ["c"] of patient ["a_b"] and the visit ["b_c"] of patient ["a"]
    have the same key ["a_b_c"]; the cycle announces the first and from
    then on skips the second, which is never announced. *)
Lemma joined_key_hides_a_visit : ¬ every_completed_visit_announced_once.
Proof.
  intros H.
  set (visit := Scenario.visit_of "b_c" "a" "Dr. Davis" "2025-01-06 09:15:00" "Completed").
  assert (deliveries_for (OPD.patient_id visit) (OPD.visit_id visit)
            (_announcement_loop Scenario.sd0
               (replicate 3 (Scenario.today0, Scenario.dm_joined)) Scenario.engine_mute).2
          = 1%nat) as Hone.
  { apply H.
    - reflexivity.
    - reflexivity.
    - intros m. reflexivity.
    - intros m e (Ha & _). discriminate Ha.
    - eexists. split; [reflexivity|].
      apply list_elem_of_further, list_elem_of_here.
    - reflexivity.
    - eexists. reflexivity.
    - lia. }
  vm_compute in Hone. discriminate Hone.
Qed.

(** What the cycles over that store show: one message, for the first of
    the two visits, and the one key. *)
Example joined_key_run :
  let out := _announcement_loop Scenario.sd0
               (replicate 3 (Scenario.today0, Scenario.dm_joined)) Scenario.engine_mute in
  out.2 = [mkEntry (Some ("a_b", "c"))
             (Displayed (completion_message "Ann" "Dr. Smith"))]
  ∧ elements (announced_patients out.1) = ["a_b_c"].
Proof. vm_compute. split; reflexivity. Qed.

(** With a display callback that raises, every cycle ends in the turn of
    the visit: nothing is shown, the key is never announced, and each
    cycle tries again. *)
Example raising_callback_run :
  let out := _announcement_loop Scenario.sd0
               (replicate 2 (Scenario.today0, Scenario.dm0)) Scenario.engine_blind in
  out.2 = [mkEntry None (Printed "Error in announcement loop: sink down");
           mkEntry None (Printed "Error in announcement loop: sink down")]
  ∧ elements (announced_patients out.1) = [].
Proof. vm_compute. split; reflexivity. Qed.

(** A stored visit whose date does not parse makes the fetch raise: the
    cycle ends before any visit is looked at, the loop prints and goes
    on. *)
Example malformed_date_run :
  let dm := Store.mkDataManager (Store.stored_patients Scenario.dm0)
              (Scenario.visit_of "V1" "P20250102080000" "Dr. Smith" "yesterday" "Completed"
               :: Store.stored_visits Scenario.dm0) in
  (loop_turn Scenario.sd0 Scenario.today0 dm Scenario.engine_mute).2
  = [mkEntry None
       (Printed ("Error in announcement loop: time data 'yesterday' does not match "
                 +:+ "format '%Y-%m-%d %H:%M:%S'"))].
Proof. reflexivity. Qed.

(** The specification's scenario: no announcement while the visit is in
    progress, one once it is completed, none at the next poll, one more
    after the set was cleared. *)
Example scenario_in_progress_then_completed :
  let in_progress :=
    Store.mkDataManager (Store.stored_patients Scenario.dm0)
      [Scenario.visit_of "V20250106091500" "P20250102080000" "Dr. Smith"
         "2025-01-06 09:15:00" "In Progress"] in
  let t1 := loop_turn Scenario.sd0 Scenario.today0 in_progress Scenario.engine_mute in
  let t2 := loop_turn Scenario.sd0 Scenario.today0 Scenario.dm0 t1.1 in
  let t3 := loop_turn Scenario.sd0 Scenario.today0 Scenario.dm0 t2.1 in
  let t4 := loop_turn Scenario.sd0 Scenario.today0 Scenario.dm0
              (clear_announced_patients t3.1).1 in
  t1.2 = [] ∧
  t2.2 = [mkEntry (Some ("P20250102080000", "V20250106091500"))
            (Displayed (completion_message "Asha" "Dr. Smith"))] ∧
  t3.2 = [] ∧
  t4.2 = t2.2.
Proof. vm_compute. repeat split. Qed.


(** Whatever has an entry in the log has its key announced afterwards. *)
Lemma log_marked (dm : Store.DataManager) (visits : list OPD.OPDVisit)
    (self : AnnouncementSystem) (en : entry) :
  en ∈ (announce_visits dm visits self).2 →
  ∃ u, origin en = Some (OPD.patient_id u, OPD.visit_id u)
       ∧ announcement_key u ∈ announced_patients (announce_visits dm visits self).1.2.
Proof.
  revert self. induction visits as [|visit rest IH]; intros self.
  - simpl. by rewrite elem_of_nil.
  - destruct (turn_cases dm visit self)
      as [Hs|(p & Hk & Hp & [[e Hc]|[r0 Hc]])].
    + rewrite announce_visits_skip by done. apply IH.
    + rewrite (announce_visits_raise dm visit rest self p e) by done. simpl.
      by rewrite elem_of_nil.
    + rewrite (announce_visits_deliver dm visit rest self p r0) by done.
      cbn [fst snd]. rewrite elem_of_app. intros [Hen|Hen]; [|by apply IH].
      exists visit. split; [by apply in_turn_of_origin in Hen|].
      pose proof (announce_visits_frame dm rest
        (with_announced ({[announcement_key visit]} ∪ announced_patients self) self))
        as [_ Hsub].
      by apply Hsub, elem_of_union_l, elem_of_singleton.
Qed.

Lemma silent_when_not_marked (dm : Store.DataManager) (visits : list OPD.OPDVisit)
    (self : AnnouncementSystem) (pid vid : string) :
  pair_key pid vid ∉ announced_patients (announce_visits dm visits self).1.2 →
  silent_about pid vid (announce_visits dm visits self).2.
Proof.
  intros Hk. apply Forall_forall. intros en Hen.
  destruct (log_marked dm visits self en Hen) as (u & Ho & Hin).
  rewrite Ho. intros [= H1 H2]. apply Hk.
  by rewrite <- H1, <- H2.
Qed.

(** C3, in the form the code satisfies.  Let the [for] loop of a poll cycle reach a completed
    visit (the visits [ahead] of it done without an exception) with its key
    not announced and its patient on record.
    - If the display callback returns and the speech engine raises, the
      message is shown, the exception is caught and printed as
      ["TTS error: ..."], the key is announced, the loop goes on with the
      remaining visits, and no later cycle has a turn for the visit.
    - If the display callback raises, the exception leaves the loop at
      once: in the visit's turn nothing is shown and the speech engine is
      not tried, the key is not announced, the remaining visits are not
      looked at; [_announcement_loop] catches the exception, prints it and
      goes on, and the next cycle meets the visit in the same way. *)
Theorem sink_failure_in_poll_cycle (dm : Store.DataManager) (self : AnnouncementSystem)
    (ahead : list OPD.OPDVisit) (visit : OPD.OPDVisit) (rest : list OPD.OPDVisit)
    (patient : Store.Patient) (reached : AnnouncementSystem) (log_ahead : list entry) :
  announce_visits dm ahead self = (Ok (), reached, log_ahead) →
  announcement_key visit ∉ announced_patients reached →
  Store.get_patient_by_id dm (OPD.patient_id visit) = Some patient →
  let message := completion_message (Store.name patient) (OPD.doctor_name visit) in
  let out := announce_visits dm (ahead ++ visit :: rest) self in
  (∀ e, announcement_callback self message = Ok () →
        speech_fails self message e →
        let marked :=
          with_announced ({[announcement_key visit]} ∪ announced_patients reached) reached in
        let next := announce_visits dm rest marked in
        out = (next.1.1, next.1.2,
               log_ahead
               ++ in_turn_of visit
                    [Displayed message; Printed ("TTS error: " +:+ exn_text e)]
               ++ next.2)
        ∧ (announcement_key visit ∈ announced_patients out.1.2)
        ∧ ∀ sd wakes,
            silent_about (OPD.patient_id visit) (OPD.visit_id visit)
              (_announcement_loop sd wakes out.1.2).2) ∧
  (∀ e, announcement_callback self message = Raise e →
        out = (Raise e, reached, log_ahead)
        ∧ silent_about (OPD.patient_id visit) (OPD.visit_id visit) out.2
        ∧ (announcement_key visit ∉ announced_patients out.1.2)
        ∧ (∀ sd today today_visits,
             Store.get_todays_opd_visits sd today dm = Ok today_visits →
             List.filter (fun v => str_eqb (OPD.status v) "Completed") today_visits
             = ahead ++ visit :: rest →
             loop_turn sd today dm self
             = (reached,
                log_ahead
                ++ [mkEntry None
                      (Printed ("Error in announcement loop: " +:+ exn_text e))]))
        ∧ ∀ rest', announce_visits dm (visit :: rest') out.1.2 = (Raise e, out.1.2, [])).
Proof.
  intros Hahead Hk Hp message out.
  pose proof (announce_visits_frame dm ahead self) as Hf.
  rewrite Hahead in Hf. simpl in Hf.
  assert (out = match announce_visits dm (visit :: rest) reached with
                | (r, s, log) => (r, s, log_ahead ++ log)
                end) as Hout.
  { subst out. rewrite announce_visits_app, Hahead.
    by destruct (announce_visits dm (visit :: rest) reached) as [[r s] log]. }
  split.
  - intros e Hcb Hsp marked next.
    assert (announcement_callback reached message = Ok ()) as Hcb'
      by (by rewrite (same_but_announced_callback self reached Hf)).
    rewrite (announce_visits_deliver dm visit rest reached patient ()) in Hout by done.
    fold message marked next in Hout.
    rewrite (same_but_announced_speech self reached message Hf) in Hout.
    rewrite (speak_guarded_fails self message e Hsp) in Hout.
    assert (announcement_key visit ∈ announced_patients out.1.2) as Hin.
    { rewrite Hout. cbn [fst snd].
      pose proof (announce_visits_frame dm rest marked) as [_ Hsub].
      by apply Hsub, elem_of_union_l, elem_of_singleton. }
    split; [done|]. split; [done|].
    intros sd wakes. by apply announcement_loop_silent_when_announced.
  - intros e Hcb.
    assert (announcement_callback reached message = Raise e) as Hcb'
      by (by rewrite (same_but_announced_callback self reached Hf)).
    rewrite (announce_visits_raise dm visit rest reached patient e) in Hout by done.
    rewrite app_nil_r in Hout.
    split; [done|]. rewrite Hout. cbn [fst snd].
    split; [|split; [done|split]].
    + pose proof (silent_when_not_marked dm ahead self
                    (OPD.patient_id visit) (OPD.visit_id visit)) as Hs.
      rewrite Hahead in Hs. by apply Hs.
    + intros sd today today_visits Hfetch Hcompleted.
      unfold loop_turn, _check_and_announce_completed_patients.
      rewrite Hfetch, Hcompleted. fold out. by rewrite Hout.
    + intros rest'. by apply announce_visits_raise with patient.
Qed.


Lemma sink_failure_in_poll_cycle_witness :
  let visit := Scenario.visit_of "V20250106091500" "P20250102080000" "Dr. Smith"
                 "2025-01-06 09:15:00" "Completed" in
  announcement_key visit
    ∈ announced_patients
        (announce_visits Scenario.dm0 ([] ++ visit :: []) Scenario.engine_hoarse).1.2.
Proof.
  intros visit.
  assert (announcement_key visit ∉ announced_patients Scenario.engine_hoarse) as Hk
    by apply not_elem_of_empty.
  destruct (proj1 (sink_failure_in_poll_cycle Scenario.dm0 Scenario.engine_hoarse
                     [] visit [] (Scenario.patient_of "P20250102080000" "Asha")
                     Scenario.engine_hoarse [] eq_refl Hk eq_refl)
                  (Exception "sink down")) as (_ & Hin & _).
  - reflexivity.
  - split; [reflexivity|]. eexists. split; reflexivity.
  - exact Hin.
Defined.

(** C3, the claim as worded fails for the display callback: when it
    raises, the key of the visit is not announced. *)
Lemma display_failure_leaves_key_unmarked : ¬ sink_failure_still_marks.
Proof.
  intros H.
  set (visit := Scenario.visit_of "V20250106091500" "P20250102080000" "Dr. Smith"
                  "2025-01-06 09:15:00" "Completed").
  set (patient := Scenario.patient_of "P20250102080000" "Asha").
  assert (announcement_key visit ∉ announced_patients Scenario.engine_blind) as Hk
    by apply not_elem_of_empty.
  assert (Store.get_patient_by_id Scenario.dm0 (OPD.patient_id visit) = Some patient)
    as Hp by reflexivity.
  assert (announcement_callback Scenario.engine_blind
            (completion_message (Store.name patient) (OPD.doctor_name visit))
          = Raise (Exception "sink down")) as Hc by reflexivity.
  pose proof (H Scenario.dm0 Scenario.engine_blind visit [] patient Hk Hp
                (or_introl (ex_intro _ _ Hc))) as Hin.
  rewrite (announce_visits_raise _ _ _ _ patient _ Hk Hp Hc) in Hin.
  by apply not_elem_of_empty in Hin.
Qed.

(** The two failures side by side, over the same store. *)
Example sink_failure_runs :
  let hoarse := _announcement_loop Scenario.sd0
                  (replicate 2 (Scenario.today0, Scenario.dm0)) Scenario.engine_hoarse in
  let blind := _announcement_loop Scenario.sd0
                 (replicate 2 (Scenario.today0, Scenario.dm0)) Scenario.engine_blind in
  hoarse.2 = [mkEntry (Some ("P20250102080000", "V20250106091500"))
                (Displayed (completion_message "Asha" "Dr. Smith"));
              mkEntry (Some ("P20250102080000", "V20250106091500"))
                (Printed "TTS error: sink down")]
  ∧ elements (announced_patients hoarse.1) = ["P20250102080000_V20250106091500"]
  ∧ deliveries_for "P20250102080000" "V20250106091500" blind.2 = 0%nat
  ∧ elements (announced_patients blind.1) = [].
Proof. vm_compute. repeat split. Qed.

(** The loop over [wakes ++ wakes'] is the loop over [wakes], then the
    loop over [wakes']. *)
Lemma announcement_loop_app (sd : string → result Z)
    (wakes wakes' : list (Z * Store.DataManager)) (self : AnnouncementSystem) :
  _announcement_loop sd (wakes ++ wakes') self
  = ((_announcement_loop sd wakes' (_announcement_loop sd wakes self).1).1,
     (_announcement_loop sd wakes self).2
     ++ (_announcement_loop sd wakes' (_announcement_loop sd wakes self).1).2).
Proof.
  revert self. induction wakes as [|[today dm] later IH]; intros self; simpl.
  - by destruct (_announcement_loop sd wakes' self).
  - destruct (is_running self) eqn:Hrun.
    + destruct (loop_turn sd today dm self) as [s1 log1]. rewrite IH.
      destruct (_announcement_loop sd later s1) as [s2 log2]. simpl.
      by rewrite app_assoc.
    + simpl. destruct wakes' as [|[today' dm'] later']; simpl; [done|].
      by rewrite Hrun.
Qed.

(** A cycle that finds no patient under [pid] has no turn for the visit
    [(pid, vid)], and announces its key only through another pair with the
    same joined key. *)
Lemma loop_turn_unresolved (sd : string → result Z) (wake : Z * Store.DataManager)
    (self : AnnouncementSystem) (pid vid : string) :
  unresolved sd pid vid wake →
  silent_about pid vid (loop_turn sd wake.1 wake.2 self).2
  ∧ (pair_key pid vid ∈ announced_patients (loop_turn sd wake.1 wake.2 self).1 →
     pair_key pid vid ∈ announced_patients self
     ∨ ∃ today_visits u,
         Store.get_todays_opd_visits sd wake.1 wake.2 = Ok today_visits
         ∧ u ∈ today_visits
         ∧ announcement_key u = pair_key pid vid
         ∧ ¬ has_pair pid vid u).
Proof.
  intros (vs & Hfetch & _ & Hnone).
  unfold loop_turn, _check_and_announce_completed_patients. rewrite Hfetch.
  set (completed := List.filter (fun visit => str_eqb (OPD.status visit) "Completed") vs).
  pose proof (silent_when_unresolved wake.2 completed self pid vid Hnone) as Hsil.
  assert (pair_key pid vid ∈ announced_patients (announce_visits wake.2 completed self).1.2 →
          pair_key pid vid ∈ announced_patients self
          ∨ ∃ today_visits u,
              Ok vs = Ok today_visits
              ∧ u ∈ today_visits
              ∧ announcement_key u = pair_key pid vid
              ∧ ¬ has_pair pid vid u) as Hkey.
  { intros Hin.
    destruct (announced_origin wake.2 completed self _ Hin) as [?|(u & Hu & Hku & Hpu)];
      [by left|].
    right. exists vs, u. apply elem_of_List_filter in Hu as [Hu _].
    split; [done|]. split; [done|]. split; [done|].
    intros [Hpid _]. rewrite Hpid, Hnone in Hpu. by destruct Hpu. }
  destruct (announce_visits wake.2 completed self) as [[[r|e] s] log]; simpl in *.
  - done.
  - split; [|done]. apply silent_about_app. split; [done|]. by repeat constructor.
Qed.

(** Cycles that all miss the patient, the key of [(pid, vid)] being
    unambiguous in each: no turn for the visit, and the key stays out. *)
Lemma announcement_loop_unresolved (sd : string → result Z)
    (misses : list (Z * Store.DataManager)) (self : AnnouncementSystem)
    (pid vid : string) :
  Forall (unresolved sd pid vid) misses →
  Forall (key_unambiguous_at sd pid vid) misses →
  pair_key pid vid ∉ announced_patients self →
  silent_about pid vid (_announcement_loop sd misses self).2
  ∧ pair_key pid vid ∉ announced_patients (_announcement_loop sd misses self).1.
Proof.
  revert self. induction misses as [|[today dm] later IH]; intros self Hmiss Hun Hk; simpl.
  - split; [constructor|done].
  - destruct (is_running self); [|split; [constructor|done]].
    apply Forall_cons in Hmiss as [Hm Hmiss]. apply Forall_cons in Hun as [Hu Hun].
    destruct (loop_turn_unresolved sd (today, dm) self pid vid Hm) as [Hsil Hkey].
    simpl in Hsil, Hkey.
    assert (pair_key pid vid ∉ announced_patients (loop_turn sd today dm self).1) as Hk1.
    { intros Hin. destruct (Hkey Hin) as [?|(vs & u & Hfetch & Hu' & Hku & Hnp)]; [done|].
      apply Hnp. by apply (Hu vs Hfetch u). }
    destruct (loop_turn sd today dm self) as [s1 log1]. simpl in *.
    destruct (IH s1 Hmiss Hun Hk1) as [Hsil2 Hk2].
    destruct (_announcement_loop sd later s1) as [s2 log2]. simpl in *.
    split; [|done]. apply silent_about_app. by split.
Qed.

(** C4, in the form the code satisfies.  Let a poll cycle fetch today's
    visits, a completed visit [(pid, vid)] among them, and find no patient
    on record under [pid].
    - The visit is skipped: the cycle gives what the loop over the
      completed visits gives with the visit left out (same result, same
      announced set, same log), so the miss ends neither the cycle nor the
      engine, which is running afterwards as it was before; and the log of
      the cycle has no entry from the visit's turn.
    - The cycle adds the key of the visit to the announced set only when
      another fetched pair has the same joined key.
    - Take a running engine whose display callback never raises, the key
      not announced, and any number of further cycles that miss the patient,
      no fetched pair sharing the joined key in any of them: the visit gets
      no turn and its key stays out, and the first cycle after them that
      can announce the visit (fetch succeeds, the completed visit is there,
      its patient is on record, its key is unambiguous) shows exactly one
      message in its turn and announces the key; the cycles after that one
      have no turn for the visit, and the whole run shows exactly one
      message for it. *)
Theorem unresolved_patient_is_skipped (sd : string → result Z) (self : AnnouncementSystem)
    (pid vid : string) (miss : Z * Store.DataManager) :
  unresolved sd pid vid miss →
  let cycle := _check_and_announce_completed_patients sd miss.1 miss.2 self in
  let turn := loop_turn sd miss.1 miss.2 self in
  (∃ today_visits ahead u rest,
     Store.get_todays_opd_visits sd miss.1 miss.2 = Ok today_visits
     ∧ List.filter (fun v => str_eqb (OPD.status v) "Completed") today_visits
       = ahead ++ u :: rest
     ∧ has_pair pid vid u
     ∧ cycle = announce_visits miss.2 (ahead ++ rest) self) ∧
  silent_about pid vid turn.2 ∧
  is_running turn.1 = is_running self ∧
  (pair_key pid vid ∈ announced_patients turn.1 →
     pair_key pid vid ∈ announced_patients self
     ∨ ∃ today_visits u,
         Store.get_todays_opd_visits sd miss.1 miss.2 = Ok today_visits
         ∧ u ∈ today_visits
         ∧ announcement_key u = pair_key pid vid
         ∧ ¬ has_pair pid vid u) ∧
  (∀ (misses : list (Z * Store.DataManager)) (wake : Z * Store.DataManager)
     (later : list (Z * Store.DataManager)),
     is_running self = true →
     (∀ m, announcement_callback self m = Ok ()) →
     pair_key pid vid ∉ announced_patients self →
     Forall (unresolved sd pid vid) misses →
     Forall (key_unambiguous_at sd pid vid) (miss :: misses) →
     announceable sd pid vid wake →
     let missed := _announcement_loop sd (miss :: misses) self in
     let hit := loop_turn sd wake.1 wake.2 missed.1 in
     silent_about pid vid missed.2 ∧
     (pair_key pid vid ∉ announced_patients missed.1) ∧
     deliveries_for pid vid hit.2 = 1%nat ∧
     pair_key pid vid ∈ announced_patients hit.1 ∧
     silent_about pid vid (_announcement_loop sd later hit.1).2 ∧
     deliveries_for pid vid
       (_announcement_loop sd ((miss :: misses) ++ wake :: later) self).2 = 1%nat).
Proof.
  intros Hmiss cycle turn.
  destruct (loop_turn_unresolved sd miss self pid vid Hmiss) as [Hsil Hkey].
  fold turn in Hsil, Hkey.
  split; [|split; [done|split; [|split; [done|]]]].
  - destruct Hmiss as (vs & Hfetch & (u & Hu & Hst & Hpair) & Hnone).
    assert (u ∈ List.filter (fun v => str_eqb (OPD.status v) "Completed") vs) as Hin.
    { apply elem_of_List_filter. split; [done|]. by apply str_eqb_true. }
    apply list_elem_of_split in Hin as (ahead & rest & Hsplit).
    exists vs, ahead, u, rest. split; [done|]. split; [done|]. split; [done|].
    subst cycle. unfold _check_and_announce_completed_patients.
    rewrite Hfetch, Hsplit, !announce_visits_app.
    destruct (announce_visits miss.2 ahead self) as [[[r0|e] s] log]; [|done].
    rewrite announce_visits_unresolved; [done|]. destruct Hpair as [Hpid _].
    by rewrite Hpid.
  - subst turn.
    apply (same_but_announced_running self _ (loop_turn_frame sd miss.1 miss.2 self)).
  - intros misses wake later Hrun Hcb Hk Hmisses Hun Hw missed hit.
    destruct (announcement_loop_unresolved sd (miss :: misses) self pid vid)
      as [Hsil' Hk']; [by constructor|done|done|].
    fold missed in Hsil', Hk'.
    pose proof (announcement_loop_frame sd (miss :: misses) self) as Hf.
    fold missed in Hf.
    assert (is_running missed.1 = true) as Hrun'
      by (by rewrite (same_but_announced_running self missed.1 Hf)).
    assert (∀ m, announcement_callback missed.1 m = Ok ()) as Hcb'.
    { intros m. by rewrite (same_but_announced_callback self missed.1 Hf). }
    destruct (loop_turn_once sd wake missed.1 pid vid Hcb' Hk' Hw) as [Hin Hone].
    fold hit in Hin, Hone.
    destruct (announcement_loop_once sd wake later missed.1 pid vid Hrun' Hcb' Hk' Hw)
      as (_ & Hall & _).
    split; [done|]. split; [done|]. split; [done|]. split; [done|].
    split; [by apply announcement_loop_silent_when_announced|].
    rewrite announcement_loop_app. cbn [snd]. fold missed.
    by rewrite deliveries_for_app, Hall, (silent_no_delivery pid vid _ Hsil').
Qed.

Lemma unresolved_patient_is_skipped_witness :
  deliveries_for "P20250102080000" "V20250106091500"
    (_announcement_loop Scenario.sd0
       (((Scenario.today0, Scenario.dm0_no_patient)
         :: [(Scenario.today0, Scenario.dm0_no_patient)])
        ++ (Scenario.today0, Scenario.dm0) :: [(Scenario.today0, Scenario.dm0)])
       Scenario.engine0).2 = 1%nat.
Proof.
  assert (unresolved Scenario.sd0 "P20250102080000" "V20250106091500"
            (Scenario.today0, Scenario.dm0_no_patient)) as Hm.
  { eexists. split; [reflexivity|]. split.
    - eexists. split; [apply list_elem_of_here|]. repeat split.
    - reflexivity. }
  assert (key_unambiguous_at Scenario.sd0 "P20250102080000" "V20250106091500"
            (Scenario.today0, Scenario.dm0_no_patient)) as Hu.
  { intros vs [= <-] u Hu _. apply list_elem_of_singleton in Hu. subst u.
    split; reflexivity. }
  assert (announceable Scenario.sd0 "P20250102080000" "V20250106091500"
            (Scenario.today0, Scenario.dm0)) as Hw.
  { eexists. split; [reflexivity|]. split; [|split].
    - eexists. split; [apply list_elem_of_here|]. repeat split.
    - intros u Hu' _. apply list_elem_of_singleton in Hu'. subst u. split; reflexivity.
    - eexists. reflexivity. }
  apply (proj2 (proj2 (proj2 (proj2
           (unresolved_patient_is_skipped Scenario.sd0 Scenario.engine0
              "P20250102080000" "V20250106091500"
              (Scenario.today0, Scenario.dm0_no_patient) Hm))))
           [(Scenario.today0, Scenario.dm0_no_patient)]
           (Scenario.today0, Scenario.dm0) [(Scenario.today0, Scenario.dm0)]).
  - reflexivity.
  - intros m. reflexivity.
  - apply not_elem_of_empty.
  - constructor; [exact Hm|constructor].
  - constructor; [exact Hu|]. constructor; [exact Hu|constructor].
  - exact Hw.
Defined.

(** C4, the claim as worded fails: the visit ["b_c"] of patient ["a"],
    not on record, is skipped, but the same cycle announces the visit ["c"]
    of patient ["a_b"], whose key is ["a_b_c"] as well; once patient ["a"]
    is on record, no cycle announces the visit ["b_c"]. *)
Lemma joined_key_blocks_retry : ¬ unresolved_visit_announced_later.
Proof.
  intros H.
  set (visit := Scenario.visit_of "b_c" "a" "Dr. Davis" "2025-01-06 09:15:00" "Completed").
  assert (1 <= deliveries_for (OPD.patient_id visit) (OPD.visit_id visit)
                 (_announcement_loop Scenario.sd0
                    (replicate 3 (Scenario.today0, Scenario.dm_joined_found))
                    (loop_turn Scenario.sd0 Scenario.today0 Scenario.dm_joined_missing
                       Scenario.engine_mute).1).2)%nat as Hone.
  { apply (H Scenario.sd0 Scenario.engine_mute Scenario.today0
             Scenario.dm_joined_missing Scenario.dm_joined_found visit 3%nat).
    - reflexivity.
    - reflexivity.
    - intros m. reflexivity.
    - intros m e (Ha & _). discriminate Ha.
    - eexists. split; [reflexivity|]. apply list_elem_of_here.
    - eexists. split; [reflexivity|]. apply list_elem_of_here.
    - reflexivity.
    - reflexivity.
    - eexists. reflexivity.
    - lia. }
  vm_compute in Hone. lia.
Qed.

(** What those cycles show: the miss cycle announces the other visit and
    with it the shared key; the cycles over the store that has patient
    ["a"] on record show nothing. *)
Example joined_key_retry_run :
  let missed := loop_turn Scenario.sd0 Scenario.today0 Scenario.dm_joined_missing
                  Scenario.engine_mute in
  let out := _announcement_loop Scenario.sd0
               (replicate 3 (Scenario.today0, Scenario.dm_joined_found)) missed.1 in
  missed.2 = [mkEntry (Some ("a_b", "c"))
                (Displayed (completion_message "Ann" "Dr. Smith"))]
  ∧ elements (announced_patients missed.1) = ["a_b_c"]
  ∧ out.2 = []
  ∧ elements (announced_patients out.1) = ["a_b_c"].
Proof. vm_compute. repeat split. Qed.

(** The miss and the later hit, end to end: the patient record is written
    between two cycles. *)
Example lookup_miss_then_hit :
  let t1 := loop_turn Scenario.sd0 Scenario.today0 Scenario.dm0_no_patient Scenario.engine_mute in
  let t2 := loop_turn Scenario.sd0 Scenario.today0 Scenario.dm0 t1.1 in
  let t3 := loop_turn Scenario.sd0 Scenario.today0 Scenario.dm0 t2.1 in
  t1.2 = [] ∧ elements (announced_patients t1.1) = [] ∧
  t2.2 = [mkEntry (Some ("P20250102080000", "V20250106091500"))
            (Displayed (completion_message "Asha" "Dr. Smith"))] ∧
  t3.2 = [].
Proof. vm_compute. repeat split. Qed.

End PollCycleClaims.

(** * More about the OPD visit and the OPD queue *)

Section OPDMore.
Import OPD.

Lemma str_or_nonempty (s fallback : string) : s ≠ "" → str_or (Some s) fallback = s.
Proof. intros H. unfold str_or. apply str_eqb_false in H. by rewrite H. Qed.

Lemma str_or_never_empty (x : option string) (fallback : string) :
  fallback ≠ "" → str_or x fallback ≠ "".
Proof.
  intros Hf. unfold str_or. destruct x as [s|]; [|done].
  destruct (str_eqb s "") eqn:E; [done|]. by apply str_eqb_false in E.
Qed.

(** X1.  Writing a visit with [to_dict] and reading it back with
    [from_dict] gives the same visit when its [visit_id] and [visit_date]
    are not empty.  A visit with an empty [visit_id] does not come back: it
    is read with a newly generated id ["V" + stamp].  Whatever the dict,
    the visit read from it has a non-empty [visit_id]. *)
Theorem visit_dict_round_trip (stamp now_text : string) (self : OPDVisit) :
  (visit_id self ≠ "" → visit_date self ≠ "" →
     from_dict stamp now_text (to_dict self) = self) ∧
  (visit_id self = "" →
     visit_id (from_dict stamp now_text (to_dict self)) = generate_visit_id stamp) ∧
  (visit_date self = "" →
     visit_date (from_dict stamp now_text (to_dict self)) = now_text) ∧
  (∀ data, visit_id (from_dict stamp now_text data) ≠ "").
Proof.
  split; [|split; [|split]].
  - intros Hid Hdate. apply str_eqb_false in Hid, Hdate.
    unfold from_dict, to_dict, str_or. simpl. rewrite Hid, Hdate. by destruct self.
  - intros Hid. simpl. by rewrite Hid.
  - intros Hdate. simpl. by rewrite Hdate.
  - intros data. simpl. by apply str_or_never_empty.
Qed.

Lemma visit_dict_round_trip_witness :
  from_dict "20250106101500" "2025-01-06 10:15:00"
    (to_dict (Scenario.visit_of "V20250106091500" "P20250102080000" "Dr. Smith"
                "2025-01-06 09:15:00" "Completed"))
  = Scenario.visit_of "V20250106091500" "P20250102080000" "Dr. Smith"
      "2025-01-06 09:15:00" "Completed".
Proof.
  apply (proj1 (visit_dict_round_trip "20250106101500" "2025-01-06 10:15:00"
                  (Scenario.visit_of "V20250106091500" "P20250102080000" "Dr. Smith"
                     "2025-01-06 09:15:00" "Completed"))); discriminate.
Defined.

(** X2.  A follow-up that is due is a follow-up that is needed, and comes
    with a date that parses to today or an earlier day.  A visit whose
    follow-up date is blank is never due, not even with the status
    ["Follow-up Required"], which alone decides whether it needs one; a
    date that does not parse is needed but never due. *)
Theorem follow_up_due_is_needed (strip : string → string)
    (strptime_day : string → result Z) (today : Z) (self : OPDVisit) :
  (is_follow_up_due strip strptime_day today self = true →
     needs_follow_up strip self = true
     ∧ ∃ d, strptime_day (follow_up_date self) = Ok d ∧ (d <= today)%Z) ∧
  (strip (follow_up_date self) = "" →
     is_follow_up_due strip strptime_day today self = false
     ∧ needs_follow_up strip self = str_eqb (status self) "Follow-up Required") ∧
  (∀ e, strip (follow_up_date self) ≠ "" →
        strptime_day (follow_up_date self) = Raise e →
        is_follow_up_due strip strptime_day today self = false
        ∧ needs_follow_up strip self = true).
Proof.
  unfold is_follow_up_due, needs_follow_up. split; [|split].
  - destruct (str_eqb (strip (follow_up_date self)) "") eqn:E; [done|].
    destruct (strptime_day (follow_up_date self)) as [d|e]; [|done].
    intros H. apply bool_decide_eq_true in H. split; [done|]. by exists d.
  - intros ->. by rewrite str_eqb_refl.
  - intros e Hne He. apply str_eqb_false in Hne. by rewrite Hne, He.
Qed.

Lemma list_index_lookup p l i :
  list_index p l = Some i ↔
  l !! i = Some p ∧ ∀ j, (j < i)%nat → l !! j ≠ Some p.
Proof.
  revert i. induction l as [|y l IH]; intros i; simpl.
  - split; [done|]. intros [H _]. by rewrite lookup_nil in H.
  - destruct (str_eqb y p) eqn:E.
    + apply str_eqb_true in E. subst y. split.
      * intros [= <-]. split; [done|]. intros j Hj. lia.
      * intros [Hi Hfirst]. destruct i as [|i]; [done|].
        exfalso. by apply (Hfirst 0%nat); [lia|].
    + apply str_eqb_false in E. rewrite fmap_Some. split.
      * intros (i' & Hi' & ->). apply IH in Hi' as [Hl Hfirst].
        split; [done|]. intros [|j] Hj; simpl.
        -- intros [= ?]. done.
        -- apply Hfirst. lia.
      * intros [Hi Hfirst]. destruct i as [|i]; simpl in Hi.
        -- injection Hi as ?. done.
        -- exists i. split; [|done]. apply IH. split; [done|].
           intros j Hj. apply (Hfirst (S j)). lia.
Qed.

(** X3.  After any history of calls the waiting list holds no id twice,
    and [get_queue_position] and [get_next_patient] agree with it:
    [p] stands at index [i] exactly when its position is [i + 1], it is
    absent exactly when its position is -1, and it is the next patient
    exactly when its position is 1. *)
Theorem queue_positions_agree (history : list call) :
  let q := do_calls history new_queue in
  NoDup (queue q) ∧
  (∀ p i, queue q !! i = Some p ↔ get_queue_position p q = (Z.of_nat i + 1)%Z) ∧
  (∀ p, p ∉ queue q ↔ get_queue_position p q = (-1)%Z) ∧
  (∀ p, get_next_patient q = Some p ↔ get_queue_position p q = 1%Z).
Proof.
  intros q.
  assert (NoDup (queue q)) as Hnd by (apply do_calls_NoDup; constructor).
  assert (∀ p i, queue q !! i = Some p ↔ get_queue_position p q = (Z.of_nat i + 1)%Z)
    as Hpos.
  { intros p i. unfold get_queue_position. split.
    - intros Hi. destruct (list_index p (queue q)) as [j|] eqn:Ej.
      + apply list_index_lookup in Ej as [Hj _].
        by rewrite (NoDup_lookup _ _ _ _ Hnd Hi Hj).
      + apply list_index_None in Ej. exfalso. apply Ej.
        by eapply list_elem_of_lookup_2.
    - destruct (list_index p (queue q)) as [j|] eqn:Ej; [|lia].
      intros H. assert (j = i) as -> by lia. by apply list_index_lookup in Ej as [? _]. }
  split; [done|]. split; [done|]. split.
  - intros p. rewrite <- list_index_None. unfold get_queue_position.
    destruct (list_index p (queue q)); split; try done; lia.
  - intros p. rewrite <- (Hpos p 0%nat). unfold get_next_patient.
    by destruct (queue q).
Qed.

Lemma list_remove_app_absent p l : p ∉ l → list_remove p (l ++ [p]) = l.
Proof.
  induction l as [|y l IH]; simpl; intros H.
  - by rewrite str_eqb_refl.
  - apply not_elem_of_cons in H as [H1 H2].
    assert (str_eqb y p = false) as -> by (apply str_eqb_false; congruence).
    by rewrite IH.
Qed.

Lemma list_remove_not_elem r l : r ∉ l → list_remove r l = l.
Proof.
  induction l as [|y l IH]; simpl; [done|].
  rewrite not_elem_of_cons. intros [H1 H2].
  assert (str_eqb y r = false) as -> by (apply str_eqb_false; congruence).
  by rewrite IH.
Qed.

(** X4.  [remove_patient] undoes an [add_patient] that added: removing [p]
    right after adding it gives what removing [p] from the queue before
    the add gives, which is the queue itself when [p] was not waiting.
    After any history, removing [p] and adding it again puts [p] last,
    behind everybody who was waiting. *)
Theorem remove_after_add (history : list call) (p : string) :
  let q := do_calls history new_queue in
  remove_patient p (add_patient p q) = remove_patient p q ∧
  (p ∉ queue q → remove_patient p (add_patient p q) = q) ∧
  queue (add_patient p (remove_patient p q)) = list_remove p (queue q) ++ [p] ∧
  get_queue_position p (add_patient p (remove_patient p q))
  = Z.of_nat (length (queue (add_patient p (remove_patient p q)))).
Proof.
  intros q.
  assert (NoDup (queue q)) as Hnd by (apply do_calls_NoDup; constructor).
  assert (remove_patient p (add_patient p q) = remove_patient p q) as H1.
  { unfold add_patient. destruct (str_in p (queue q)) eqn:E; simpl; [done|].
    apply str_in_false in E. unfold remove_patient. simpl.
    assert (str_in p (queue q ++ [p]) = true) as ->.
    { apply str_in_true, elem_of_app. right. apply list_elem_of_here. }
    rewrite list_remove_app_absent by done.
    apply str_in_false in E. rewrite E. by destruct q. }
  assert (p ∉ queue (remove_patient p q)) as Hgone.
  { unfold remove_patient. destruct (str_in p (queue q)) eqn:E; simpl.
    - by apply list_remove_self_gone.
    - by apply str_in_false. }
  assert (queue (add_patient p (remove_patient p q)) = list_remove p (queue q) ++ [p]) as H3.
  { unfold add_patient. apply str_in_false in Hgone as Hg. rewrite Hg. simpl.
    f_equal. unfold remove_patient. destruct (str_in p (queue q)) eqn:E; simpl; [done|].
    apply str_in_false in E. by rewrite list_remove_not_elem. }
  split; [done|]. split; [|split; [done|]].
  - intros Hp. rewrite H1. unfold remove_patient. apply str_in_false in Hp. by rewrite Hp.
  - rewrite H3. unfold get_queue_position. rewrite H3.
    assert (p ∉ list_remove p (queue q)) as Hg' by (by apply list_remove_self_gone).
    assert (list_index p (list_remove p (queue q) ++ [p])
            = Some (length (list_remove p (queue q)))) as ->.
    { clear -Hg'. induction (list_remove p (queue q)) as [|y l IH]; simpl.
      - by rewrite str_eqb_refl.
      - apply not_elem_of_cons in Hg' as [Hy Hl].
        assert (str_eqb y p = false) as -> by (apply str_eqb_false; congruence).
        by rewrite IH. }
    rewrite length_app. simpl. lia.
Qed.

Lemma pending_app l l' :
  List.filter (fun c => negb (announced c)) (l ++ l')
  = List.filter (fun c => negb (announced c)) l
    ++ List.filter (fun c => negb (announced c)) l'.
Proof. apply List.filter_app. Qed.

(** X5.  The number of records that wait for their announcement never
    exceeds the number of completions; [mark_patient_completed] raises it
    by one; [mark_announced] lowers it by one when a waiting record has
    that name, and otherwise changes nothing at all; and
    [clear_completed_today] empties both lists. *)
Theorem pending_count_changes (patient_name now_time : string) (self : OPDQueue) :
  (pending_count self <= length (completed_today self))%nat ∧
  pending_count (mark_patient_completed patient_name now_time self)
  = S (pending_count self) ∧
  ((∃ c, c ∈ completed_today self ∧ flaggable patient_name c) →
     S (pending_count (mark_announced patient_name self)) = pending_count self) ∧
  ((∀ c, c ∈ completed_today self → ¬ flaggable patient_name c) →
     mark_announced patient_name self = self) ∧
  get_queue_summary (clear_completed_today self) = mkQueueSummary 0 0 0.
Proof.
  unfold pending_count, get_pending_announcements.
  split; [apply List.filter_length_le|]. split; [|split; [|split; [|done]]].
  - simpl. rewrite pending_app, length_app. simpl. lia.
  - intros (c & Hc & Hfl).
    destruct (mark_first_announced_split patient_name (completed_today self))
      as [[Hall _]|(before & c' & after & Hl & Hall & [Hn Ha] & Heq)].
    + rewrite Forall_forall in Hall. by destruct (Hall c Hc).
    + simpl. rewrite Heq, Hl, !pending_app, !length_app. simpl. rewrite Ha. simpl. lia.
  - intros Hnone.
    destruct (mark_first_announced_split patient_name (completed_today self))
      as [[_ Heq]|(before & c' & after & Hl & _ & Hfl & _)].
    + unfold mark_announced. rewrite Heq. by destruct self.
    + exfalso. apply (Hnone c'); [|done]. rewrite Hl.
      apply elem_of_app. right. apply list_elem_of_here.
Qed.

End OPDMore.

(** * More about the announcement engine *)

Section EngineMore.
Import Announcement.

Implicit Types (dm : Store.DataManager) (self : AnnouncementSystem)
  (visit : OPD.OPDVisit) (log : list entry) (pid vid : string).

(** In one run of the [for] loop a pair gets at most one message, and
    when it gets one its key is announced afterwards. *)
Lemma announce_visits_at_most_once dm visits self pid vid :
  (deliveries_for pid vid (announce_visits dm visits self).2 <= 1)%nat
  ∧ (deliveries_for pid vid (announce_visits dm visits self).2 = 1%nat →
     pair_key pid vid ∈ announced_patients (announce_visits dm visits self).1.2).
Proof.
  revert self. induction visits as [|visit rest IH]; intros self.
  - unfold deliveries_for. simpl. split; [lia|done].
  - destruct (turn_cases dm visit self)
      as [Hs|(p & Hk & Hp & [[e Hc]|[r0 Hc]])].
    + rewrite announce_visits_skip by done. apply IH.
    + rewrite (announce_visits_raise dm visit rest self p e) by done.
      unfold deliveries_for. simpl. split; [lia|done].
    + rewrite (announce_visits_deliver dm visit rest self p r0) by done.
      cbn [fst snd]. rewrite deliveries_for_app.
      set (self' := with_announced ({[announcement_key visit]} ∪ announced_patients self) self).
      destruct (decide (OPD.patient_id visit = pid ∧ OPD.visit_id visit = vid)) as [Hpair|Hnp].
      * rewrite deliveries_in_own_turn by done.
        assert (pair_key pid vid ∈ announced_patients self') as Hin.
        { rewrite <- (has_pair_key pid vid visit Hpair). subst self'. simpl.
          by apply elem_of_union_l, elem_of_singleton. }
        rewrite (silent_no_delivery pid vid _ (silent_when_announced dm rest self' pid vid Hin)).
        split; [lia|]. intros _.
        by apply (announce_visits_frame dm rest self').
      * rewrite (silent_no_delivery pid vid _ (silent_about_other_turn pid vid visit _ Hnp)).
        apply IH.
Qed.

Lemma loop_turn_at_most_once sd today dm self pid vid :
  (deliveries_for pid vid (loop_turn sd today dm self).2 <= 1)%nat
  ∧ (deliveries_for pid vid (loop_turn sd today dm self).2 = 1%nat →
     pair_key pid vid ∈ announced_patients (loop_turn sd today dm self).1).
Proof.
  unfold loop_turn, _check_and_announce_completed_patients.
  destruct (Store.get_todays_opd_visits sd today dm) as [vs|e]; simpl.
  2:{ split; [unfold deliveries_for; simpl; lia|done]. }
  set (completed := List.filter _ vs).
  pose proof (announce_visits_at_most_once dm completed self pid vid) as H.
  destruct (announce_visits dm completed self) as [[[r|e] s] log]; simpl in *; [done|].
  rewrite deliveries_for_app. unfold deliveries_for at 2 4. simpl.
  rewrite Nat.add_0_r. done.
Qed.

(** X6.  Whatever the store holds at each wake and whatever the sinks do,
    a run of the background loop shows at most one message in the turns of
    any one visit [(pid, vid)]; only [clear_announced_patients] makes a
    second one possible. *)
Theorem poll_loop_at_most_once (sd : string → result Z)
    (wakes : list (Z * Store.DataManager)) (self : AnnouncementSystem)
    (pid vid : string) :
  (deliveries_for pid vid (_announcement_loop sd wakes self).2 <= 1)%nat ∧
  (pair_key pid vid ∈ announced_patients self →
     deliveries_for pid vid (_announcement_loop sd wakes self).2 = 0%nat).
Proof.
  split.
  - revert self. induction wakes as [|[today dm] later IH]; intros self; simpl.
    + unfold deliveries_for. simpl. lia.
    + destruct (is_running self); [|unfold deliveries_for; simpl; lia].
      pose proof (loop_turn_at_most_once sd today dm self pid vid) as [Hle Hin].
      destruct (loop_turn sd today dm self) as [s1 log1]. simpl in *.
      pose proof (IH s1) as Hrest.
      pose proof (announcement_loop_silent_when_announced sd later s1 pid vid) as Hsil.
      destruct (_announcement_loop sd later s1) as [s2 log2]. simpl in *.
      rewrite deliveries_for_app.
      destruct (decide (deliveries_for pid vid log1 = 1%nat)) as [H1|H1].
      * rewrite (silent_no_delivery pid vid log2 (Hsil (Hin H1))). lia.
      * lia.
  - intros Hin. apply silent_no_delivery.
    by apply announcement_loop_silent_when_announced.
Qed.





(** The three kinds of output side by side: with a speech engine that
    raises the cycle shows the message and prints the caught error, with a
    display callback that raises it shows nothing and the loop prints. *)
Example poll_cycle_outputs :
  (loop_turn Scenario.sd0 Scenario.today0 Scenario.dm0 Scenario.engine_hoarse).2
  = [mkEntry (Some ("P20250102080000", "V20250106091500"))
       (Displayed (completion_message "Asha" "Dr. Smith"));
     mkEntry (Some ("P20250102080000", "V20250106091500"))
       (Printed "TTS error: sink down")]
  ∧ (loop_turn Scenario.sd0 Scenario.today0 Scenario.dm0 Scenario.engine0).2
    = [mkEntry (Some ("P20250102080000", "V20250106091500"))
         (Displayed (completion_message "Asha" "Dr. Smith"));
       mkEntry (Some ("P20250102080000", "V20250106091500"))
         (Spoken (completion_message "Asha" "Dr. Smith"))]
  ∧ (loop_turn Scenario.sd0 Scenario.today0 Scenario.dm0 Scenario.engine_blind).2
    = [mkEntry None (Printed "Error in announcement loop: sink down")].
Proof. vm_compute. repeat split. Qed.

Lemma shown_app log log' : shown (log ++ log') = (shown log + shown log')%nat.
Proof. unfold shown. by rewrite List.filter_app, length_app. Qed.

Lemma shown_in_turn visit self message :
  shown (in_turn_of visit (Displayed message :: speak_guarded self message)) = 1%nat.
Proof.
  unfold shown, in_turn_of. simpl. f_equal.
  destruct (speak_guarded_cases self message) as [->|[->|[e He]]]; try done.
  by rewrite (speak_guarded_fails self message e He).
Qed.

Lemma announce_visits_counts dm visits self :
  size (announced_patients (announce_visits dm visits self).1.2)
  = (size (announced_patients self) + shown (announce_visits dm visits self).2)%nat.
Proof.
  revert self. induction visits as [|visit rest IH]; intros self.
  - unfold shown. simpl. lia.
  - destruct (turn_cases dm visit self)
      as [Hs|(p & Hk & Hp & [[e Hc]|[r0 Hc]])].
    + rewrite announce_visits_skip by done. apply IH.
    + rewrite (announce_visits_raise dm visit rest self p e) by done.
      unfold shown. simpl. lia.
    + rewrite (announce_visits_deliver dm visit rest self p r0) by done.
      cbn [fst snd]. rewrite IH, shown_app, shown_in_turn. simpl.
      rewrite size_union by (by apply disjoint_singleton_l).
      rewrite size_singleton. lia.
Qed.

Lemma loop_turn_counts sd today dm self :
  size (announced_patients (loop_turn sd today dm self).1)
  = (size (announced_patients self) + shown (loop_turn sd today dm self).2)%nat.
Proof.
  unfold loop_turn, _check_and_announce_completed_patients.
  destruct (Store.get_todays_opd_visits sd today dm) as [vs|e]; simpl.
  2:{ unfold shown. simpl. lia. }
  set (completed := List.filter _ vs).
  pose proof (announce_visits_counts dm completed self) as H.
  destruct (announce_visits dm completed self) as [[[r|e] s] log]; simpl in *; [done|].
  rewrite shown_app. unfold shown at 2. simpl. lia.
Qed.

(** X8.  A run of the background loop changes nothing of what
    [get_announcement_status] reports but the count of announced keys, and
    that count grows by exactly the number of messages the display sink
    has shown during the run: every message shown adds one new key, and
    no key is added without its message shown. *)
Theorem announced_today_counts_messages (sd : string → result Z)
    (wakes : list (Z * Store.DataManager)) (self : AnnouncementSystem) :
  let out := _announcement_loop sd wakes self in
  let before := get_announcement_status self in
  let after := get_announcement_status out.1 in
  status_announced_today after = (status_announced_today before + shown out.2)%nat ∧
  status_is_running after = status_is_running before ∧
  status_tts_available after = status_tts_available before ∧
  status_announcement_interval after = status_announcement_interval before ∧
  status_pending_announcements after = status_pending_announcements before.
Proof.
  intros out before after. split.
  - subst out before after. simpl.
    revert self. induction wakes as [|[today dm] later IH]; intros self; simpl.
    + unfold shown. simpl. lia.
    + destruct (is_running self); [|unfold shown; simpl; lia].
      pose proof (loop_turn_counts sd today dm self) as H1.
      destruct (loop_turn sd today dm self) as [s1 log1]. simpl in *.
      pose proof (IH s1) as H2.
      destruct (_announcement_loop sd later s1) as [s2 log2]. simpl in *.
      rewrite shown_app. lia.
  - pose proof (announcement_loop_frame sd wakes self) as [Heq _].
    subst after before. fold out in Heq. rewrite Heq. done.
Qed.

(** X9.  [test_announcement] tells its caller what happened: it raises
    when the display callback raises, and otherwise returns [False]
    exactly when the speech engine is in use and raised, [True] when there
    is no speech engine or it spoke.  The display callback gets the text
    with the prefix ["TEST: "], the speech engine the text without it. *)
Theorem test_announcement_outcome (self : AnnouncementSystem) (test_message : option string) :
  let message :=
    str_or test_message
      "This is a test announcement. The announcement system is working properly." in
  let outcome := test_announcement self test_message in
  (∀ e, announcement_callback self ("TEST: " +:+ message) = Raise e →
        outcome = (Raise e, [])) ∧
  (∀ r0, announcement_callback self ("TEST: " +:+ message) = Ok r0 →
         (outcome.1 = Ok false ↔ ∃ e, speech_fails self message e)
         ∧ (outcome.1 = Ok true ↔ speech_fine self message)
         ∧ ∃ rest, outcome.2 = Displayed ("TEST: " +:+ message) :: rest
                   ∧ (rest = [] ∨ rest = [Spoken message]
                      ∨ ∃ e, rest = [Printed ("TTS test failed: " +:+ exn_text e)])).
Proof.
  intros message outcome.
  assert (outcome
          = match announcement_callback self ("TEST: " +:+ message) with
            | Raise e => (Raise e, [])
            | Ok _ =>
                if tts_available self then
                  match tts_engine self with
                  | Some engine =>
                      match engine message with
                      | Ok _ => (Ok true, [Displayed ("TEST: " +:+ message); Spoken message])
                      | Raise e => (Ok false, [Displayed ("TEST: " +:+ message);
                                               Printed ("TTS test failed: " +:+ exn_text e)])
                      end
                  | None => (Ok true, [Displayed ("TEST: " +:+ message)])
                  end
                else (Ok true, [Displayed ("TEST: " +:+ message)])
            end) as ->.
  { subst outcome message. unfold test_announcement, str_or.
    by destruct test_message as [m|]. }
  split.
  - by intros e ->.
  - intros r0 ->. unfold speech_fine, speech_fails.
    destruct (tts_available self) eqn:Ha.
    2:{ simpl. split; [|split].
        - split; [done|]. by intros (e & ? & _).
        - split; [|done]. intros _ e (? & _). done.
        - eexists. split; [done|]. by left. }
    destruct (tts_engine self) as [engine|] eqn:He.
    2:{ simpl. split; [|split].
        - split; [done|]. by intros (e & _ & eng & ? & _).
        - split; [|done]. intros _ e (_ & eng & ? & _). done.
        - eexists. split; [done|]. by left. }
    destruct (engine message) as [u|e] eqn:Em; simpl.
    + split; [|split].
      * split; [done|]. intros (e & _ & eng & [= <-] & Hr). congruence.
      * split; [|done]. intros _ e (_ & eng & [= <-] & Hr). congruence.
      * eexists. split; [done|]. right. by left.
    + split; [|split].
      * split; [|done]. intros _. exists e. split; [done|]. by exists engine.
      * split; [done|]. intros H. exfalso. apply (H e). split; [done|]. by exists engine.
      * eexists. split; [done|]. right. right. by exists e.
Qed.

End EngineMore.

(** * More about the announcement queue *)

Section QueueMore.
Import AnnouncementQueue.

Lemma filter_split_length {A} (f : A → bool) (l : list A) :
  (length (List.filter f l) + length (List.filter (fun x => negb (f x)) l))%nat = length l.
Proof.
  induction l as [|x l IH]; simpl; [done|].
  destruct (f x); simpl; lia.
Qed.

Lemma first_pending_None (l : list Item) :
  first_pending l = None ↔ List.filter (fun x => negb (announced x)) l = [].
Proof.
  induction l as [|x l IH]; simpl; [done|].
  destruct (announced x); simpl; [done|]. split; done.
Qed.

Lemma pending_is_unannounced (self : Queue) :
  pending (get_queue_status self)
  = Z.of_nat (length (List.filter (fun x => negb (announced x)) (queue self))).
Proof.
  simpl. pose proof (filter_split_length announced (queue self)) as H. lia.
Qed.

(** X10.  The figures of [get_queue_status] add up: total is announced
    plus pending, pending is the number of items with [announced] false
    (never negative), and [get_next_announcement] finds nothing exactly
    when pending is 0. *)
Theorem queue_status_adds_up (self : Queue) :
  let st := get_queue_status self in
  Z.of_nat (total_in_queue st) = (Z.of_nat (announced_count st) + pending st)%Z ∧
  pending st
  = Z.of_nat (length (List.filter (fun x => negb (announced x)) (queue self))) ∧
  (0 <= pending st)%Z ∧
  (get_next_announcement self = None ↔ pending st = 0%Z) ∧
  queue_items st = queue self.
Proof.
  simpl. pose proof (filter_split_length announced (queue self)) as H.
  split; [lia|]. split; [lia|]. split; [lia|]. split; [|done].
  unfold get_next_announcement. rewrite first_pending_None.
  destruct (List.filter (fun x => negb (announced x)) (queue self)) eqn:E; simpl in *.
  - split; [lia|done].
  - split; [done|lia].
Qed.

Lemma mark_first_past_told pid now told l :
  Forall (fun x => announced x = true) told →
  mark_first pid now (told ++ l) = told ++ mark_first pid now l.
Proof.
  induction 1 as [|x told Hx Hall IH]; simpl; [done|].
  rewrite Hx, andb_false_r. by rewrite IH.
Qed.

(** X11.  Serving the queue: when [get_next_announcement] returns an
    item, [mark_announced] with that item's patient id flags that very
    item (and stamps it), leaves every other item as it is, lowers pending
    by one, and the next [get_next_announcement] looks behind it. *)
Theorem mark_next_announced (self : Queue) (item : Item) (now : Z) :
  get_next_announcement self = Some item →
  ∃ told rest,
    queue self = told ++ item :: rest
    ∧ Forall (fun x => announced x = true) told
    ∧ queue (mark_announced (patient_id item) now self) = told ++ marked now item :: rest
    ∧ pending (get_queue_status (mark_announced (patient_id item) now self))
      = (pending (get_queue_status self) - 1)%Z
    ∧ get_next_announcement (mark_announced (patient_id item) now self)
      = first_pending rest.
Proof.
  intros Hnext. unfold get_next_announcement in Hnext.
  destruct (first_pending_split (queue self))
    as [[Hn _]|(told & it & rest & Hq & Hall & Hi & Hf)]; [congruence|].
  rewrite Hf in Hnext. injection Hnext as ->.
  exists told, rest. split; [done|]. split; [done|].
  assert (queue (mark_announced (patient_id item) now self)
          = told ++ marked now item :: rest) as Hm.
  { simpl. rewrite Hq, mark_first_past_told by done. simpl.
    by rewrite str_eqb_refl, Hi. }
  split; [done|]. split.
  - rewrite !pending_is_unannounced.
    rewrite Hm, Hq, !List.filter_app, !length_app. simpl. rewrite Hi. simpl. lia.
  - unfold get_next_announcement. rewrite Hm.
    clear -Hall. induction Hall as [|x told Hx Hall IH]; simpl; [done|].
    by rewrite Hx.
Qed.

Lemma mark_next_announced_witness :
  let q := do_calls [AddToQueue "Ann" "P1" 0; AddToQueue "Bob" "P2" 5;
                     AddToQueue "Cy" "P1" 0] 100 new_queue in
  ∃ told rest,
    queue q = told ++ mkItem "Bob" "P2" 5 101 false None :: rest
    ∧ Forall (fun x => announced x = true) told
    ∧ queue (mark_announced "P2" 200 q)
      = told ++ marked 200 (mkItem "Bob" "P2" 5 101 false None) :: rest
    ∧ pending (get_queue_status (mark_announced "P2" 200 q))
      = (pending (get_queue_status q) - 1)%Z
    ∧ get_next_announcement (mark_announced "P2" 200 q) = first_pending rest.
Proof.
  intros q.
  apply (mark_next_announced q (mkItem "Bob" "P2" 5 101 false None) 200).
  reflexivity.
Defined.

Lemma filter_insert_by_priority_out (f : Item → bool) (item : Item) (l : list Item) :
  f item = false → List.filter f (insert_by_priority item l) = List.filter f l.
Proof.
  intros Hf. induction l as [|x l IH]; simpl.
  - by rewrite Hf.
  - destruct (priority item >? priority x)%Z; simpl.
    + by rewrite Hf.
    + by rewrite IH.
Qed.

Lemma List_filter_twice {A} (f : A → bool) (l : list A) :
  List.filter f (List.filter f l) = List.filter f l.
Proof.
  induction l as [|x l IH]; simpl; [done|].
  destruct (f x) eqn:E; simpl; [|exact IH]. by rewrite E, IH.
Qed.

Lemma length_insert_by_priority (item : Item) (l : list Item) :
  length (insert_by_priority item l) = S (length l).
Proof.
  induction l as [|x l IH]; simpl; [done|].
  destruct (priority item >? priority x)%Z; simpl; [done|]. by rewrite IH.
Qed.

(** X12.  [add_to_queue] makes the queue one item longer, and
    [remove_from_queue] takes out every item of the given patient id and
    nothing else, keeping the order: removing the id right after adding an
    item for it gives what removing it before the add gives (the queue
    itself when no item had that id), and removing twice is removing
    once. *)
Theorem remove_from_queue_undoes_add (self : Queue) (name pid : string) (prio now : Z) :
  length (queue (add_to_queue name pid prio now self)) = S (length (queue self)) ∧
  remove_from_queue pid (add_to_queue name pid prio now self) = remove_from_queue pid self ∧
  (Forall (fun x => patient_id x ≠ pid) (queue self) →
     remove_from_queue pid (add_to_queue name pid prio now self) = self) ∧
  Forall (fun x => patient_id x ≠ pid) (queue (remove_from_queue pid self)) ∧
  (∀ x, x ∈ queue (remove_from_queue pid self) ↔ x ∈ queue self ∧ patient_id x ≠ pid) ∧
  sublist (queue (remove_from_queue pid self)) (queue self) ∧
  remove_from_queue pid (remove_from_queue pid self) = remove_from_queue pid self.
Proof.
  assert (∀ x, x ∈ queue (remove_from_queue pid self) ↔ x ∈ queue self ∧ patient_id x ≠ pid)
    as Helem.
  { intros x. simpl. rewrite elem_of_List_filter, negb_true_iff, str_eqb_false. done. }
  assert (remove_from_queue pid (add_to_queue name pid prio now self)
          = remove_from_queue pid self) as Hundo.
  { unfold remove_from_queue, add_to_queue. simpl. f_equal.
    apply filter_insert_by_priority_out. simpl. by rewrite str_eqb_refl. }
  split; [apply length_insert_by_priority|]. split; [done|].
  split; [|split; [|split; [done|split]]].
  - intros Hall. rewrite Hundo. unfold remove_from_queue.
    replace (List.filter _ (queue self)) with (queue self); [by destruct self|].
    clear -Hall. induction Hall as [|x l Hx Hall IH]; simpl; [done|].
    apply str_eqb_false in Hx. rewrite Hx. simpl. by rewrite <- IH.
  - apply Forall_forall. intros x Hx. by apply Helem in Hx as [_ ?].
  - apply List_filter_sublist.
  - unfold remove_from_queue. simpl. f_equal. apply List_filter_twice.
Qed.

End QueueMore.

(** * More about appointments and the slot calculator *)

Section AppointmentMore.
Import AppointmentModel.

(** X13.  Writing an appointment with [to_dict] and reading it back with
    [from_dict] gives the same appointment when its [appointment_id] is not
    empty; with an empty id it is read back under a newly generated id
    ["A" + stamp].  A dict without the key ['created_date'] is read with
    the current time as creation date, and one without ['status'] as
    ["Scheduled"]. *)
Theorem appointment_dict_round_trip (stamp now_text : string) (self : Appointment) :
  (appointment_id self ≠ "" → from_dict stamp now_text (to_dict self) = self) ∧
  (appointment_id self = "" →
     appointment_id (from_dict stamp now_text (to_dict self))
     = generate_appointment_id stamp) ∧
  (∀ data, appointment_id (from_dict stamp now_text data) ≠ "") ∧
  (∀ data, d_created_date data = None →
           created_date (from_dict stamp now_text data) = now_text) ∧
  (∀ data, d_status data = None → status (from_dict stamp now_text data) = "Scheduled").
Proof.
  split; [|split; [|split; [|split]]].
  - intros Hid. apply str_eqb_false in Hid.
    unfold from_dict, to_dict, str_or. simpl. rewrite Hid. by destruct self.
  - intros Hid. simpl. by rewrite Hid.
  - intros data. simpl. by apply str_or_never_empty.
  - intros data H. simpl. by rewrite H.
  - intros data H. simpl. by rewrite H.
Qed.

Lemma appointment_dict_round_trip_witness :
  from_dict "20250106101500" "2025-01-06 10:15:00"
    (to_dict (mkAppointment "A20250105120000" "P1" "Dr. Brown" "Orthopedics"
                "2025-01-08" "14:00" "Scheduled" "" "2025-01-05 12:00:00"))
  = mkAppointment "A20250105120000" "P1" "Dr. Brown" "Orthopedics"
      "2025-01-08" "14:00" "Scheduled" "" "2025-01-05 12:00:00".
Proof.
  apply (proj1 (appointment_dict_round_trip "20250106101500" "2025-01-06 10:15:00"
                  (mkAppointment "A20250105120000" "P1" "Dr. Brown" "Orthopedics"
                     "2025-01-08" "14:00" "Scheduled" "" "2025-01-05 12:00:00"))).
  discriminate.
Defined.

Lemma List_filter_filter {A} (f g : A → bool) (l : list A) :
  List.filter f (List.filter g l) = List.filter (fun x => g x && f x) l.
Proof.
  induction l as [|x l IH]; simpl; [done|].
  destruct (g x); simpl; [|done]. destruct (f x); by rewrite IH.
Qed.

Lemma elem_of_available dname date existing s :
  s ∈ get_available_slots dname date existing
  ↔ s ∈ find_doctor_slots DEFAULT_DOCTORS dname
    ∧ ∀ a, a ∈ existing → ¬ blocks dname date s a.
Proof.
  unfold get_available_slots. rewrite get_available_slots_in_eq. unfold availableSlots.
  rewrite elem_of_List_filter, negb_true_iff, <- not_true_iff_false, existsb_exists.
  split; intros [Hs Hn]; (split; [done|]).
  - intros a Ha Hb. apply Hn. exists a. by rewrite <- list_elem_of_In, blocksb_spec.
  - intros (a & Ha & Hb). apply (Hn a); [by apply list_elem_of_In|]. by apply blocksb_spec.
Qed.

(** X14.  Booking takes exactly one slot: one more appointment of the
    doctor on the date with status Scheduled or Completed removes its time
    from the available slots and leaves the others, in order; one of
    another doctor or another date changes nothing.  The answer depends
    only on which appointments exist, not on their order in the file, and
    further appointments never make a slot available. *)
Theorem booking_takes_the_slot (dname date : string) (existing : list Appointment)
    (a : Appointment) :
  let available := get_available_slots dname date existing in
  (doctor_name a = dname → appointment_date a = date →
   status a = "Scheduled" ∨ status a = "Completed" →
     get_available_slots dname date (a :: existing)
     = List.filter (fun s => negb (str_eqb (appointment_time a) s)) available) ∧
  (doctor_name a ≠ dname ∨ appointment_date a ≠ date →
     get_available_slots dname date (a :: existing) = available) ∧
  (∀ existing', (∀ x, x ∈ existing ↔ x ∈ existing') →
     get_available_slots dname date existing' = available) ∧
  (∀ more s, s ∈ get_available_slots dname date (more ++ existing) → s ∈ available).
Proof.
  intros available. subst available. unfold get_available_slots.
  rewrite !get_available_slots_in_eq. unfold availableSlots.
  split; [|split; [|split]].
  - intros Hd Hdate Hst.
    rewrite List_filter_filter. apply List_filter_ext_elem. intros s _. simpl.
    assert (blocksb dname date s a = str_eqb (appointment_time a) s) as ->.
    { unfold blocksb. rewrite Hd, Hdate, !str_eqb_refl. simpl.
      destruct Hst as [-> | ->]; by rewrite ?str_eqb_refl, ?orb_true_r. }
    rewrite negb_orb. apply andb_comm.
  - intros Hother.
    apply List_filter_ext_elem. intros s _. simpl.
    replace (blocksb dname date s a) with false; [done|].
    symmetry. apply not_true_iff_false. rewrite blocksb_spec.
    intros (? & ? & _). destruct Hother; done.
  - intros existing' Hsame. rewrite get_available_slots_in_eq. unfold availableSlots.
    apply List_filter_ext_elem. intros s _. f_equal. apply eq_true_iff_eq.
    rewrite !existsb_exists. split; intros (x & Hx & Hb); exists x; (split; [|done]).
    + by apply list_elem_of_In, Hsame, list_elem_of_In.
    + by apply list_elem_of_In, Hsame, list_elem_of_In.
  - intros more s. rewrite get_available_slots_in_eq. unfold availableSlots.
    rewrite !elem_of_List_filter, !negb_true_iff, existsb_app, orb_false_iff.
    tauto.
Qed.

Lemma has_conflict_spec existing a :
  has_conflict existing a = true ↔
  ∃ x, x ∈ existing ∧ appointment_id x ≠ appointment_id a
       ∧ blocks (doctor_name a) (appointment_date a) (appointment_time a) x.
Proof.
  induction existing as [|y rest IH]; simpl.
  - split; [done|]. intros (x & Hx & _). by apply elem_of_nil in Hx.
  - destruct (negb (str_eqb (appointment_id y) (appointment_id a))
              && str_eqb (doctor_name y) (doctor_name a)
              && str_eqb (appointment_date y) (appointment_date a)
              && str_eqb (appointment_time y) (appointment_time a)
              && str_in (status y) ["Scheduled"; "Completed"]) eqn:E.
    + split; [|done]. intros _. exists y.
      rewrite !andb_true_iff, negb_true_iff, str_eqb_false, !str_eqb_true,
        status_in_booking_statuses in E.
      destruct E as [[[[? ?] ?] ?] ?].
      split; [apply list_elem_of_here|]. split; [done|]. by unfold blocks.
    + rewrite IH. split.
      * intros (x & Hx & H). exists x. split; [by apply list_elem_of_further|done].
      * intros (x & Hx & Hid & Hd & Hdate & Hst & Ht).
        apply elem_of_cons in Hx as [->|Hx]; [|by exists x].
        exfalso. apply not_true_iff_false in E. apply E.
        rewrite !andb_true_iff, negb_true_iff, str_eqb_false, !str_eqb_true,
          status_in_booking_statuses.
        done.
Qed.

(** X15.  The conflict check made before an appointment is saved agrees
    with the slot calculator.  When the check reports a conflict, the
    appointment's time is not among the available slots of its doctor and
    date.  For an appointment whose id no stored appointment has, at a
    time of the doctor's template, the check passes exactly when the time
    is available.  An appointment never conflicts with the stored
    appointment of its own id. *)
Theorem conflict_check_matches_availability (existing : list Appointment)
    (a : Appointment) :
  let available :=
    get_available_slots (doctor_name a) (appointment_date a) existing in
  (has_conflict existing a = true → appointment_time a ∉ available) ∧
  ((∀ x, x ∈ existing → appointment_id x ≠ appointment_id a) →
   appointment_time a ∈ find_doctor_slots DEFAULT_DOCTORS (doctor_name a) →
     (has_conflict existing a = false ↔ appointment_time a ∈ available)) ∧
  has_conflict existing a
  = has_conflict
      (List.filter (fun x => negb (str_eqb (appointment_id x) (appointment_id a))) existing)
      a.
Proof.
  intros available. subst available. split; [|split].
  - intros Hc. apply has_conflict_spec in Hc as (x & Hx & _ & Hb).
    rewrite elem_of_available. intros [_ Hn]. by apply (Hn x).
  - intros Hnew Htpl. rewrite <- not_true_iff_false, has_conflict_spec, elem_of_available.
    split.
    + intros Hn. split; [done|]. intros x Hx Hb. apply Hn. exists x.
      split; [done|]. split; [by apply Hnew|done].
    + intros [_ Hn] (x & Hx & _ & Hb). by apply (Hn x).
  - apply eq_true_iff_eq. rewrite !has_conflict_spec.
    split; intros (x & Hx & Hid & Hb); exists x; (split; [|done]).
    + apply elem_of_List_filter. split; [done|]. by rewrite negb_true_iff, str_eqb_false.
    + by apply elem_of_List_filter in Hx as [? _].
Qed.




(** Beside the booked slot the view can show a cancelled appointment: it
    takes the first stored one of the doctor and time. *)
Example schedule_view_shows_first_stored :
  let appointments :=
    [mkAppointment "A1" "P1" "Dr. Brown" "Orthopedics" "2025-01-08" "14:00" "Cancelled" "" "";
     mkAppointment "A2" "P2" "Dr. Brown" "Orthopedics" "2025-01-08" "14:00" "Scheduled" "" ""] in
  (patient_id <$> slot_appointment (get_appointments_by_date appointments "2025-01-08")
                    "Dr. Brown" "14:00") = Some "P1".
Proof. reflexivity. Qed.


Lemma timedelta_parts (diff : Z) :
  (0 <= diff)%Z →
  let days := (diff / 86400000000)%Z in
  let seconds := ((diff mod 86400000000) / 1000000)%Z in
  (0 <= days)%Z ∧
  (diff < 86400000000 → days = 0 ∧ seconds / 3600 = diff / 3600000000)%Z ∧
  (diff < 3600000000 → (seconds mod 3600) / 60 = diff / 60000000)%Z.
Proof.
  intros Hd days seconds. subst days seconds. split; [|split].
  - apply Z.div_pos; lia.
  - intros Hlt. rewrite Z.mod_small by lia. split.
    + apply Z.div_small. lia.
    + rewrite Z.div_div by lia. done.
  - intros Hlt. rewrite (Z.mod_small diff) by lia.
    rewrite (Z.mod_small (diff / 1000000)).
    + rewrite Z.div_div by lia. done.
    + split; [apply Z.div_pos; lia|]. apply Z.div_lt_upper_bound; lia.
Qed.

(** X17.  [time_until_appointment] raises when date and time do not parse.
    Otherwise, with [left] the time from now to the appointment: it is
    ["Past"] exactly when [left] is negative, counts whole days when at
    least a day is left, whole hours (1 to 23) when less than a day but at
    least an hour is left, and whole minutes (0 to 59) when less than an
    hour is left, so an appointment less than a minute away, or starting
    right now, is ["0 minute(s)"]. *)
Theorem time_until_appointment_ranges (strptime_minute : string → result Z)
    (now_us : Z) (self : Appointment) :
  match get_datetime strptime_minute self with
  | Raise e => time_until_appointment strptime_minute now_us self = Raise e
  | Ok at_seconds =>
      let left := (at_seconds * 1000000 - now_us)%Z in
      let answer := time_until_appointment strptime_minute now_us self in
      (left < 0 → answer = Ok "Past")%Z ∧
      (86400000000 <= left →
         answer = Ok (pretty (left / 86400000000)%Z +:+ " day(s)")
         ∧ 1 <= left / 86400000000)%Z ∧
      (3600000000 <= left < 86400000000 →
         answer = Ok (pretty (left / 3600000000)%Z +:+ " hour(s)")
         ∧ 1 <= left / 3600000000 < 24)%Z ∧
      (0 <= left < 3600000000 →
         answer = Ok (pretty (left / 60000000)%Z +:+ " minute(s)")
         ∧ 0 <= left / 60000000 < 60)%Z
  end.
Proof.
  unfold time_until_appointment.
  destruct (get_datetime strptime_minute self) as [at_seconds|e]; [|done].
  set (left := (at_seconds * 1000000 - now_us)%Z).
  split; [|split; [|split]].
  - intros Hneg.
    assert ((at_seconds * 1000000 <? now_us)%Z = true) as -> by (apply Z.ltb_lt; lia).
    done.
  - intros Hday.
    assert ((at_seconds * 1000000 <? now_us)%Z = false) as -> by (apply Z.ltb_ge; lia).
    assert (1 <= left / 86400000000)%Z as Hd by (apply Z.div_le_lower_bound; lia).
    assert ((left / 86400000000 >? 0)%Z = true) as -> by (apply Z.gtb_lt; lia).
    done.
  - intros [Hlo Hhi].
    assert ((at_seconds * 1000000 <? now_us)%Z = false) as -> by (apply Z.ltb_ge; lia).
    destruct (timedelta_parts left) as (_ & Hparts & _); [lia|].
    destruct (Hparts Hhi) as [-> ->]. simpl.
    assert (1 <= left / 3600000000)%Z as Hh by (apply Z.div_le_lower_bound; lia).
    assert (left / 3600000000 < 24)%Z as Hh' by (apply Z.div_lt_upper_bound; lia).
    assert ((left / 3600000000 >? 0)%Z = true) as -> by (apply Z.gtb_lt; lia).
    done.
  - intros [Hlo Hhi].
    assert ((at_seconds * 1000000 <? now_us)%Z = false) as -> by (apply Z.ltb_ge; lia).
    destruct (timedelta_parts left) as (_ & Hparts & Hmin); [lia|].
    destruct Hparts as [-> ->]; [lia|]. rewrite Hmin by lia. simpl.
    assert (left / 3600000000 = 0)%Z as -> by (apply Z.div_small; lia). simpl.
    split; [done|]. split; [apply Z.div_pos; lia|apply Z.div_lt_upper_bound; lia].
Qed.

Example time_until_examples :
  let parse := fun text : string =>
    if str_eqb text "2025-01-08 14:00" then Ok 1000000%Z
    else Raise (Exception "unconverted data") in
  let appt := mkAppointment "A1" "P1" "Dr. Brown" "Orthopedics" "2025-01-08" "14:00"
                "Scheduled" "" "" in
  time_until_appointment parse (1000000 * 1000000) appt = Ok "0 minute(s)"
  ∧ time_until_appointment parse (1000000 * 1000000 + 1) appt = Ok "Past"
  ∧ time_until_appointment parse ((1000000 - 59) * 1000000) appt = Ok "0 minute(s)"
  ∧ time_until_appointment parse ((1000000 - 7199) * 1000000) appt = Ok "1 hour(s)"
  ∧ time_until_appointment parse ((1000000 - 200000) * 1000000) appt = Ok "2 day(s)"
  ∧ time_until_appointment parse 0
      (mkAppointment "A1" "P1" "Dr. Brown" "Orthopedics" "soon" "14:00" "Scheduled" "" "")
    = Raise (Exception "unconverted data").
Proof. vm_compute. repeat split. Qed.

End AppointmentMore.

(** * The data manager on its files *)

Section DiskFacts.
Import Disk.

Variables stamp now_text : string.

#[local] Arguments Store.from_dict _ _ _ : simpl never.
#[local] Arguments Store.to_dict _ : simpl never.
#[local] Arguments OPD.from_dict _ _ _ : simpl never.
#[local] Arguments OPD.to_dict _ : simpl never.

Local Abbreviation fd := (Store.from_dict stamp now_text).
Local Abbreviation upsert l p :=
  (match replace_patient l p with
   | Some replaced => replaced
   | None => l ++ [Store.to_dict p]
   end).
Local Abbreviation has_id :=
  (fun d : Store.PatientDict => ∃ pid, Store.d_patient_id d = Some pid ∧ pid ≠ "").

Lemma patient_round_trip (p : Store.Patient) :
  Store.patient_id p ≠ "" → Store.registration_date p ≠ "" → fd (Store.to_dict p) = p.
Proof.
  intros Hid Hreg. apply str_eqb_false in Hid, Hreg.
  unfold Store.from_dict, Store.to_dict, str_or. simpl. rewrite Hid, Hreg. by destruct p.
Qed.

Lemma effective_id (d : Store.PatientDict) (pid : string) :
  Store.d_patient_id d = Some pid → pid ≠ "" → Store.patient_id (fd d) = pid.
Proof.
  intros Hd Hne. unfold Store.from_dict. simpl. rewrite Hd. by apply str_or_nonempty.
Qed.

Lemma first_patient_with_id_Some patients pid p :
  Store.first_patient_with_id patients pid = Some p →
  p ∈ patients ∧ Store.patient_id p = pid.
Proof.
  induction patients as [|x rest IH]; simpl; [done|].
  destruct (str_eqb (Store.patient_id x) pid) eqn:E.
  - intros [= <-]. apply str_eqb_true in E. split; [apply list_elem_of_here|done].
  - intros H. destruct (IH H) as [? ?]. split; [by apply list_elem_of_further|done].
Qed.

Lemma first_patient_with_id_None patients pid :
  Store.first_patient_with_id patients pid = None ↔
  ∀ p, p ∈ patients → Store.patient_id p ≠ pid.
Proof.
  induction patients as [|x rest IH]; simpl.
  - split; [|done]. intros _ p Hp. by apply elem_of_nil in Hp.
  - destruct (str_eqb (Store.patient_id x) pid) eqn:E.
    + apply str_eqb_true in E. split; [done|]. intros H.
      exfalso. by apply (H x); [apply list_elem_of_here|].
    + apply str_eqb_false in E. rewrite IH. split.
      * intros H p Hp. apply elem_of_cons in Hp as [->|Hp]; [done|by apply H].
      * intros H p Hp. apply H. by apply list_elem_of_further.
Qed.

Lemma lookup_after_upsert (l : list Store.PatientDict) (p : Store.Patient) :
  Forall has_id l → fd (Store.to_dict p) = p →
  Store.first_patient_with_id (map fd (upsert l p)) (Store.patient_id p) = Some p.
Proof.
  intros Hall Hrt.
  induction Hall as [|d rest (did & Hd & Hne) Hall IH].
  - cbn [replace_patient app map Store.first_patient_with_id].
    rewrite Hrt. by rewrite str_eqb_refl.
  - cbn [replace_patient].
    destruct (bool_decide (Store.d_patient_id d = Some (Store.patient_id p))) eqn:E.
    + cbn [map Store.first_patient_with_id]. rewrite Hrt. by rewrite str_eqb_refl.
    + apply bool_decide_eq_false in E.
      assert (str_eqb (Store.patient_id (fd d)) (Store.patient_id p) = false) as Hother.
      { apply str_eqb_false. rewrite (effective_id d did Hd Hne). congruence. }
      destruct (replace_patient rest p) as [replaced|];
        cbn [fmap option_fmap option_map map Store.first_patient_with_id app] in *;
        by rewrite Hother.
Qed.

Lemma lookup_other_after_upsert (l : list Store.PatientDict) (p : Store.Patient)
    (pid' : string) :
  Store.patient_id p ≠ "" → pid' ≠ Store.patient_id p →
  Store.first_patient_with_id (map fd (upsert l p)) pid'
  = Store.first_patient_with_id (map fd l) pid'.
Proof.
  intros Hne Hother.
  assert (str_eqb (Store.patient_id (fd (Store.to_dict p))) pid' = false) as Hnew.
  { apply str_eqb_false.
    rewrite (effective_id (Store.to_dict p) (Store.patient_id p)); [congruence|done|done]. }
  induction l as [|d rest IH].
  - cbn [replace_patient app map Store.first_patient_with_id]. by rewrite Hnew.
  - cbn [replace_patient].
    destruct (bool_decide (Store.d_patient_id d = Some (Store.patient_id p))) eqn:E.
    + apply bool_decide_eq_true in E.
      cbn [map Store.first_patient_with_id]. rewrite Hnew.
      rewrite (effective_id d _ E Hne).
      assert (str_eqb (Store.patient_id p) pid' = false) as ->
        by (apply str_eqb_false; congruence).
      done.
    + destruct (replace_patient rest p) as [replaced|];
        cbn [fmap option_fmap option_map map Store.first_patient_with_id app] in *;
        by rewrite IH.
Qed.

Lemma upsert_keeps_ids (l : list Store.PatientDict) (p : Store.Patient) :
  Store.patient_id p ≠ "" → Forall has_id l → Forall has_id (upsert l p).
Proof.
  intros Hne Hall.
  assert (has_id (Store.to_dict p)) as Hp by (by exists (Store.patient_id p)).
  induction Hall as [|d rest Hd Hall IH]; simpl.
  - by repeat constructor.
  - destruct (bool_decide _); [by constructor|].
    destruct (replace_patient rest p) as [replaced|]; simpl in *; by constructor.
Qed.

Lemma upsert_twice (l : list Store.PatientDict) (p : Store.Patient) :
  replace_patient (upsert l p) p = Some (upsert l p).
Proof.
  induction l as [|d rest IH]; simpl.
  - by rewrite bool_decide_eq_true_2.
  - destruct (bool_decide (Store.d_patient_id d = Some (Store.patient_id p))) eqn:E.
    + simpl. by rewrite bool_decide_eq_true_2.
    + destruct (replace_patient rest p) as [replaced|] eqn:Er; simpl in *.
      * by rewrite E, IH.
      * by rewrite E, IH.
Qed.

Lemma upsert_length (l : list Store.PatientDict) (p : Store.Patient) :
  length (upsert l p)
  = match replace_patient l p with
    | Some _ => length l
    | None => S (length l)
    end.
Proof.
  assert (∀ r, replace_patient l p = Some r → length r = length l) as Hlen.
  { induction l as [|d rest IH]; simpl; [done|].
    destruct (bool_decide _); [by intros r [= <-]|].
    destruct (replace_patient rest p) as [replaced|]; simpl; [|done].
    intros r [= <-]. simpl. f_equal. by apply IH. }
  destruct (replace_patient l p) as [r|]; [by apply Hlen|].
  rewrite length_app. simpl. lia.
Qed.

(** X18.  Over a patients file whose dicts all carry a non-empty id, a
    successful [save_patient] of a patient with non-empty id and
    registration date returns [True]; [get_patient_by_id] with that id then
    returns the patient saved, and with any other id what it returned
    before.  The file stays one of dicts with ids, it grows by one dict
    exactly when no dict had the id, and saving the same patient again
    changes nothing. *)
Theorem save_patient_then_get (patient : Store.Patient) (files : Files) :
  patients_have_ids files →
  Store.patient_id patient ≠ "" →
  Store.registration_date patient ≠ "" →
  let saved := save_patient Written patient files in
  saved.1 = true ∧
  get_patient_by_id stamp now_text saved.2 (Store.patient_id patient) = Some patient ∧
  (∀ pid', pid' ≠ Store.patient_id patient →
     get_patient_by_id stamp now_text saved.2 pid'
     = get_patient_by_id stamp now_text files pid') ∧
  patients_have_ids saved.2 ∧
  length (patients_file saved.2)
  = match replace_patient (patients_file files) patient with
    | Some _ => length (patients_file files)
    | None => S (length (patients_file files))
    end ∧
  save_patient Written patient saved.2 = (true, saved.2) ∧
  appointments_file saved.2 = appointments_file files ∧
  opd_visits_file saved.2 = opd_visits_file files.
Proof.
  intros Hids Hid Hreg saved.
  split; [done|]. split; [|split; [|split; [|split; [|split; [|done]]]]].
  - apply lookup_after_upsert; [done|]. by apply patient_round_trip.
  - intros pid' Hother. by apply lookup_other_after_upsert.
  - by apply upsert_keeps_ids.
  - apply upsert_length.
  - unfold save_patient at 1. cbn [patients_file saved snd save_patient _save_json_file].
    by rewrite upsert_twice.
Qed.

(** X19.  Over a patients file whose dicts all carry a non-empty id, after
    a successful [delete_patient] no patient is found under the id,
    patients of other ids are found as before, and the appointments and
    visits files are untouched: the visits of the deleted patient are
    still returned by [get_patient_opd_history]. *)
Theorem delete_patient_then_get (pid : string) (files : Files) :
  patients_have_ids files →
  let deleted := delete_patient Written pid files in
  deleted.1 = true ∧
  get_patient_by_id stamp now_text deleted.2 pid = None ∧
  (∀ pid', pid' ≠ pid →
     get_patient_by_id stamp now_text deleted.2 pid'
     = get_patient_by_id stamp now_text files pid') ∧
  patients_have_ids deleted.2 ∧
  get_patient_opd_history stamp now_text deleted.2 pid
  = get_patient_opd_history stamp now_text files pid ∧
  appointments_file deleted.2 = appointments_file files.
Proof.
  intros Hids deleted.
  split; [done|]. split; [|split; [|split; [|done]]].
  - apply first_patient_with_id_None. intros p Hp.
    unfold read_back, get_patients in Hp. simpl in Hp.
    apply list_elem_of_fmap in Hp as (d & -> & Hd).
    apply elem_of_List_filter in Hd as [Hd Hkeep].
    rewrite negb_true_iff, bool_decide_eq_false in Hkeep.
    unfold patients_have_ids in Hids. rewrite Forall_forall in Hids.
    destruct (Hids d Hd) as (did & Hdid & Hne).
    rewrite (effective_id d did Hdid Hne). congruence.
  - intros pid' Hother. unfold get_patient_by_id, Store.get_patient_by_id. simpl.
    unfold get_patients. simpl.
    unfold patients_have_ids in Hids.
    induction Hids as [|d rest (did & Hdid & Hne) Hall IH]; simpl; [done|].
    destruct (bool_decide (Store.d_patient_id d = Some pid)) eqn:E; simpl.
    + apply bool_decide_eq_true in E.
      assert (did = pid) as -> by congruence.
      rewrite Hdid. rewrite str_or_nonempty by done.
      assert (str_eqb pid pid' = false) as -> by (apply str_eqb_false; congruence).
      done.
    + by rewrite IH.
  - unfold patients_have_ids in *. simpl. by apply List_filter_Forall.
Qed.

End DiskFacts.

Lemma save_patient_then_get_witness :
  Disk.get_patient_by_id "20250106101500" "2025-01-06 10:15:00"
    (Disk.save_patient Disk.Written (Scenario.patient_of "P20250102080000" "Asha")
       (Disk.mkFiles [Store.to_dict (Scenario.patient_of "P20250101070000" "Bea")] [] [])).2
    "P20250102080000"
  = Some (Scenario.patient_of "P20250102080000" "Asha").
Proof.
  apply (save_patient_then_get "20250106101500" "2025-01-06 10:15:00"
           (Scenario.patient_of "P20250102080000" "Asha")
           (Disk.mkFiles [Store.to_dict (Scenario.patient_of "P20250101070000" "Bea")] [] [])).
  - repeat constructor. eexists. split; [reflexivity|discriminate].
  - discriminate.
  - discriminate.
Defined.

Lemma delete_patient_then_get_witness :
  Disk.get_patient_by_id "20250106101500" "2025-01-06 10:15:00"
    (Disk.delete_patient Disk.Written "P20250101070000"
       (Disk.mkFiles [Store.to_dict (Scenario.patient_of "P20250101070000" "Bea")] [] [])).2
    "P20250101070000"
  = None.
Proof.
  apply (delete_patient_then_get "20250106101500" "2025-01-06 10:15:00" "P20250101070000"
           (Disk.mkFiles [Store.to_dict (Scenario.patient_of "P20250101070000" "Bea")] [] [])).
  repeat constructor. eexists. split; [reflexivity|discriminate].
Defined.

Section DiskVisits.
Import Disk.

Variables stamp now_text : string.

#[local] Arguments Store.from_dict _ _ _ : simpl never.
#[local] Arguments Store.to_dict _ : simpl never.
#[local] Arguments OPD.from_dict _ _ _ : simpl never.
#[local] Arguments OPD.to_dict _ : simpl never.

Local Abbreviation fd := (Store.from_dict stamp now_text).
Local Abbreviation fdv := (OPD.from_dict stamp now_text).
Local Abbreviation upsert l p :=
  (match replace_patient l p with
   | Some replaced => replaced
   | None => l ++ [Store.to_dict p]
   end).
Local Abbreviation upsertv l v :=
  (match replace_visit l v with
   | Some replaced => replaced
   | None => l ++ [OPD.to_dict v]
   end).
Local Abbreviation has_vid :=
  (fun d : OPD.VisitDict => ∃ vid, OPD.d_visit_id d = Some vid ∧ vid ≠ "").

Lemma visit_round_trip (v : OPD.OPDVisit) :
  OPD.visit_id v ≠ "" → OPD.visit_date v ≠ "" → fdv (OPD.to_dict v) = v.
Proof.
  intros Hid Hdate. apply str_eqb_false in Hid, Hdate.
  unfold OPD.from_dict, OPD.to_dict, str_or. simpl. rewrite Hid, Hdate. by destruct v.
Qed.

Lemma effective_visit_id (d : OPD.VisitDict) (vid : string) :
  OPD.d_visit_id d = Some vid → vid ≠ "" → OPD.visit_id (fdv d) = vid.
Proof.
  intros Hd Hne. unfold OPD.from_dict. simpl. rewrite Hd. by apply str_or_nonempty.
Qed.

Lemma lookup_visit_after_upsert (l : list OPD.VisitDict) (v : OPD.OPDVisit) :
  Forall has_vid l → fdv (OPD.to_dict v) = v →
  first_visit_with_id (map fdv (upsertv l v)) (OPD.visit_id v) = Some v.
Proof.
  intros Hall Hrt.
  induction Hall as [|d rest (did & Hd & Hne) Hall IH].
  - cbn [replace_visit app map first_visit_with_id].
    rewrite Hrt. by rewrite str_eqb_refl.
  - cbn [replace_visit].
    destruct (bool_decide (OPD.d_visit_id d = Some (OPD.visit_id v))) eqn:E.
    + cbn [map first_visit_with_id]. rewrite Hrt. by rewrite str_eqb_refl.
    + apply bool_decide_eq_false in E.
      assert (str_eqb (OPD.visit_id (fdv d)) (OPD.visit_id v) = false) as Hother.
      { apply str_eqb_false. rewrite (effective_visit_id d did Hd Hne). congruence. }
      destruct (replace_visit rest v) as [replaced|];
        cbn [fmap option_fmap option_map map first_visit_with_id app] in *;
        by rewrite Hother.
Qed.

Lemma upsertv_twice (l : list OPD.VisitDict) (v : OPD.OPDVisit) :
  replace_visit (upsertv l v) v = Some (upsertv l v).
Proof.
  induction l as [|d rest IH]; simpl.
  - by rewrite bool_decide_eq_true_2.
  - destruct (bool_decide (OPD.d_visit_id d = Some (OPD.visit_id v))) eqn:E.
    + simpl. by rewrite bool_decide_eq_true_2.
    + destruct (replace_visit rest v) as [replaced|] eqn:Er; simpl in *.
      * by rewrite E, IH.
      * by rewrite E, IH.
Qed.

(** A patient read from the file, with one more visit id, is written and
    read back unchanged. *)
Lemma patient_with_visit_is_stable (d : Store.PatientDict) (vid : string) :
  fd (Store.to_dict (with_visit vid (fd d))) = with_visit vid (fd d).
Proof.
  unfold Store.from_dict, Store.to_dict, with_visit. simpl. f_equal.
  - unfold str_or. destruct (Store.d_patient_id d) as [s|]; simpl.
    + destruct (str_eqb s "") eqn:E; simpl; [done|]. by rewrite E.
    + done.
  - unfold str_or. destruct (Store.d_registration_date d) as [s|]; simpl.
    + destruct (str_eqb s "") eqn:E; simpl.
      * by destruct (str_eqb now_text "").
      * by rewrite E.
    + by destruct (str_eqb now_text "").
Qed.

(** X20.  Over files whose patient and visit dicts all carry non-empty
    ids, a successful [save_opd_visit] of a visit with non-empty id and
    date returns [True] and makes [get_opd_visit_by_id] return the visit.
    When the visit's patient is on record, the patient's list of visit ids
    holds the visit's id afterwards, added at the end if it was missing
    and not added twice; when the patient is not on record, the patients
    file is untouched.  Saving the same visit again changes no file. *)
Theorem save_opd_visit_links_patient (visit : OPD.OPDVisit) (files : Files) :
  patients_have_ids files →
  visits_have_ids files →
  OPD.visit_id visit ≠ "" →
  OPD.visit_date visit ≠ "" →
  let saved := save_opd_visit stamp now_text Written Written visit files in
  saved.1 = true ∧
  get_opd_visit_by_id stamp now_text saved.2 (OPD.visit_id visit) = Some visit ∧
  (∀ patient,
     get_patient_by_id stamp now_text files (OPD.patient_id visit) = Some patient →
     ∃ patient',
       get_patient_by_id stamp now_text saved.2 (OPD.patient_id visit) = Some patient'
       ∧ OPD.visit_id visit ∈ Store.opd_visits patient'
       ∧ patient' = (if str_in (OPD.visit_id visit) (Store.opd_visits patient)
                     then patient
                     else with_visit (OPD.visit_id visit) patient)) ∧
  (get_patient_by_id stamp now_text files (OPD.patient_id visit) = None →
     patients_file saved.2 = patients_file files) ∧
  (save_opd_visit stamp now_text Written Written visit saved.2).2 = saved.2 ∧
  appointments_file saved.2 = appointments_file files.
Proof.
  intros Hpids Hvids Hid Hdate saved.
  assert (get_opd_visit_by_id stamp now_text saved.2 (OPD.visit_id visit) = Some visit)
    as Hget.
  { apply lookup_visit_after_upsert; [done|]. by apply visit_round_trip. }
  assert (∀ patient,
     get_patient_by_id stamp now_text files (OPD.patient_id visit) = Some patient →
     ∃ patient',
       get_patient_by_id stamp now_text saved.2 (OPD.patient_id visit) = Some patient'
       ∧ OPD.visit_id visit ∈ Store.opd_visits patient'
       ∧ patient' = (if str_in (OPD.visit_id visit) (Store.opd_visits patient)
                     then patient
                     else with_visit (OPD.visit_id visit) patient)) as Hlink.
  { intros patient Hp. subst saved. unfold save_opd_visit. rewrite Hp.
    destruct (str_in (OPD.visit_id visit) (Store.opd_visits patient)) eqn:Hin.
    - exists patient. split; [done|]. split; [by apply str_in_true|done].
    - exists (with_visit (OPD.visit_id visit) patient).
      split; [|split; [|done]].
      + apply first_patient_with_id_Some in Hp as [Hmem Hpid].
        unfold read_back, get_patients in Hmem. simpl in Hmem.
        apply list_elem_of_fmap in Hmem as (d & -> & Hd).
        rewrite <- Hpid.
        change (Store.patient_id (fd d))
          with (Store.patient_id (with_visit (OPD.visit_id visit) (fd d))).
        apply (lookup_after_upsert stamp now_text); [done|].
        apply patient_with_visit_is_stable.
      + simpl. apply elem_of_app. right. apply list_elem_of_here. }
  assert (get_patient_by_id stamp now_text files (OPD.patient_id visit) = None →
          patients_file saved.2 = patients_file files) as Hnone.
  { intros Hp. subst saved. unfold save_opd_visit. by rewrite Hp. }
  split; [done|]. split; [done|]. split; [done|]. split; [done|]. split.
  - assert (get_patient_by_id stamp now_text saved.2 (OPD.patient_id visit) = None
            ∨ ∃ p, get_patient_by_id stamp now_text saved.2 (OPD.patient_id visit) = Some p
                   ∧ str_in (OPD.visit_id visit) (Store.opd_visits p) = true) as Hafter.
    { destruct (get_patient_by_id stamp now_text files (OPD.patient_id visit))
        as [p|] eqn:Hp.
      - right. destruct (Hlink p eq_refl) as (p' & Hp' & Hin & _).
        exists p'. split; [done|]. by apply str_in_true.
      - left. unfold get_patient_by_id, Store.get_patient_by_id, read_back, get_patients in *.
        simpl in *. by rewrite (Hnone eq_refl). }
    assert (opd_visits_file saved.2 = upsertv (opd_visits_file files) visit) as Hv.
    { subst saved. unfold save_opd_visit.
      by destruct (get_patient_by_id stamp now_text files (OPD.patient_id visit)) as [p|];
        [destruct (negb _)|]. }
    unfold save_opd_visit at 1. rewrite Hv, upsertv_twice.
    destruct Hafter as [Hp|(p & Hp & Hin)]; rewrite Hp; [|rewrite Hin]; simpl.
    + rewrite <- Hv. by destruct (saved.2).
    + rewrite <- Hv. by destruct (saved.2).
  - subst saved. unfold save_opd_visit.
    destruct (get_patient_by_id stamp now_text files (OPD.patient_id visit)) as [p|];
      [destruct (negb _)|]; done.
Qed.

End DiskVisits.

Lemma save_opd_visit_links_patient_witness :
  let files := Disk.mkFiles [Store.to_dict (Scenario.patient_of "P20250102080000" "Asha")] [] [] in
  let visit := Scenario.visit_of "V20250106091500" "P20250102080000" "Dr. Smith"
                 "2025-01-06 09:15:00" "In Progress" in
  Disk.get_opd_visit_by_id "20250106101500" "2025-01-06 10:15:00"
    (Disk.save_opd_visit "20250106101500" "2025-01-06 10:15:00"
       Disk.Written Disk.Written visit files).2 "V20250106091500"
  = Some visit.
Proof.
  intros files visit.
  apply (save_opd_visit_links_patient "20250106101500" "2025-01-06 10:15:00" visit files).
  - repeat constructor. eexists. split; [reflexivity|discriminate].
  - constructor.
  - discriminate.
  - discriminate.
Defined.

(** For that store: the patient's record lists the visit once, however
    often the visit is saved. *)
Example save_opd_visit_twice :
  let files := Disk.mkFiles [Store.to_dict (Scenario.patient_of "P20250102080000" "Asha")] [] [] in
  let visit := Scenario.visit_of "V20250106091500" "P20250102080000" "Dr. Smith"
                 "2025-01-06 09:15:00" "In Progress" in
  let once := (Disk.save_opd_visit "s" "n" Disk.Written Disk.Written visit files).2 in
  let twice := (Disk.save_opd_visit "s" "n" Disk.Written Disk.Written
                  (OPD.mark_completed "n" visit) once).2 in
  (Store.opd_visits <$> Disk.get_patient_by_id "s" "n" twice "P20250102080000")
  = Some ["V20250106091500"]
  ∧ (OPD.status <$> Disk.get_opd_visit_by_id "s" "n" twice "V20250106091500")
    = Some "Completed"
  ∧ length (Disk.opd_visits_file twice) = 1%nat.
Proof. vm_compute. repeat split. Qed.

(** * More about the record store and the announcing methods *)

Section StoreMore.

(** X21.  [get_todays_opd_visits] either returns, in file order, the
    stored visits whose date parses to today, and then the date of every
    stored visit parses; or it raises the error of the first stored visit
    whose date does not parse, be it a visit of another day. *)
Theorem todays_visits_or_raise (sd : string → result Z) (today : Z)
    (dm : Store.DataManager) :
  match Store.get_todays_opd_visits sd today dm with
  | Ok kept =>
      Forall (fun v => ∃ d, sd (OPD.visit_date v) = Ok d) (Store.stored_visits dm)
      ∧ kept = List.filter
                 (fun v => match sd (OPD.visit_date v) with
                           | Ok d => bool_decide (d = today)
                           | Raise _ => false
                           end) (Store.stored_visits dm)
  | Raise e =>
      ∃ ahead v rest,
        Store.stored_visits dm = ahead ++ v :: rest
        ∧ Forall (fun v => ∃ d, sd (OPD.visit_date v) = Ok d) ahead
        ∧ sd (OPD.visit_date v) = Raise e
  end.
Proof.
  unfold Store.get_todays_opd_visits, Store.get_opd_visits.
  induction (Store.stored_visits dm) as [|v rest IH]; simpl.
  - split; [constructor|done].
  - unfold Store.is_today at 1.
    destruct (sd (OPD.visit_date v)) as [d|e] eqn:Ev.
    + destruct (Store.keep_todays sd today rest) as [kept|e].
      * destruct IH as [Hall ->]. split; [constructor; [by exists d|done]|].
        by destruct (bool_decide (d = today)).
      * destruct IH as (ahead & w & rest' & -> & Hall & Hw).
        exists (v :: ahead), w, rest'. split; [done|].
        split; [constructor; [by exists d|done]|done].
    + exists [], v, rest. split; [done|]. split; [constructor|done].
Qed.

(** [get_latest_visit] returns nothing for a patient without medical
    history, and right after [add_medical_history] it returns the entry
    added, stamped with the current time under ['date'] (whatever the
    entry held under that key); the earlier entries stay in place. *)
Theorem latest_visit_after_add (now_text : string) (entry : gmap string string)
    (self : Store.Patient) :
  Store.get_latest_visit (Store.add_medical_history now_text entry self)
  = Some (<["date" := now_text]> entry) ∧
  (<["date" := now_text]> entry) !! "date" = Some now_text ∧
  (∀ key, key ≠ "date" → (<["date" := now_text]> entry) !! key = entry !! key) ∧
  Store.medical_history (Store.add_medical_history now_text entry self)
  = Store.medical_history self ++ [<["date" := now_text]> entry] ∧
  (Store.medical_history self = [] → Store.get_latest_visit self = None).
Proof.
  unfold Store.get_latest_visit. simpl.
  split; [apply last_snoc|]. split; [apply lookup_insert_eq|].
  split; [|split; [done|]].
  - intros key Hkey. by apply lookup_insert_ne.
  - by intros ->.
Qed.

End StoreMore.

Section AnnouncingMethods.
Import Announcement.

(** The text a call announces. *)
Lemma announcing_call_message (self : AnnouncementSystem) (c : announcing_call) :
  ∃ message, do_announcing_call self c = announce self message.
Proof. destruct c; simpl; by eexists. Qed.

(** X22.  All four methods that announce through both sinks behave alike:
    the display callback is called first, and if it raises, the call ends
    with that exception and the speech engine is not tried; if it returns,
    the call returns normally: an exception of the speech engine never
    leaves the method, it is caught and printed.  The set of announced
    keys plays no part. *)
Theorem announcing_methods_outcome (self : AnnouncementSystem) (c : announcing_call) :
  ∃ message,
    (∀ e, announcement_callback self message = Raise e →
          do_announcing_call self c = (Raise e, [])) ∧
    (∀ r0, announcement_callback self message = Ok r0 →
           (do_announcing_call self c).1 = Ok ()
           ∧ (do_announcing_call self c).2 = Displayed message :: speak_guarded self message
           ∧ (speak_guarded self message = []
              ∨ speak_guarded self message = [Spoken message]
              ∨ ∃ e, speak_guarded self message
                     = [Printed ("TTS error: " +:+ exn_text e)])) ∧
    (∀ keys, do_announcing_call (with_announced keys self) c = do_announcing_call self c).
Proof.
  destruct (announcing_call_message self c) as [message Hm].
  exists message. rewrite Hm. unfold announce. split; [|split].
  - by intros e ->.
  - intros r0 ->. split; [done|]. split; [done|].
    destruct (speak_guarded_cases self message) as [?|[?|[e He]]]; [by left|by right; left|].
    right. right. exists e. by apply speak_guarded_fails.
  - intros keys. by destruct c.
Qed.

Example queue_update_messages :
  (announce_queue_update Scenario.engine_mute "Jane" 1).2
  = [Displayed "Patient Jane, you are next in line."]
  ∧ (announce_queue_update Scenario.engine_mute "Jane" 12).2
    = [Displayed "Patient Jane, you are number 12 in the queue."]
  ∧ (announce_patient_call Scenario.engine_hoarse "Jane" (Some "4")).2
    = [Displayed "Patient Jane, please report to room 4 for your appointment.";
       Printed "TTS error: sink down"].
Proof. vm_compute. repeat split. Qed.

End AnnouncingMethods.

(** * The daily summary report *)

Section ReportFacts.
Import Report.

Lemma fold_bump_lookup {A} (key : A → string) (l : list A) (m : gmap string nat)
    (k : string) :
  fold_left (fun counts x => bump (key x) counts) l m !! k
  = match occurrences_of key k l with
    | O => m !! k
    | S n => Some (default 0%nat (m !! k) + S n)%nat
    end.
Proof.
  revert m. induction l as [|x l IH]; intros m; [done|].
  cbn [fold_left]. rewrite IH. unfold occurrences_of. simpl.
  destruct (str_eqb (key x) k) eqn:E; simpl.
  - apply str_eqb_true in E. rewrite E. unfold bump. rewrite lookup_insert_eq. simpl.
    destruct (length _); f_equal; lia.
  - apply str_eqb_false in E. unfold bump. by rewrite lookup_insert_ne.
Qed.

Lemma total_insert_fresh (m : gmap string nat) (k : string) (n : nat) :
  m !! k = None → total (<[k := n]> m) = (n + total m)%nat.
Proof.
  intros H. unfold total. apply (map_fold_insert_L (fun _ n acc => (n + acc)%nat)); [|done].
  intros. lia.
Qed.

Lemma total_bump (m : gmap string nat) (k : string) : total (bump k m) = S (total m).
Proof.
  unfold bump. destruct (m !! k) as [n|] eqn:E; simpl.
  - rewrite <- (insert_delete_eq m k (S n)).
    rewrite total_insert_fresh by apply lookup_delete_eq.
    rewrite <- (insert_delete_id m k n E) at 2.
    rewrite total_insert_fresh by apply lookup_delete_eq. lia.
  - by rewrite total_insert_fresh.
Qed.

Lemma total_count_by {A} (key : A → string) (l : list A) :
  total (count_by key l) = length l.
Proof.
  unfold count_by.
  assert (∀ m, total (fold_left (fun counts x => bump (key x) counts) l m)
               = (total m + length l)%nat) as H.
  { induction l as [|x l IH]; intros m; simpl; [lia|].
    rewrite IH, total_bump. lia. }
  rewrite H. unfold total. by rewrite map_fold_empty.
Qed.

Lemma count_by_lookup {A} (key : A → string) (l : list A) (k : string) :
  count_by key l !! k
  = match occurrences_of key k l with
    | O => None
    | S n => Some (S n)
    end.
Proof.
  unfold count_by. rewrite fold_bump_lookup, lookup_empty. by destruct (occurrences_of _ _ _).
Qed.

(** X23.  [generate_daily_summary_report] returns the error dict exactly
    when the date does not parse.  Otherwise the consultations of the
    report are the stored visits whose date parses to the report's day, in
    file order (a visit whose date does not parse is left out, it raises
    nothing), the appointments are those whose date text equals the
    report's date text, and the figures agree: each total is the length of
    its list, each breakdown gives for a status (or doctor) the number of
    listed entries that have it and has no key for one that none has, and
    the counts of each breakdown add up to the total. *)
Theorem daily_summary_figures (strptime_day strptime_date : string → result Z)
    (now_text date : string) (appointments : list AppointmentModel.Appointment)
    (opd_visits : list OPD.OPDVisit) (patients : list Store.Patient) :
  match generate_daily_summary_report strptime_day strptime_date now_text date
          appointments opd_visits patients with
  | inl message =>
      (∃ e, strptime_day date = Raise e)
      ∧ message = "Invalid date format. Use YYYY-MM-DD"
  | inr report =>
      ∃ day daily_visits daily_appointments,
        strptime_day date = Ok day
        ∧ daily_visits
          = List.filter (fun v => dated_on strptime_date day (OPD.visit_date v)) opd_visits
        ∧ daily_appointments
          = List.filter (fun a => str_eqb (AppointmentModel.appointment_date a) date)
              appointments
        ∧ Report.consultations report = map OPD.to_dict daily_visits
        ∧ Report.appointments report = map AppointmentModel.to_dict daily_appointments
        ∧ total_consultations report = length daily_visits
        ∧ total_appointments report = length daily_appointments
        ∧ new_patients report = length (new_patient_details report)
        ∧ (∀ s, consultation_status report !! s
                = match occurrences_of OPD.status s daily_visits with
                  | O => None
                  | S n => Some (S n)
                  end)
        ∧ (∀ d, doctor_consultations report !! d
                = match occurrences_of OPD.doctor_name d daily_visits with
                  | O => None
                  | S n => Some (S n)
                  end)
        ∧ (∀ s, appointment_status report !! s
                = match occurrences_of AppointmentModel.status s daily_appointments with
                  | O => None
                  | S n => Some (S n)
                  end)
        ∧ total (consultation_status report) = total_consultations report
        ∧ total (doctor_consultations report) = total_consultations report
        ∧ total (appointment_status report) = total_appointments report
  end.
Proof.
  unfold generate_daily_summary_report.
  destruct (strptime_day date) as [day|e].
  - eexists day, _, _. split; [done|]. split; [done|]. split; [done|].
    cbn [Report.consultations Report.appointments total_consultations total_appointments
         new_patients new_patient_details consultation_status doctor_consultations
         appointment_status].
    split; [done|]. split; [done|]. split; [done|]. split; [done|].
    split; [by rewrite length_map|].
    split; [intros s; apply count_by_lookup|].
    split; [intros d; apply count_by_lookup|].
    split; [intros s; apply count_by_lookup|].
    split; [apply total_count_by|]. split; apply total_count_by.
  - split; [by exists e|done].
Qed.

Example daily_summary_example :
  let parse_day := fun text : string =>
    if str_eqb text "2025-01-06" then Ok 20094%Z else Raise (Exception "bad date") in
  match generate_daily_summary_report parse_day Scenario.sd0 "2025-01-07 08:00:00"
          "2025-01-06" []
          (Scenario.visit_of "V9" "P9" "Dr. Davis" "not a date" "Completed"
           :: Scenario.visit_of "V8" "P8" "Dr. Smith" "2025-01-06 09:15:00" "In Progress"
           :: Store.stored_visits Scenario.dm0) [] with
  | inl _ => False
  | inr report =>
      total_consultations report = 2%nat
      ∧ map_to_list (consultation_status report) ≡ₚ [("Completed", 1%nat); ("In Progress", 1%nat)]
      ∧ map_to_list (doctor_consultations report) = [("Dr. Smith", 2%nat)]
  end
  ∧ generate_daily_summary_report parse_day Scenario.sd0 "n" "06/01/2025" [] [] []
    = inl "Invalid date format. Use YYYY-MM-DD".
Proof.
  split; [|reflexivity]. split; [reflexivity|]. split; [|by vm_compute].
  vm_compute. apply Permutation_swap || reflexivity.
Qed.

End ReportFacts.
